(** * Trading-decision engine: pattern detectors and decision dispatcher

    A shallow embedding of the bot decision logic ([getDirectionChangePoints],
    [shouldSellWithDollarDrop], [makeTradingDecision], ...) and of the beat
    detectors of [utils/beatsPerMinute.ts] ([detectBeatSequences],
    [calculatePotentialProfitSequences], [detectPotentialLossSequences]),
    followed by the properties the specification states about them. *)

From Stdlib Require Import ZArith QArith Qround Qabs Qpower Lqa List String Bool Lia
  DecimalString Sorted.
Import ListNotations.
Open Scope Z_scope.

(** ** The JavaScript fragment the code relies on *)

Module JS.

(** *** Numbers

    A [number] that is a price, an amount of money or a share count is a
    finite IEEE 754 double.  It is modelled as the rational it is equal
    to, so that two doubles are compared exactly, and the result of an
    arithmetic operation is rounded to the nearest double, to the even
    one on a tie ([double]).  A rational that is not a double stands for
    the double nearest to it, as a decimal literal does in the source and
    in a quote that is parsed: the operations round their operands first,
    which changes nothing on doubles.  The doubles are the values
    [m * 2 ^ e] with [|m| <= 2 ^ 53] and [-1074 <= e] ([isDouble_format]),
    what [double] returns is a double ([double_idempotent]) and no double
    is nearer to its argument ([double_nearest]).

    Not modelled: a result beyond the largest double, which is an infinity
    in JavaScript and is rounded here as if the exponent were unbounded;
    NaN and the sign of zero; [x / 0], which is [0] here where JavaScript
    yields an infinity or NaN.  The code divides by a buy price times a
    share count, or by the price of a sample, and the quote client drops
    every sample whose price is NaN or not positive.
    Indices, lengths and counters are integers. *)
Definition number := Q.
Bind Scope Q_scope with number.

Definition ltb (x y : number) : bool := negb (Qle_bool y x).
Definition gtb (x y : number) : bool := ltb y x.
Definition leb (x y : number) : bool := Qle_bool x y.
Definition geb (x y : number) : bool := Qle_bool y x.
Arguments ltb (x y)%_Q.
Arguments gtb (x y)%_Q.
Arguments leb (x y)%_Q.
Arguments geb (x y)%_Q.

(** The floor of the binary logarithm of a positive rational. *)
Definition ilog2 (x : Q) : Z :=
  let k := Z.log2 (Qnum x) - Z.log2 (Zpos (Qden x)) in
  if Qle_bool (2 ^ k) x then k else k - 1.

(** The nearest integer, the even one on a tie. *)
Definition nearestEven (m : Q) : Z :=
  let f := Qfloor m in
  match (m - inject_Z f ?= 1 # 2)%Q with
  | Lt => f
  | Gt => f + 1
  | Eq => if Z.even f then f else f + 1
  end.

(** The exponent of the last bit of the double nearest to [x]: 53 bits of
    precision, and no bit below [2 ^ -1074]. *)
Definition exponent (x : Q) : Z := Z.max (ilog2 x - 52) (-1074).

(** The double nearest to a rational that is not negative. *)
Definition roundPositive (x : Q) : Q :=
  Qred (inject_Z (nearestEven (x / 2 ^ exponent x)) * 2 ^ exponent x).

(** The double nearest to [x], which is [x] when [x] is a double. *)
Definition double (x : Q) : number :=
  if Qle_bool 0 x then roundPositive x else Qred (- roundPositive (- x)).
Arguments double x%_Q : simpl never.

(** [x] is a double: rounding leaves it as it is. *)
Definition isDouble (x : number) : Prop := (double x == x)%Q.

(** [x + y], [x - y], [x * y] and [x / y]. *)
Definition add (x y : number) : number := double (double x + double y).
Definition sub (x y : number) : number := double (double x - double y).
Definition mul (x y : number) : number := double (double x * double y).
Definition div (x y : number) : number := double (double x / double y).
Arguments add (x y)%_Q : simpl never.
Arguments sub (x y)%_Q : simpl never.
Arguments mul (x y)%_Q : simpl never.
Arguments div (x y)%_Q : simpl never.

(** [x || d] on an optional number, read as a double: [undefined] and [0]
    are falsy. *)
Definition orDefault (x : option number) (d : number) : number :=
  match x with
  | Some v => if Qeq_bool (double v) 0 then double d else double v
  | None => double d
  end.
Arguments orDefault x d%_Q.

(** [x.toFixed(d)] picks the integer [n] for which [n / 10^d] is closest
    to [|x|], the larger one on a tie, and prints it with the sign of [x];
    [toFixedUnits] is that signed [n]. *)
Definition toFixedUnits (d : nat) (x : number) : Z :=
  let v := double x in
  let n := Qfloor (Qabs v * inject_Z (10 ^ Z.of_nat d) + (1 # 2))%Q in
  if ltb v 0 then - n else n.

(** [parseFloat(x.toFixed(d))]: the double nearest to the decimal that
    [toFixed] prints. *)
Definition roundTo (d : nat) (x : number) : number :=
  double (inject_Z (toFixedUnits d x) / inject_Z (10 ^ Z.of_nat d)).
Arguments roundTo d%_nat x%_Q : simpl never.

(** [Math.floor(x)] and [Math.min(x, y)]. *)
Definition Math_floor (x : number) : number := inject_Z (Qfloor (double x)).

Definition Math_min (x y : number) : number := if ltb y x then y else x.

(** A template literal, kept as its pieces: the literal text and the
    interpolated values, each with the way it is printed.  Two equal
    piece lists print as the same string. *)
Inductive Piece : Type :=
| Lit (s : string)                    (* literal text *)
| Num (x : number)                    (* ${x} *)
| Fixed (digits : nat) (x : number).  (* ${x.toFixed(digits)} *)

Definition Template := list Piece.

(** `${i}` for an integer [i]. *)
Definition showInt (i : Z) : string := NilZero.string_of_int (Z.to_int i).

(** *** Arrays *)

Definition length {A} (a : list A) : Z := Z.of_nat (List.length a).

(** [a[i]]: [None] is [undefined]. *)
Definition get {A} (a : list A) (i : Z) : option A :=
  if i <? 0 then None else nth_error a (Z.to_nat i).

(** An index argument of [slice], relative to the end when negative. *)
Definition relIndex (len i : Z) : Z :=
  if i <? 0 then Z.max (len + i) 0 else Z.min i len.

(** [a.slice(b, e)]. *)
Definition slice {A} (a : list A) (b e : Z) : list A :=
  let k := relIndex (length a) b in
  let final := relIndex (length a) e in
  firstn (Z.to_nat (final - k)) (skipn (Z.to_nat k) a).

(** [a.slice(b)]. *)
Definition sliceFrom {A} (a : list A) (b : Z) : list A :=
  slice a b (length a).

(** *** Exceptions

    Reading a property of [undefined] throws a [TypeError]; nothing else
    in the modelled code throws. *)
Inductive Exc (A : Type) : Type :=
| Ok (a : A)
| TypeError.
Arguments Ok {A} a.
Arguments TypeError {A}.

Definition bind {A B} (m : Exc A) (k : A -> Exc B) : Exc B :=
  match m with
  | Ok a => k a
  | TypeError => TypeError
  end.

(** [o.f] *)
Definition field {A B} (o : option A) (f : A -> B) : Exc B :=
  match o with
  | Some a => Ok (f a)
  | None => TypeError
  end.

(** [for (let i = lo; i < hi; i++) body], on the variables [s] that the
    body assigns. *)
Fixpoint forLoop {S} (n : nat) (i : Z) (body : Z -> S -> Exc S) (s : S) : Exc S :=
  match n with
  | O => Ok s
  | Datatypes.S n' => bind (body i s) (forLoop n' (i + 1) body)
  end.

Definition forRange {S} (lo hi : Z) (body : Z -> S -> Exc S) (s : S) : Exc S :=
  forLoop (Z.to_nat (hi - lo)) lo body s.

(** [a.forEach(body)], on the variables [s] that the body assigns. *)
Fixpoint forEach {A S} (a : list A) (body : A -> S -> Exc S) (s : S) : Exc S :=
  match a with
  | [] => Ok s
  | x :: a' => bind (body x s) (forEach a' body)
  end.

(** *** Math.random

    The values that successive calls of [Math.random()] return, each in
    [0, 1); a call takes the first one. *)
Definition Random := nat -> number.

Definition Math_random (g : Random) : number * Random :=
  (g 0%nat, fun n => g (Datatypes.S n)).

(** Code that may throw and may call [Math.random()]. *)
Definition Eff (A : Type) : Type := Random -> Exc (A * Random).

Definition pure {A} (a : A) : Eff A := fun g => Ok (a, g).

Definition lift {A} (m : Exc A) : Eff A :=
  fun g => bind m (fun a => Ok (a, g)).

Definition bindEff {A B} (m : Eff A) (k : A -> Eff B) : Eff B :=
  fun g => bind (m g) (fun r => k (fst r) (snd r)).

Definition random : Eff number := fun g => Ok (Math_random g).

End JS.

Import JS.

Notation "'let?' x ':=' m 'in' k" := (JS.bind m (fun x => k))
  (at level 10, x name, m at level 100, k at level 200).
Notation "'let!' x ':=' m 'in' k" := (JS.bindEff m (fun x => k))
  (at level 10, x name, m at level 100, k at level 200).
Notation "a '.[' i ']'" := (JS.get a i) (at level 1, i at level 200, left associativity).

(** ** Data model *)

(** [types/stock.ts] *)
Module StockData.
Record t : Type := mk {
  timestamp : Z;
  price : number;
  volume : Z;
  open : option number;
  high : option number;
  low : option number;
  close : option number
}.
End StockData.

(** [types/bot.ts]: the settings and the position of a [TradingBot], as
    far as the decision logic reads them.  An optional boolean is only ever
    tested, so [undefined] is [false]; an optional number is [None] when it
    is [undefined]; a missing [tradingMethod] is [None]. *)
Inductive TradingMethod : Type :=
| trend_reversal
| direction_change_reference
| direction_change_buy
| price_comparison
| slope_analysis
| confirmed_recovery.

Module Settings.
Record t : Type := mk {
  tradingMethod : option TradingMethod;
  dollarDropThreshold : option number;
  dollarDropEnabled : bool;
  profitTakingEnabled : bool;
  profitTakingPercentage : option number;
  profitTakingDollarAmount : option number;
  dollarDropTriggerAmount : option number;
  sellAtBuyPriceEnabled : bool;
  consecutiveFallsEnabled : bool;
  consecutiveFallsCount : option number;
  confirmedRecoveryFirstDelay : option number;
  confirmedRecoverySecondDelay : option number
}.
End Settings.

Module Position.
Record t : Type := mk {
  buyPrice : number;
  shares : number;
  timestamp : Z;
  consecutiveFalls : option Z;
  lastPrice : option number;
  priceHistory : option (list number)
}.
End Position.

(** [Partial<TradingBot['currentPosition']>], as the overlay fills it. *)
Module PositionUpdate.
Record t : Type := mk {
  priceHistory : list number;
  consecutiveFalls : Z
}.
End PositionUpdate.

(** The fields of a [TradingBot] that the decision logic reads. *)
Module TradingBot.
Record t : Type := mk {
  isActive : bool;
  settings : Settings.t;
  currentPosition : option Position.t
}.
End TradingBot.

(** ** Direction changes and strategy evaluators *)

Inductive PointType : Type := peak | valley.

Module DirectionChangePoint.
Record t : Type := mk {
  index : Z;
  timestamp : Z;
  price : number;
  type : PointType
}.
End DirectionChangePoint.

Definition getDirectionChangePoints (data : list StockData.t)
  : Exc (list DirectionChangePoint.t) :=
  if length data <? 3 then Ok [] else
  forRange 1 (length data - 1) (fun i directionChanges =>
    let? prevPrice := field data.[i - 1] StockData.price in
    let? currentPrice := field data.[i] StockData.price in
    let? nextPrice := field data.[i + 1] StockData.price in
    let isLocalMin := gtb prevPrice currentPrice && ltb currentPrice nextPrice in
    let isLocalMax := ltb prevPrice currentPrice && gtb currentPrice nextPrice in
    if isLocalMin then
      let? ts := field data.[i] StockData.timestamp in
      Ok (directionChanges ++ [DirectionChangePoint.mk i ts currentPrice valley])
    else if isLocalMax then
      let? ts := field data.[i] StockData.timestamp in
      Ok (directionChanges ++ [DirectionChangePoint.mk i ts currentPrice peak])
    else Ok directionChanges) [].

(** The result is [None] for [null]. *)
Definition getLastDirectionChangePoint (data : list StockData.t)
  : Exc (option DirectionChangePoint.t) :=
  let? directionChanges := getDirectionChangePoints data in
  Ok (if length directionChanges >? 0
      then directionChanges.[length directionChanges - 1]
      else None).

Module BuyReference.
Record t : Type := mk {
  shouldBuy : bool;
  referencePoint : option DirectionChangePoint.t
}.
End BuyReference.

Definition shouldBuyDirectionChangeReference (data : list StockData.t)
    (currentPrice : number) : Exc BuyReference.t :=
  let? lastDirectionChange := getLastDirectionChangePoint data in
  match lastDirectionChange with
  | None => Ok (BuyReference.mk false None)
  | Some p =>
      let shouldBuy := gtb currentPrice (DirectionChangePoint.price p) in
      Ok (BuyReference.mk shouldBuy (Some p))
  end.

(** ** Dollar-drop overlay *)

Module SellResult.
Record t : Type := mk {
  shouldSell : bool;
  reason : Template;
  updatePosition : option PositionUpdate.t
}.
End SellResult.

(** The counting loop of the consecutive-falls rule,
    [for (let i = recentPriceHistory.length - 1; i > 0; i--)], which
    leaves at the first price that did not fall; [n] is the number of
    iterations still possible.  A comparison with [undefined] is false. *)
Fixpoint countFalls (recentPriceHistory : list number) (n : nat) (i : Z)
    (consecutiveFalls : Z) : Z :=
  match n with
  | O => consecutiveFalls
  | S n' =>
      match recentPriceHistory.[i], recentPriceHistory.[i - 1] with
      | Some cur, Some prev =>
          if ltb cur prev
          then countFalls recentPriceHistory n' (i - 1) (consecutiveFalls + 1)
          else consecutiveFalls
      | _, _ => consecutiveFalls
      end
  end.

Definition shouldSellWithDollarDrop (bot : TradingBot.t) (currentPrice : number)
    (data : list StockData.t) : Exc SellResult.t :=
  match TradingBot.currentPosition bot with
  | None => Ok (SellResult.mk false [Lit "No current position"] None)
  | Some position =>
      let buyPrice := Position.buyPrice position in
      let shares := Position.shares position in
      let settings := TradingBot.settings bot in
      let currentValue := mul currentPrice shares in
      let investedAmount := mul buyPrice shares in
      let profitLoss := sub currentValue investedAmount in
      let profitLossPercentage := mul (div profitLoss investedAmount) 100 in
      (* the rules after profit taking *)
      let afterProfitTaking :=
        if Settings.sellAtBuyPriceEnabled settings && leb currentPrice buyPrice then
          Ok (SellResult.mk true
                [Lit "Price fell to/below buy price: "; Fixed 2 currentPrice;
                 Lit " <= "; Fixed 2 buyPrice] None)
        else if Settings.consecutiveFallsEnabled settings then
          let fallsThreshold := orDefault (Settings.consecutiveFallsCount settings) 3 in
          let priceHistory :=
            match Position.priceHistory position with
            | Some h => h
            | None => [buyPrice]
            end in
          let updatedPriceHistory := priceHistory ++ [currentPrice] in
          let recentPriceHistory := sliceFrom updatedPriceHistory (-20) in
          let consecutiveFalls :=
            countFalls recentPriceHistory
              (Z.to_nat (length recentPriceHistory - 1))
              (length recentPriceHistory - 1) 0 in
          if geb (inject_Z consecutiveFalls) fallsThreshold then
            Ok (SellResult.mk true
                  [Lit "Price fell for "; Num (inject_Z consecutiveFalls);
                   Lit " consecutive live updates"]
                  (Some (PositionUpdate.mk [currentPrice] 0)))
          else
            Ok (SellResult.mk false
                  [Lit "Consecutive live falls: "; Num (inject_Z consecutiveFalls);
                   Lit "/"; Num fallsThreshold]
                  (Some (PositionUpdate.mk recentPriceHistory consecutiveFalls)))
        else Ok (SellResult.mk false [Lit "Dollar Drop conditions not met"] None) in
      if Settings.profitTakingEnabled settings then
        let profitPercentageThreshold :=
          orDefault (Settings.profitTakingPercentage settings) 10 in
        let profitDollarThreshold :=
          orDefault (Settings.profitTakingDollarAmount settings) 0 in
        let dollarDropTrigger :=
          orDefault (Settings.dollarDropTriggerAmount settings) 0.10 in
        let reachedProfitThreshold :=
          geb profitLossPercentage profitPercentageThreshold
          || (gtb profitDollarThreshold 0 && geb profitLoss profitDollarThreshold) in
        if reachedProfitThreshold && (length data >=? 2) then
          let? previousPrice := field data.[length data - 2] StockData.price in
          let priceDropFromPrevious := sub previousPrice currentPrice in
          if geb priceDropFromPrevious dollarDropTrigger then
            Ok (SellResult.mk true
                  [Lit "Profit target reached ("; Fixed 1 profitLossPercentage;
                   Lit "%) and price dropped "; Fixed 2 priceDropFromPrevious] None)
          else afterProfitTaking
        else afterProfitTaking
      else afterProfitTaking
  end.

Definition shouldSellDirectionChangeReference (bot : TradingBot.t)
    (currentPrice : number) : SellResult.t :=
  match TradingBot.currentPosition bot with
  | None => SellResult.mk false [Lit "No current position"] None
  | Some position =>
      let buyPrice := Position.buyPrice position in
      let dollarDropThreshold :=
        orDefault (Settings.dollarDropThreshold (TradingBot.settings bot)) 5 in
      let priceDrop := sub buyPrice currentPrice in
      let shouldSell := geb priceDrop dollarDropThreshold in
      SellResult.mk shouldSell
        (if shouldSell
         then [Lit "Price dropped "; Fixed 2 priceDrop;
               Lit " from buy price "; Fixed 2 buyPrice]
         else [Lit "Price drop "; Fixed 2 priceDrop;
               Lit " below threshold "; Num dollarDropThreshold])
        None
  end.

(** ** Strategy evaluators *)

Module BuyNew.
Record t : Type := mk {
  shouldBuy : bool;
  newDirectionChange : option DirectionChangePoint.t
}.
End BuyNew.

Definition shouldBuyDirectionChangeBuy (data : list StockData.t)
    (lastProcessedIndex : option Z) : Exc BuyNew.t :=
  if length data <? 3 then Ok (BuyNew.mk false None) else
  let? directionChanges := getDirectionChangePoints data in
  if length directionChanges =? 0 then Ok (BuyNew.mk false None) else
  let lastChange := directionChanges.[length directionChanges - 1] in
  let? lastType := field lastChange DirectionChangePoint.type in
  let? lastIndex := field lastChange DirectionChangePoint.index in
  let isNewValley :=
    match lastType with valley => true | peak => false end
    && match lastProcessedIndex with
       | None => true
       | Some processed => lastIndex >? processed
       end in
  Ok (BuyNew.mk isNewValley (if isNewValley then lastChange else None)).

Definition shouldBuyTrendReversal (data : list StockData.t) : Exc bool :=
  if length data <? 3 then Ok false else
  let? directionChanges := getDirectionChangePoints data in
  if length directionChanges =? 0 then Ok false else
  let? lastType :=
    field directionChanges.[length directionChanges - 1] DirectionChangePoint.type in
  Ok match lastType with valley => true | peak => false end.

Definition shouldSellTrendReversal (data : list StockData.t) : Exc bool :=
  if length data <? 3 then Ok false else
  let? directionChanges := getDirectionChangePoints data in
  if length directionChanges =? 0 then Ok false else
  let? lastType :=
    field directionChanges.[length directionChanges - 1] DirectionChangePoint.type in
  Ok match lastType with peak => true | valley => false end.

Definition shouldBuyPriceComparison (data : list StockData.t) : Exc bool :=
  if length data <? 2 then Ok false else
  let? currentPrice := field data.[length data - 1] StockData.price in
  let? previousPrice := field data.[length data - 2] StockData.price in
  Ok (gtb currentPrice previousPrice).

Definition shouldSellPriceComparison (data : list StockData.t) : Exc bool :=
  if length data <? 2 then Ok false else
  let? currentPrice := field data.[length data - 1] StockData.price in
  let? previousPrice := field data.[length data - 2] StockData.price in
  Ok (ltb currentPrice previousPrice).

Definition shouldBuySlopeAnalysis (data : list StockData.t) : Exc bool :=
  if length data <? 2 then Ok false else
  let? currentPrice := field data.[length data - 1] StockData.price in
  let? previousPrice := field data.[length data - 2] StockData.price in
  Ok (gtb currentPrice previousPrice).

Definition shouldSellSlopeAnalysis (data : list StockData.t) : Exc bool :=
  if length data <? 2 then Ok false else
  let? currentPrice := field data.[length data - 1] StockData.price in
  let? previousPrice := field data.[length data - 2] StockData.price in
  Ok (ltb currentPrice previousPrice).

Definition isLastIntervalDownward (data : list StockData.t) : Exc bool :=
  if length data <? 2 then Ok false else
  let? currentPrice := field data.[length data - 1] StockData.price in
  let? previousPrice := field data.[length data - 2] StockData.price in
  Ok (ltb currentPrice previousPrice).

Module PriceCheck.
Record t : Type := mk {
  price : number;
  isUpward : bool
}.
End PriceCheck.

(** The delay is not waited for; the price moves by a random change of at
    most half a percent.  The result is compared with the double that
    [currentPrice] stands for. *)
Definition simulatePriceCheckAfterDelay (data : list StockData.t)
    (delaySeconds : number) (currentPrice : number) : Eff PriceCheck.t :=
  let! r := random in
  let randomChange := mul (sub r 0.5) 0.01 in
  let simulatedPrice := mul currentPrice (add 1 randomChange) in
  let isUpward := gtb simulatedPrice (double currentPrice) in
  pure (PriceCheck.mk simulatedPrice isUpward).

Module BuyResult.
Record t : Type := mk {
  shouldBuy : bool;
  reason : Template
}.
End BuyResult.

(** The delays default to 15 and 30 seconds when the caller leaves them
    out; [makeTradingDecision], the only caller, passes both. *)
Definition shouldBuyConfirmedRecovery (data : list StockData.t)
    (currentPrice : number) (firstDelaySeconds secondDelaySeconds : number)
  : Eff BuyResult.t :=
  let! downward := lift (isLastIntervalDownward data) in
  if negb downward then
    pure (BuyResult.mk false [Lit "Last interval is not in downward direction"])
  else
  let! firstCheck := simulatePriceCheckAfterDelay data firstDelaySeconds currentPrice in
  if PriceCheck.isUpward firstCheck then
    pure (BuyResult.mk false
            [Lit "After "; Num firstDelaySeconds;
             Lit "s delay, price went up instead of continuing down"])
  else
  let! secondCheck :=
    simulatePriceCheckAfterDelay data secondDelaySeconds (PriceCheck.price firstCheck) in
  if negb (PriceCheck.isUpward secondCheck) then
    pure (BuyResult.mk false
            [Lit "After "; Num secondDelaySeconds;
             Lit "s delay, price is still not showing upward movement"])
  else
    pure (BuyResult.mk true
            [Lit "Confirmed recovery: downtrend confirmed after ";
             Num firstDelaySeconds;
             Lit "s, upward movement confirmed after ";
             Num secondDelaySeconds; Lit "s"]).

(** ** Decision dispatcher *)

Inductive Action : Type := BUY | SELL | HOLD.

(** An optional field is [None] when the decision does not carry it; a
    reference point that is carried may be [null], the inner [None]. *)
Module Decision.
Record t : Type := mk {
  action : Action;
  reason : Template;
  referencePoint : option (option DirectionChangePoint.t);
  newDirectionChange : option (option DirectionChangePoint.t);
  updatePosition : option PositionUpdate.t
}.
End Decision.

Definition decision (action : Action) (reason : Template) : Decision.t :=
  Decision.mk action reason None None None.

(** [Current price ${cur.toFixed(2)} op previous price ${prev.toFixed(2)}] *)
Definition comparisonReason (op : string) (cur prev : number) : Template :=
  [Lit "Current price "; Fixed 2 cur; Lit op; Fixed 2 prev].

(** The last two prices of the series, read where the code has checked
    [data.length >= 2]. *)
Definition lastTwoPrices (data : list StockData.t) : Exc (number * number) :=
  let? currentPrice := field data.[length data - 1] StockData.price in
  let? previousPrice := field data.[length data - 2] StockData.price in
  Ok (currentPrice, previousPrice).

(** The strategy part of [makeTradingDecision]: the chain of tests on
    [tradingMethod] that follows the overlay. *)
Definition strategyDecision (bot : TradingBot.t) (data : list StockData.t)
    (currentPrice : number) (lastProcessedIndex : option Z) : Eff Decision.t :=
  let settings := TradingBot.settings bot in
  let hasPosition :=
    match TradingBot.currentPosition bot with Some _ => true | None => false end in
  let tradingMethod :=
    match Settings.tradingMethod settings with
    | Some m => m
    | None => trend_reversal
    end in
  match tradingMethod with
  | price_comparison =>
      if negb hasPosition then
        lift (let? shouldBuy := shouldBuyPriceComparison data in
              if shouldBuy && (length data >=? 2) then
                let? p := lastTwoPrices data in
                Ok (decision BUY
                      (comparisonReason " > previous price " (fst p) (snd p)))
              else if length data >=? 2 then
                let? p := lastTwoPrices data in
                Ok (decision HOLD
                      (comparisonReason " <= previous price " (fst p) (snd p)))
              else Ok (decision HOLD [Lit "Insufficient data for price comparison"]))
      else
        lift (let? shouldSell := shouldSellPriceComparison data in
              if shouldSell && (length data >=? 2) then
                let? p := lastTwoPrices data in
                Ok (decision SELL
                      (comparisonReason " < previous price " (fst p) (snd p)))
              else if length data >=? 2 then
                let? p := lastTwoPrices data in
                Ok (decision HOLD
                      (comparisonReason " >= previous price " (fst p) (snd p)))
              else Ok (decision HOLD [Lit "Insufficient data for price comparison"]))
  | slope_analysis =>
      if negb hasPosition then
        lift (let? shouldBuy := shouldBuySlopeAnalysis data in
              if shouldBuy && (length data >=? 2) then
                let? p := lastTwoPrices data in
                let slope := sub (fst p) (snd p) in
                Ok (decision BUY
                      [Lit "Positive slope: "; Lit (if gtb slope 0 then "+" else "");
                       Fixed 2 slope; Lit " ("; Fixed 2 (snd p); Lit " → ";
                       Fixed 2 (fst p); Lit ")"])
              else if length data >=? 2 then
                let? p := lastTwoPrices data in
                Ok (decision HOLD
                      [Lit "Negative/flat slope: "; Fixed 2 (sub (fst p) (snd p))])
              else Ok (decision HOLD [Lit "Insufficient data for slope analysis"]))
      else
        lift (let? shouldSell := shouldSellSlopeAnalysis data in
              if shouldSell && (length data >=? 2) then
                let? p := lastTwoPrices data in
                let slope := sub (fst p) (snd p) in
                Ok (decision SELL
                      [Lit "Negative slope: "; Fixed 2 slope; Lit " (";
                       Fixed 2 (snd p); Lit " → "; Fixed 2 (fst p); Lit ")"])
              else if length data >=? 2 then
                let? p := lastTwoPrices data in
                Ok (decision HOLD
                      [Lit "Positive/flat slope: "; Fixed 2 (sub (fst p) (snd p))])
              else Ok (decision HOLD [Lit "Insufficient data for slope analysis"]))
  | direction_change_reference =>
      if negb hasPosition then
        lift (let? r := shouldBuyDirectionChangeReference data currentPrice in
              match BuyReference.shouldBuy r, BuyReference.referencePoint r with
              | true, Some referencePoint =>
                  Ok (Decision.mk BUY
                        [Lit "Current price "; Fixed 2 currentPrice;
                         Lit " > last direction change ";
                         Fixed 2 (DirectionChangePoint.price referencePoint)]
                        (Some (Some referencePoint)) None None)
              | _, Some referencePoint =>
                  Ok (Decision.mk HOLD
                        [Lit "Current price "; Fixed 2 currentPrice;
                         Lit " <= last direction change ";
                         Fixed 2 (DirectionChangePoint.price referencePoint)]
                        (Some (Some referencePoint)) None None)
              | _, None =>
                  Ok (Decision.mk HOLD
                        [Lit "No direction change reference point found"]
                        (Some None) None None)
              end)
      else
        let r := shouldSellDirectionChangeReference bot currentPrice in
        pure (decision (if SellResult.shouldSell r then SELL else HOLD)
                (SellResult.reason r))
  | direction_change_buy =>
      if negb hasPosition then
        lift (let? r := shouldBuyDirectionChangeBuy data lastProcessedIndex in
              match BuyNew.shouldBuy r, BuyNew.newDirectionChange r with
              | true, Some newDirectionChange =>
                  Ok (Decision.mk BUY
                        [Lit "Direction changed from DOWN to UP at ";
                         Fixed 2 (DirectionChangePoint.price newDirectionChange)]
                        None (Some (Some newDirectionChange)) None)
              | _, _ =>
                  Ok (decision HOLD
                        [Lit "Waiting for new direction change from DOWN to UP"])
              end)
      else
        lift (let? shouldSell := shouldSellTrendReversal data in
              Ok (if shouldSell
                  then decision SELL [Lit "Trend changed from UP to DOWN"]
                  else decision HOLD [Lit "Holding position, trend still up"]))
  | confirmed_recovery =>
      if negb hasPosition then
        let firstDelay := orDefault (Settings.confirmedRecoveryFirstDelay settings) 15 in
        let secondDelay := orDefault (Settings.confirmedRecoverySecondDelay settings) 30 in
        let! r := shouldBuyConfirmedRecovery data currentPrice firstDelay secondDelay in
        pure (decision (if BuyResult.shouldBuy r then BUY else HOLD)
                (BuyResult.reason r))
      else
        lift (let? shouldSell := shouldSellTrendReversal data in
              Ok (if shouldSell
                  then decision SELL [Lit "Trend changed from UP to DOWN"]
                  else decision HOLD [Lit "Holding position, trend still up"]))
  | trend_reversal =>
      if negb hasPosition then
        lift (let? shouldBuy := shouldBuyTrendReversal data in
              Ok (if shouldBuy
                  then decision BUY [Lit "Trend changed from DOWN to UP"]
                  else decision HOLD [Lit "Waiting for upward trend reversal"]))
      else
        lift (let? shouldSell := shouldSellTrendReversal data in
              Ok (if shouldSell
                  then decision SELL [Lit "Trend changed from UP to DOWN"]
                  else decision HOLD [Lit "Holding position, trend still up"]))
  end.

Definition makeTradingDecision (bot : TradingBot.t) (data : list StockData.t)
    (currentPrice : number) (lastProcessedIndex : option Z) : Eff Decision.t :=
  if negb (TradingBot.isActive bot) then pure (decision HOLD [Lit "Bot is inactive"])
  else
  let hasPosition :=
    match TradingBot.currentPosition bot with Some _ => true | None => false end in
  if Settings.dollarDropEnabled (TradingBot.settings bot) && hasPosition then
    let! dollarDropResult := lift (shouldSellWithDollarDrop bot currentPrice data) in
    if SellResult.shouldSell dollarDropResult then
      pure (Decision.mk SELL (SellResult.reason dollarDropResult) None None
              (SellResult.updatePosition dollarDropResult))
    else
      match SellResult.updatePosition dollarDropResult with
      | Some update =>
          pure (Decision.mk HOLD (SellResult.reason dollarDropResult) None None
                  (Some update))
      | None => strategyDecision bot data currentPrice lastProcessedIndex
      end
  else strategyDecision bot data currentPrice lastProcessedIndex.

(** ** Beat sequences ([utils/beatsPerMinute.ts]) *)

Module BeatSequence.
Record t : Type := mk {
  id : string;
  startIndex : Z;
  endIndex : Z;
  startTime : Z;
  endTime : Z;
  startPrice : number;
  endPrice : number;
  dollarGain : number;
  percentageChange : number;
  dataPoints : list StockData.t
}.
End BeatSequence.

(** The sequence that [detectBeatSequences] pushes for a run from
    [currentSequenceStart] to [endIndex]; the loop and the check after it
    build it the same way. *)
Definition beatSequence (data : list StockData.t)
    (currentSequenceStart endIndex : Z) : Exc BeatSequence.t :=
  let startData := data.[currentSequenceStart] in
  let endData := data.[endIndex] in
  let? endPrice := field endData StockData.price in
  let? startPrice := field startData StockData.price in
  let dollarGain := sub endPrice startPrice in
  let percentageChange := mul (div dollarGain startPrice) 100 in
  let? startTime := field startData StockData.timestamp in
  let? endTime := field endData StockData.timestamp in
  Ok (BeatSequence.mk
        ("beat-" ++ showInt currentSequenceStart ++ "-" ++ showInt endIndex)
        currentSequenceStart endIndex startTime endTime startPrice endPrice
        (roundTo 2 dollarGain) (roundTo 2 percentageChange)
        (slice data currentSequenceStart (endIndex + 1))).

(** The variables of the scan. *)
Module Scan.
Record t : Type := mk {
  sequences : list BeatSequence.t;
  currentSequenceStart : Z;
  consecutivePositiveCount : Z
}.
End Scan.

(** A run that is long enough is pushed. *)
Definition flushRun (data : list StockData.t) (minConsecutiveIntervals : Z)
    (st : Scan.t) (endIndex : Z) : Exc (list BeatSequence.t) :=
  if (Scan.consecutivePositiveCount st >=? minConsecutiveIntervals)
     && (Scan.currentSequenceStart st >=? 0) then
    let? b := beatSequence data (Scan.currentSequenceStart st) endIndex in
    Ok (Scan.sequences st ++ [b])
  else Ok (Scan.sequences st).

Definition beatStep (data : list StockData.t) (minConsecutiveIntervals : Z)
    (i : Z) (st : Scan.t) : Exc Scan.t :=
  let? currentPrice := field data.[i] StockData.price in
  let? previousPrice := field data.[i - 1] StockData.price in
  (* only the sign of [slope] is used, and the rounded difference of two
     doubles has the sign of the exact one ([sub_sign]) *)
  let slope := (currentPrice - previousPrice)%Q in
  if gtb slope 0 then
    Ok (Scan.mk (Scan.sequences st)
          (if Scan.consecutivePositiveCount st =? 0
           then i - 1 else Scan.currentSequenceStart st)
          (Scan.consecutivePositiveCount st + 1))
  else
    let? sequences := flushRun data minConsecutiveIntervals st (i - 1) in
    Ok (Scan.mk sequences (-1) 0).

(** [minConsecutiveIntervals] defaults to 4. *)
Definition detectBeatSequences (data : list StockData.t)
    (minConsecutiveIntervals : Z) : Exc (list BeatSequence.t) :=
  if length data <? minConsecutiveIntervals + 1 then Ok [] else
  let? st := forRange 1 (length data) (beatStep data minConsecutiveIntervals)
               (Scan.mk [] (-1) 0) in
  flushRun data minConsecutiveIntervals st (length data - 1).

Module PotentialProfitSequence.
Record t : Type := mk {
  id : string;
  originalSequence : BeatSequence.t;
  startIndex : Z;
  endIndex : Z;
  startTime : Z;
  endTime : Z;
  startPrice : number;
  endPrice : number;
  dollarGain : number;
  percentageChange : number;
  dataPoints : list StockData.t;
  excludedBeats : Z
}.
End PotentialProfitSequence.

Definition calculatePotentialProfitSequences (beatSequences : list BeatSequence.t)
  : Exc (list PotentialProfitSequence.t) :=
  forEach beatSequences (fun sequence potentialProfitSequences =>
    if length (BeatSequence.dataPoints sequence) <? 3 then Ok potentialProfitSequences
    else
    let trimmedDataPoints := slice (BeatSequence.dataPoints sequence) 1 (-1) in
    if length trimmedDataPoints =? 0 then Ok potentialProfitSequences else
    let startData := trimmedDataPoints.[0] in
    let endData := trimmedDataPoints.[length trimmedDataPoints - 1] in
    let? endPrice := field endData StockData.price in
    let? startPrice := field startData StockData.price in
    let dollarGain := sub endPrice startPrice in
    let percentageChange := mul (div dollarGain startPrice) 100 in
    let? startTime := field startData StockData.timestamp in
    let? endTime := field endData StockData.timestamp in
    Ok (potentialProfitSequences ++
        [PotentialProfitSequence.mk
           ("potential-" ++ BeatSequence.id sequence)
           sequence
           (BeatSequence.startIndex sequence + 1)
           (BeatSequence.endIndex sequence - 1)
           startTime endTime startPrice endPrice
           (roundTo 2 dollarGain) (roundTo 2 percentageChange)
           trimmedDataPoints 2])) [].

Module PotentialLossSequence.
Record t : Type := mk {
  id : string;
  beforeReversalIndex : Z;
  reversalIndex : Z;
  afterReversalIndex : Z;
  beforeReversalTime : Z;
  reversalTime : Z;
  afterReversalTime : Z;
  beforeReversalPrice : number;
  reversalPrice : number;
  afterReversalPrice : number;
  dollarLoss : number;
  percentageChange : number;
  dataPoints : list StockData.t;
  (* legacy properties *)
  upIndex : Z;
  downIndex : Z;
  upTime : Z;
  downTime : Z;
  upPrice : number;
  downPrice : number
}.
End PotentialLossSequence.

Definition detectPotentialLossSequences (data : list StockData.t)
  : Exc (list PotentialLossSequence.t) :=
  if length data <? 4 then Ok [] else
  forRange 2 (length data - 1) (fun i lossSequences =>
    let? beforeBeforePrice := field data.[i - 2] StockData.price in
    let? beforePrice := field data.[i - 1] StockData.price in
    let? currentPrice := field data.[i] StockData.price in
    let? nextPrice := field data.[i + 1] StockData.price in
    let isDownBeforeReversal := ltb beforePrice beforeBeforePrice in
    let isUpwardReversal := gtb currentPrice beforePrice in
    let isDownAfterReversal := ltb nextPrice currentPrice in
    if isDownBeforeReversal && isUpwardReversal && isDownAfterReversal then
      let dollarLoss := sub currentPrice nextPrice in
      let percentageChange := mul (div dollarLoss currentPrice) 100 in
      let? beforeTime := field data.[i - 1] StockData.timestamp in
      let? reversalTime := field data.[i] StockData.timestamp in
      let? afterTime := field data.[i + 1] StockData.timestamp in
      (* the four samples exist here, their prices having been read *)
      let? points :=
        match data.[i - 2], data.[i - 1], data.[i], data.[i + 1] with
        | Some a, Some b, Some c, Some d => Ok [a; b; c; d]
        | _, _, _, _ => TypeError
        end in
      Ok (lossSequences ++
          [PotentialLossSequence.mk
             ("loss-" ++ showInt (i - 1) ++ "-" ++ showInt i ++ "-" ++ showInt (i + 1))
             (i - 1) i (i + 1)
             beforeTime reversalTime afterTime
             beforePrice currentPrice nextPrice
             (roundTo 2 dollarLoss) (roundTo 2 percentageChange)
             points
             i (i + 1) reversalTime afterTime currentPrice nextPrice])
    else Ok lossSequences) [].

(** ** Sample inputs *)

Definition sample (timestamp : Z) (price : number) : StockData.t :=
  StockData.mk timestamp price 0 None None None None.

(** A series with the given prices, one sample a minute. *)
Definition series (prices : list number) : list StockData.t :=
  map (fun tp => sample (60000 * Z.of_nat (fst tp)) (snd tp))
      (combine (seq 0 (List.length prices)) prices).

(** ** Predicates and sample values used in the statements *)

(** The point is neither the first nor the last sample of the series. *)
Definition interior (data : list StockData.t) (p : DirectionChangePoint.t) : Prop :=
  1 <= DirectionChangePoint.index p <= length data - 2.

(** The price rises from sample [k] to sample [k + 1]. *)
Definition risesAt (data : list StockData.t) (k : Z) : Prop :=
  exists a b, data.[k] = Some a /\ data.[k + 1] = Some b
              /\ (StockData.price a < StockData.price b)%Q.

(** The price does not rise after sample [k], if a sample follows. *)
Definition stopsAt (data : list StockData.t) (k : Z) : Prop :=
  forall a b, data.[k] = Some a -> data.[k + 1] = Some b ->
              (StockData.price b <= StockData.price a)%Q.

(** What holds of a sequence that the scan has pushed. *)
Definition emitted (data : list StockData.t) (b : BeatSequence.t) : Prop :=
  beatSequence data (BeatSequence.startIndex b) (BeatSequence.endIndex b) = Ok b
  /\ 0 <= BeatSequence.startIndex b < BeatSequence.endIndex b
  /\ BeatSequence.endIndex b < length data
  /\ (forall k, BeatSequence.startIndex b <= k < BeatSequence.endIndex b ->
                risesAt data k)
  /\ stopsAt data (BeatSequence.endIndex b).

(** The invariant of the scan before it looks at sample [i]: the run that is
    counted ends at [i - 1]. *)
Definition scanning (data : list StockData.t) (i : Z) (st : Scan.t) : Prop :=
  (forall b, In b (Scan.sequences st) -> emitted data b)
  /\ 0 <= Scan.consecutivePositiveCount st
  /\ (Scan.consecutivePositiveCount st = 0 -> Scan.currentSequenceStart st = -1)
  /\ (0 < Scan.consecutivePositiveCount st ->
      Scan.currentSequenceStart st = i - 1 - Scan.consecutivePositiveCount st
      /\ 0 <= Scan.currentSequenceStart st
      /\ forall k, Scan.currentSequenceStart st <= k < i - 1 -> risesAt data k).

(** [(gain / startPrice) * 100] for the gain [endPrice - startPrice], in
    the arithmetic of the program. *)
Definition percentageOfGain (startPrice endPrice : number) : number :=
  mul (div (sub endPrice startPrice) startPrice) 100.

(** [v] is [x] rounded to [d] decimals: [v] is the double nearest to a
    multiple [t] of [10 ^ - d], no multiple is nearer to [x] than [t], and
    where two are as near, [t] is the one away from zero. *)
Definition roundedTo (d : nat) (x v : number) : Prop :=
  exists n : Z,
    let t := (inject_Z n / inject_Z (10 ^ Z.of_nat d))%Q in
    let half := (1 / inject_Z (2 * 10 ^ Z.of_nat d))%Q in
    v = double t
    /\ (Qabs (t - x) <= half)%Q
    /\ ((Qabs (t - x) == half)%Q -> (Qabs x <= Qabs t)%Q).

(** The series of scenario A. *)
Definition scenarioA : list StockData.t := series [10; 11; 12; 13; 9]%Q.

(** [Math.random()] returning 0.1 and then 0.9. *)
Definition downThenUp : Random :=
  fun n => match n with O => 0.1%Q | _ => 0.9%Q end.

(** [Math.random()] returning 0.9 at every call. *)
Definition alwaysUp : Random := fun _ => 0.9%Q.

(** Settings with every overlay rule switched off. *)
Definition plainSettings (method : TradingMethod) : Settings.t :=
  Settings.mk (Some method) None false false None None None false false
    None None None.

(** A position of one share bought at [buyPrice], with the price history
    the store gives a new position. *)
Definition oneShare (buyPrice : number) : Position.t :=
  Position.mk buyPrice 1 0 None None (Some [buyPrice]).

(** The result of a call without the state of [Math.random] it leaves. *)
Definition outcome {A} (r : Exc (A * Random)) : Exc A :=
  let? p := r in Ok (fst p).

(** The overlay takes the decision: the bot holds a position with the
    overlay enabled, and the overlay sells or hands back a position update
    (or throws). *)
Definition overlayIntercepts (bot : TradingBot.t) (data : list StockData.t)
    (currentPrice : number) : bool :=
  Settings.dollarDropEnabled (TradingBot.settings bot)
  && match TradingBot.currentPosition bot with Some _ => true | None => false end
  && match shouldSellWithDollarDrop bot currentPrice data with
     | Ok r =>
         SellResult.shouldSell r
         || match SellResult.updatePosition r with Some _ => true | None => false end
     | TypeError => true
     end.

(** A bot that tracks consecutive falls, holding one share bought at 10,
    with the price-comparison method. *)
Definition trackingBot : TradingBot.t :=
  TradingBot.mk true
    (Settings.mk (Some price_comparison) None true false None None None
       false true None None None)
    (Some (oneShare 10)).

(** A bot whose overlay only takes profit, with the default thresholds,
    holding one share bought at [buyPrice]. *)
Definition profitTakingBot (buyPrice : number) : TradingBot.t :=
  TradingBot.mk true
    (Settings.mk (Some trend_reversal) None true true None None None
       false false None None None)
    (Some (oneShare buyPrice)).

(** An active bot without position that uses the confirmed-recovery
    method. *)
Definition recoveryBot : TradingBot.t :=
  TradingBot.mk true (plainSettings confirmed_recovery) None.

(** ** Predicates on direction-change points *)

(** Sample [i] lies strictly below both its neighbours. *)
Definition localMin (data : list StockData.t) (i : Z) : Prop :=
  exists a b c,
    data.[i - 1] = Some a /\ data.[i] = Some b /\ data.[i + 1] = Some c
    /\ (StockData.price b < StockData.price a)%Q
    /\ (StockData.price b < StockData.price c)%Q.

(** Sample [i] lies strictly above both its neighbours. *)
Definition localMax (data : list StockData.t) (i : Z) : Prop :=
  exists a b c,
    data.[i - 1] = Some a /\ data.[i] = Some b /\ data.[i + 1] = Some c
    /\ (StockData.price a < StockData.price b)%Q
    /\ (StockData.price c < StockData.price b)%Q.

(** The point carries the price and the time of the sample at its index,
    and that sample is an extremum of the kind the point says. *)
Definition pointOf (data : list StockData.t) (p : DirectionChangePoint.t) : Prop :=
  exists b,
    data.[DirectionChangePoint.index p] = Some b
    /\ DirectionChangePoint.price p = StockData.price b
    /\ DirectionChangePoint.timestamp p = StockData.timestamp b
    /\ match DirectionChangePoint.type p with
       | valley => localMin data (DirectionChangePoint.index p)
       | peak => localMax data (DirectionChangePoint.index p)
       end.

(** The points come in the order of their indices, each index once. *)
Definition ascending (points : list DirectionChangePoint.t) : Prop :=
  StronglySorted
    (fun p q => DirectionChangePoint.index p < DirectionChangePoint.index q)
    points.

(** The invariant of the scan for direction changes before it looks at
    sample [i]. *)
Definition directionScan (data : list StockData.t) (i : Z)
    (points : list DirectionChangePoint.t) : Prop :=
  (forall p, In p points -> DirectionChangePoint.index p < i /\ pointOf data p)
  /\ (forall j, j < i -> localMin data j ->
        exists p, In p points /\ DirectionChangePoint.index p = j
                  /\ DirectionChangePoint.type p = valley)
  /\ (forall j, j < i -> localMax data j ->
        exists p, In p points /\ DirectionChangePoint.index p = j
                  /\ DirectionChangePoint.type p = peak)
  /\ ascending points.

(** ** Values read off a call of the dispatcher *)

(** The action of the decision a call returns. *)
Definition actionOf (r : Exc (Decision.t * Random)) : Exc Action :=
  let? p := r in Ok (Decision.action (fst p)).

(** The bot with another trading method, everything else unchanged. *)
Definition withMethod (bot : TradingBot.t) (method : TradingMethod) : TradingBot.t :=
  let s := TradingBot.settings bot in
  TradingBot.mk (TradingBot.isActive bot)
    (Settings.mk (Some method)
       (Settings.dollarDropThreshold s) (Settings.dollarDropEnabled s)
       (Settings.profitTakingEnabled s) (Settings.profitTakingPercentage s)
       (Settings.profitTakingDollarAmount s) (Settings.dollarDropTriggerAmount s)
       (Settings.sellAtBuyPriceEnabled s) (Settings.consecutiveFallsEnabled s)
       (Settings.consecutiveFallsCount s) (Settings.confirmedRecoveryFirstDelay s)
       (Settings.confirmedRecoverySecondDelay s))
    (TradingBot.currentPosition bot).

(** ** Predicates on the price history of a position *)

(** The history strictly falls from element [j] to element [j + 1]. *)
Definition fallsAt (h : list number) (j : Z) : Prop :=
  exists x y, h.[j] = Some x /\ h.[j + 1] = Some y /\ (y < x)%Q.

(** The history the consecutive-falls rule starts from: the one stored on
    the position, or the buy price alone. *)
Definition storedHistory (position : Position.t) : list number :=
  match Position.priceHistory position with
  | Some h => h
  | None => [Position.buyPrice position]
  end.

(** ** Share sizing *)

Inductive InvestmentType : Type := dollars | shares.

Definition calculateSharesToBuy (maxInvestment : number)
    (investmentType : InvestmentType) (currentPrice availableCash : number)
  : number :=
  match investmentType with
  | shares =>
      let maxAffordableShares := Math_floor (div availableCash currentPrice) in
      Math_min maxInvestment maxAffordableShares
  | dollars =>
      let investmentAmount := Math_min maxInvestment availableCash in
      Math_floor (div investmentAmount currentPrice)
  end.

(** ** Predicates on rising runs *)

(** The samples from [s] to [e] are a rising run that can be extended on
    neither side: the price rises on every interval between them, does not
    rise into [s] and does not rise after [e]. *)
Definition maximalRun (data : list StockData.t) (s e : Z) : Prop :=
  0 <= s < e /\ e < length data
  /\ (forall k, s <= k < e -> risesAt data k)
  /\ stopsAt data (s - 1)
  /\ stopsAt data e.

(** The sequences come in the order of the series and do not overlap. *)
Definition apart (sequences : list BeatSequence.t) : Prop :=
  StronglySorted
    (fun b c => BeatSequence.endIndex b < BeatSequence.startIndex c)
    sequences.

(** What the scan has reported when every run that ends before sample
    [bound] has been dealt with. *)
Definition reported (data : list StockData.t) (minConsecutiveIntervals : Z)
    (bound : Z) (sequences : list BeatSequence.t) : Prop :=
  (forall b, In b sequences ->
     BeatSequence.endIndex b < bound
     /\ minConsecutiveIntervals
        <= BeatSequence.endIndex b - BeatSequence.startIndex b
     /\ stopsAt data (BeatSequence.startIndex b - 1))
  /\ apart sequences
  /\ (forall s e, maximalRun data s e -> minConsecutiveIntervals <= e - s ->
        e < bound ->
        exists b, In b sequences /\ BeatSequence.startIndex b = s
                  /\ BeatSequence.endIndex b = e).

(** The full invariant of the scan before it looks at sample [i]. *)
Definition tracking (data : list StockData.t) (minConsecutiveIntervals : Z)
    (i : Z) (st : Scan.t) : Prop :=
  scanning data i st
  /\ reported data minConsecutiveIntervals
       (i - 1 - Scan.consecutivePositiveCount st) (Scan.sequences st)
  /\ (Scan.consecutivePositiveCount st = 0 -> stopsAt data (i - 2))
  /\ (0 < Scan.consecutivePositiveCount st ->
      stopsAt data (Scan.currentSequenceStart st - 1)).

(** ** Predicates on potential-profit sequences *)

(** [p] is the beat sequence [b] without its first and its last sample. *)
Definition trimmedFrom (b : BeatSequence.t) (p : PotentialProfitSequence.t)
  : Prop :=
  PotentialProfitSequence.originalSequence p = b
  /\ 3 <= length (BeatSequence.dataPoints b)
  /\ PotentialProfitSequence.dataPoints p
     = slice (BeatSequence.dataPoints b) 1 (-1)
  /\ PotentialProfitSequence.startIndex p = BeatSequence.startIndex b + 1
  /\ PotentialProfitSequence.endIndex p = BeatSequence.endIndex b - 1
  /\ PotentialProfitSequence.excludedBeats p = 2
  /\ exists first last,
       (BeatSequence.dataPoints b).[1] = Some first
       /\ (BeatSequence.dataPoints b).[length (BeatSequence.dataPoints b) - 2]
          = Some last
       /\ PotentialProfitSequence.startPrice p = StockData.price first
       /\ PotentialProfitSequence.endPrice p = StockData.price last
       /\ PotentialProfitSequence.startTime p = StockData.timestamp first
       /\ PotentialProfitSequence.endTime p = StockData.timestamp last
       /\ PotentialProfitSequence.dollarGain p
          = roundTo 2 (sub (StockData.price last) (StockData.price first)).

(** ** Predicates on potential-loss sequences *)

(** The price falls into sample [i - 1], rises into sample [i] and falls
    into sample [i + 1]. *)
Definition downUpDown (data : list StockData.t) (i : Z) : Prop :=
  exists a b c d,
    data.[i - 2] = Some a /\ data.[i - 1] = Some b
    /\ data.[i] = Some c /\ data.[i + 1] = Some d
    /\ (StockData.price b < StockData.price a)%Q
    /\ (StockData.price b < StockData.price c)%Q
    /\ (StockData.price d < StockData.price c)%Q.

(** The sequence that the scan pushes for the pattern around sample [i]. *)
Definition lossOf (i : Z) (a b c d : StockData.t) : PotentialLossSequence.t :=
  PotentialLossSequence.mk
    ("loss-" ++ showInt (i - 1) ++ "-" ++ showInt i ++ "-" ++ showInt (i + 1))
    (i - 1) i (i + 1)
    (StockData.timestamp b) (StockData.timestamp c) (StockData.timestamp d)
    (StockData.price b) (StockData.price c) (StockData.price d)
    (roundTo 2 (sub (StockData.price c) (StockData.price d)))
    (roundTo 2 (mul (div (sub (StockData.price c) (StockData.price d))
                         (StockData.price c)) 100))
    [a; b; c; d]
    i (i + 1) (StockData.timestamp c) (StockData.timestamp d)
    (StockData.price c) (StockData.price d).

(** [l] records a pattern of the series around its reversal index. *)
Definition lossAt (data : list StockData.t) (l : PotentialLossSequence.t) : Prop :=
  exists a b c d,
    data.[PotentialLossSequence.reversalIndex l - 2] = Some a
    /\ data.[PotentialLossSequence.reversalIndex l - 1] = Some b
    /\ data.[PotentialLossSequence.reversalIndex l] = Some c
    /\ data.[PotentialLossSequence.reversalIndex l + 1] = Some d
    /\ (StockData.price b < StockData.price a)%Q
    /\ (StockData.price b < StockData.price c)%Q
    /\ (StockData.price d < StockData.price c)%Q
    /\ l = lossOf (PotentialLossSequence.reversalIndex l) a b c d.

(** The invariant of the scan for potential losses before it looks at
    sample [i]. *)
Definition lossScan (data : list StockData.t) (i : Z)
    (sequences : list PotentialLossSequence.t) : Prop :=
  (forall l, In l sequences ->
     PotentialLossSequence.reversalIndex l < i /\ lossAt data l)
  /\ (forall j, j < i -> downUpDown data j ->
        exists l, In l sequences /\ PotentialLossSequence.reversalIndex l = j)
  /\ StronglySorted
       (fun l m => PotentialLossSequence.reversalIndex l
                   < PotentialLossSequence.reversalIndex m)
       sequences.

(** * Properties *)

(** ** Scenarios of the specification, evaluated *)

(** Scenario B: [10, 9, 11, 8] has one potential-loss sequence, with the
    reversal at index 2. *)
Example scenario_B_down_up_down :
  exists l,
    detectPotentialLossSequences (series [10; 9; 11; 8]%Q) = Ok [l]
    /\ PotentialLossSequence.beforeReversalIndex l = 1
    /\ PotentialLossSequence.beforeReversalPrice l = 9%Q
    /\ PotentialLossSequence.reversalIndex l = 2
    /\ PotentialLossSequence.reversalPrice l = 11%Q
    /\ PotentialLossSequence.afterReversalIndex l = 3
    /\ PotentialLossSequence.afterReversalPrice l = 8%Q
    /\ PotentialLossSequence.dollarLoss l = 3%Q
    /\ PotentialLossSequence.id l = "loss-1-2-3"%string.
Proof.
  eexists. split; [vm_compute; reflexivity |]. repeat split.
Qed.

(** Scenario C: the price-comparison method buys on [..., 10, 10.5]. *)
Example scenario_C_price_comparison_buys :
  outcome (makeTradingDecision
             (TradingBot.mk true (plainSettings price_comparison) None)
             (series [11; 10; 10.5]%Q) 10.5 None alwaysUp)
  = Ok (decision BUY
          [Lit "Current price "; Fixed 2 10.5; Lit " > previous price ";
           Fixed 2 10]).
Proof. reflexivity. Qed.

(** Scenario E: the direction-change-buy method does not buy again on the
    valley at index 5 that it has processed, and buys on a newer valley at
    index 7. *)
Example scenario_E_processed_valley :
  (exists d,
     outcome (makeTradingDecision
                (TradingBot.mk true (plainSettings direction_change_buy) None)
                (series [10; 11; 12; 13; 12; 11; 12]%Q) 12 (Some 5) alwaysUp)
     = Ok d
     /\ Decision.action d = HOLD)
  /\ (exists d p,
        outcome (makeTradingDecision
                   (TradingBot.mk true (plainSettings direction_change_buy) None)
                   (series [10; 11; 12; 13; 12; 11; 12; 11; 12]%Q) 12 (Some 5)
                   alwaysUp)
        = Ok d
        /\ Decision.action d = BUY
        /\ Decision.newDirectionChange d = Some (Some p)
        /\ DirectionChangePoint.index p = 7
        /\ DirectionChangePoint.type p = valley).
Proof.
  split.
  - eexists. split; [vm_compute; reflexivity | reflexivity].
  - eexists. eexists. split; [vm_compute; reflexivity |]. repeat split.
Qed.

(** Rounding to cents: a tie goes away from zero, and it is the double
    that is rounded: 2.675 stands for the double just below it. *)
Example roundTo_cents :
  toFixedUnits 2 (1 # 3) = 33 /\ toFixedUnits 2 0.125 = 13
  /\ toFixedUnits 2 (- 0.125) = -13 /\ toFixedUnits 2 0.001 = 0
  /\ toFixedUnits 2 2.675 = 267
  /\ roundTo 2 0.125 = double 0.13 /\ roundTo 2 2.5 = (5 # 2)%Q.
Proof. vm_compute. repeat split. Qed.

(** ** Doubles

    Rounding to the nearest double keeps the order, fixes the doubles and
    changes a value of the normal range by at most one part in [2 ^ 53]. *)

Lemma pow2_pos (e : Z) : (0 < 2 ^ e)%Q.
Proof. apply Qpower_0_lt. reflexivity. Qed.

Lemma pow2_plus (a b : Z) : (2 ^ (a + b) == 2 ^ a * 2 ^ b)%Q.
Proof. apply Qpower_plus. discriminate. Qed.

Lemma pow2_le (a b : Z) : a <= b -> (2 ^ a <= 2 ^ b)%Q.
Proof. intros H. apply Qpower_le_compat_l; [exact H | discriminate]. Qed.

Lemma pow2_inject (a : Z) : 0 <= a -> (inject_Z (2 ^ a) == 2 ^ a)%Q.
Proof. intros H. now rewrite Zpower_Qpower. Qed.

Lemma nearestEven_cases (m : Q) :
  let f := Qfloor m in
  (nearestEven m = f /\ (m - inject_Z f <= 1 # 2)%Q
   /\ ((m - inject_Z f == 1 # 2)%Q -> Z.even f = true))
  \/ (nearestEven m = f + 1 /\ (1 # 2 <= m - inject_Z f)%Q
      /\ ((m - inject_Z f == 1 # 2)%Q -> Z.even f = false)).
Proof.
  intros f. unfold nearestEven. fold f.
  destruct (m - inject_Z f ?= 1 # 2)%Q eqn:E.
  - apply Qeq_alt in E. destruct (Z.even f) eqn:Ef.
    + left. split; [reflexivity |]. split; [rewrite E; apply Qle_refl | reflexivity].
    + right. split; [reflexivity |]. split; [rewrite E; apply Qle_refl | reflexivity].
  - apply Qlt_alt in E. left. split; [reflexivity |].
    split; [now apply Qlt_le_weak |].
    intros H. rewrite H in E. now apply Qlt_irrefl in E.
  - apply Qgt_alt in E. right. split; [reflexivity |].
    split; [now apply Qlt_le_weak |].
    intros H. rewrite H in E. now apply Qlt_irrefl in E.
Qed.

Lemma nearestEven_monotone (m m' : Q) :
  (m <= m')%Q -> nearestEven m <= nearestEven m'.
Proof.
  intros Hle.
  pose proof (Qfloor_resp_le _ _ Hle) as Hfloor.
  pose proof (Qfloor_le m) as Hlow. pose proof (Qlt_floor m) as Hup.
  pose proof (Qfloor_le m') as Hlow'. pose proof (Qlt_floor m') as Hup'.
  destruct (nearestEven_cases m) as [[-> [Hr He]] | [-> [Hr He]]];
    destruct (nearestEven_cases m') as [[-> [Hr' He']] | [-> [Hr' He']]];
    try lia.
  destruct (Z.eq_dec (Qfloor m) (Qfloor m')) as [Heq | Hne]; [| lia].
  exfalso. rewrite <- Heq in Hr', He'.
  clear Hlow Hup Hlow' Hup' Hfloor Heq.
  set (F := inject_Z (Qfloor m)) in *.
  assert (Hm : (m - F == 1 # 2)%Q) by (apply Qle_antisym; lra).
  assert (Hm' : (m' - F == 1 # 2)%Q) by (apply Qle_antisym; lra).
  rewrite (He Hm) in He'. specialize (He' Hm'). discriminate.
Qed.

Lemma nearestEven_integer (k : Z) : nearestEven (inject_Z k) = k.
Proof.
  unfold nearestEven. rewrite Qfloor_Z.
  assert (E : (inject_Z k - inject_Z k ?= 1 # 2)%Q = Lt)
    by (apply (proj1 (Qlt_alt _ _)); generalize (inject_Z k); intros q; lra).
  now rewrite E.
Qed.

Lemma nearestEven_comp (m m' : Q) : (m == m')%Q -> nearestEven m = nearestEven m'.
Proof.
  intros H. apply Z.le_antisymm; apply nearestEven_monotone; rewrite H; apply Qle_refl.
Qed.

Lemma nearestEven_error (m : Q) :
  (inject_Z (nearestEven m) - (1 # 2) <= m <= inject_Z (nearestEven m) + (1 # 2))%Q.
Proof.
  pose proof (Qfloor_le m) as Hlow. pose proof (Qlt_floor m) as Hup.
  rewrite inject_Z_plus in Hup. change (inject_Z 1) with 1%Q in Hup.
  destruct (nearestEven_cases m) as [[-> [Hr _]] | [-> [Hr _]]].
  - split; lra.
  - rewrite inject_Z_plus. change (inject_Z 1) with 1%Q. split; lra.
Qed.

Lemma ilog2_spec (x : Q) :
  (0 < x)%Q -> (2 ^ ilog2 x <= x /\ x < 2 ^ (ilog2 x + 1))%Q.
Proof.
  intros Hx. unfold ilog2.
  set (k := Z.log2 (Qnum x) - Z.log2 (Z.pos (Qden x))).
  assert (Hn : 0 < Qnum x).
  { destruct x as [n d]. unfold Qlt in Hx. cbn in *. lia. }
  destruct (Z.log2_spec _ Hn) as [Hn1 Hn2].
  destruct (Z.log2_spec (Z.pos (Qden x)) eq_refl) as [Hd1 Hd2].
  pose proof (Z.log2_nonneg (Qnum x)) as Ha.
  pose proof (Z.log2_nonneg (Z.pos (Qden x))) as Hb.
  set (a := Z.log2 (Qnum x)) in *. set (b := Z.log2 (Z.pos (Qden x))) in *.
  rewrite Zle_Qle, pow2_inject in Hn1, Hd1 by lia.
  rewrite Zlt_Qlt, pow2_inject in Hn2, Hd2 by lia.
  replace (Z.succ a) with (a + 1) in Hn2 by lia.
  replace (Z.succ b) with (b + 1) in Hd2 by lia.
  rewrite pow2_plus in Hn2, Hd2. change (2 ^ 1)%Q with 2%Q in Hn2, Hd2.
  assert (Ex : (x == inject_Z (Qnum x) / inject_Z (Z.pos (Qden x)))%Q).
  { destruct x as [n d]. cbn [Qnum Qden]. apply Qmake_Qdiv. }
  pose proof (pow2_pos a) as HA. pose proof (pow2_pos b) as HB.
  assert (Ek : (2 ^ k == 2 ^ a / 2 ^ b)%Q)
    by (unfold k; apply Qpower_minus; discriminate).
  set (N := inject_Z (Qnum x)) in *. set (D := inject_Z (Z.pos (Qden x))) in *.
  set (A := (2 ^ a)%Q) in *. set (B := (2 ^ b)%Q) in *.
  assert (HD : (0 < D)%Q) by lra.
  destruct (Qle_bool (2 ^ k) x) eqn:E.
  - apply Qle_bool_iff in E. split; [exact E |].
    rewrite pow2_plus, Ek, Ex. change (2 ^ 1)%Q with 2%Q.
    apply Qlt_shift_div_r; [exact HD |].
    setoid_replace (A / B * 2 * D)%Q with (2 * A * D / B)%Q by (field; lra).
    apply Qlt_shift_div_l; [exact HB |]. nra.
  - assert (E' : (x < 2 ^ k)%Q).
    { apply Qnot_le_lt. intros H. apply Qle_bool_iff in H. congruence. }
    replace (k - 1 + 1) with k by lia. split; [| exact E'].
    replace (k - 1) with (k + -1) by lia.
    rewrite pow2_plus, Ek, Ex. change (2 ^ (-1))%Q with (1 # 2)%Q.
    apply Qle_shift_div_l; [exact HD |].
    setoid_replace (A / B * (1 # 2) * D)%Q with (A * D / (2 * B))%Q by (field; lra).
    apply Qle_shift_div_r; [lra |]. nra.
Qed.

Lemma ilog2_unique (x : Q) (k : Z) :
  (2 ^ k <= x)%Q -> (x < 2 ^ (k + 1))%Q -> ilog2 x = k.
Proof.
  intros Hlow Hup.
  assert (Hx : (0 < x)%Q) by (pose proof (pow2_pos k); lra).
  destruct (ilog2_spec x Hx) as [Hlow' Hup'].
  assert (H1 : (2 ^ k < 2 ^ (ilog2 x + 1))%Q) by lra.
  assert (H2 : (2 ^ ilog2 x < 2 ^ (k + 1))%Q) by lra.
  apply Qpower_lt_compat_l_inv in H1; [| reflexivity].
  apply Qpower_lt_compat_l_inv in H2; [| reflexivity].
  lia.
Qed.

Lemma ilog2_monotone (x y : Q) : (0 < x)%Q -> (x <= y)%Q -> ilog2 x <= ilog2 y.
Proof.
  intros Hx Hle.
  destruct (ilog2_spec x Hx) as [Hlow _].
  destruct (ilog2_spec y) as [_ Hup]; [lra |].
  assert (H : (2 ^ ilog2 x < 2 ^ (ilog2 y + 1))%Q) by lra.
  apply Qpower_lt_compat_l_inv in H; [lia | reflexivity].
Qed.

Lemma roundPositive_value (x : Q) :
  (roundPositive x == inject_Z (nearestEven (x / 2 ^ exponent x)) * 2 ^ exponent x)%Q.
Proof. unfold roundPositive. apply Qred_correct. Qed.

Lemma scaled_le (x y : Q) (e : Z) : (x <= y)%Q -> (x / 2 ^ e <= y / 2 ^ e)%Q.
Proof.
  intros H. unfold Qdiv. apply Qmult_le_compat_r; [exact H |].
  apply Qinv_le_0_compat, Qlt_le_weak, pow2_pos.
Qed.

Lemma roundPositive_nonneg (x : Q) : (0 <= x)%Q -> (0 <= roundPositive x)%Q.
Proof.
  intros Hx. rewrite roundPositive_value.
  apply Qmult_le_0_compat; [| apply Qlt_le_weak, pow2_pos].
  change 0%Q with (inject_Z 0). rewrite <- Zle_Qle.
  rewrite <- (nearestEven_integer 0). apply nearestEven_monotone.
  apply Qle_shift_div_l; [apply pow2_pos |].
  change (inject_Z 0) with 0%Q. now rewrite Qmult_0_l.
Qed.

(** Below [2 ^ (e + 53)] the scaled value rounds to at most [2 ^ 53], and
    from [2 ^ (e + 52)] on to at least [2 ^ 52]. *)
Lemma nearestEven_below (x : Q) (e k : Z) :
  0 <= k -> (x <= 2 ^ (e + k))%Q -> nearestEven (x / 2 ^ e) <= 2 ^ k.
Proof.
  intros Hk Hx. rewrite <- (nearestEven_integer (2 ^ k)).
  apply nearestEven_monotone. rewrite pow2_inject by exact Hk.
  apply Qle_shift_div_r; [apply pow2_pos |].
  now rewrite <- pow2_plus, Z.add_comm.
Qed.

Lemma nearestEven_above (x : Q) (e k : Z) :
  0 <= k -> (2 ^ (e + k) <= x)%Q -> 2 ^ k <= nearestEven (x / 2 ^ e).
Proof.
  intros Hk Hx. rewrite <- (nearestEven_integer (2 ^ k)) at 1.
  apply nearestEven_monotone. rewrite pow2_inject by exact Hk.
  apply Qle_shift_div_l; [apply pow2_pos |].
  now rewrite <- pow2_plus, Z.add_comm.
Qed.

Lemma roundPositive_monotone (x y : Q) :
  (0 < x)%Q -> (x <= y)%Q -> (roundPositive x <= roundPositive y)%Q.
Proof.
  intros Hx Hle. rewrite !roundPositive_value.
  pose proof (ilog2_monotone x y Hx Hle) as Hlog.
  destruct (ilog2_spec x Hx) as [_ Hup].
  destruct (ilog2_spec y) as [Hlow _]; [lra |].
  destruct (Z.eq_dec (exponent x) (exponent y)) as [Heq | Hne].
  - rewrite Heq. apply Qmult_le_compat_r; [| apply Qlt_le_weak, pow2_pos].
    rewrite <- Zle_Qle. apply nearestEven_monotone. now apply scaled_le.
  - assert (Hx53 : nearestEven (x / 2 ^ exponent x) <= 2 ^ 53).
    { apply nearestEven_below; [lia |].
      apply Qle_trans with (2 ^ (ilog2 x + 1))%Q; [now apply Qlt_le_weak |].
      apply pow2_le. unfold exponent. lia. }
    assert (Hy52 : 2 ^ 52 <= nearestEven (y / 2 ^ exponent y)).
    { apply nearestEven_above; [lia |].
      apply Qle_trans with (2 ^ ilog2 y)%Q; [| exact Hlow].
      apply pow2_le. unfold exponent in *. lia. }
    apply Qle_trans with (inject_Z (2 ^ 53) * 2 ^ exponent x)%Q.
    { apply Qmult_le_compat_r; [| apply Qlt_le_weak, pow2_pos].
      now rewrite <- Zle_Qle. }
    apply Qle_trans with (inject_Z (2 ^ 52) * 2 ^ exponent y)%Q.
    { rewrite !pow2_inject, <- !pow2_plus by lia.
      apply pow2_le. unfold exponent in *. lia. }
    apply Qmult_le_compat_r; [| apply Qlt_le_weak, pow2_pos].
    now rewrite <- Zle_Qle.
Qed.

Lemma zero_div (x q : Q) : (x == 0)%Q -> (x / q == 0)%Q.
Proof. intros H. unfold Qdiv. rewrite H. apply Qmult_0_l. Qed.

Lemma roundPositive_zero (x : Q) : (x == 0)%Q -> roundPositive x = 0%Q.
Proof.
  intros Hx. unfold roundPositive.
  rewrite (nearestEven_comp _ (inject_Z 0)), nearestEven_integer.
  - apply (Qred_complete _ 0). ring.
  - now apply zero_div.
Qed.

Lemma double_nonneg (x : Q) : (0 <= x)%Q -> (0 <= double x)%Q.
Proof.
  intros Hx. unfold double.
  apply Qle_bool_iff in Hx. rewrite Hx. apply roundPositive_nonneg.
  now apply Qle_bool_iff.
Qed.

Lemma double_nonpos (x : Q) : (x <= 0)%Q -> (double x <= 0)%Q.
Proof.
  intros Hx. unfold double. destruct (Qle_bool 0 x) eqn:E.
  - apply Qle_bool_iff in E. rewrite roundPositive_zero; [apply Qle_refl |].
    now apply Qle_antisym.
  - rewrite Qred_correct.
    assert (H : (0 <= roundPositive (- x))%Q) by (apply roundPositive_nonneg; lra).
    lra.
Qed.

(** Rounding keeps the order. *)
Lemma double_monotone (x y : Q) : (x <= y)%Q -> (double x <= double y)%Q.
Proof.
  intros Hle.
  destruct (Qlt_le_dec 0 x) as [Hx | Hx].
  - unfold double.
    assert (Hx' : Qle_bool 0 x = true) by (apply Qle_bool_iff; lra).
    assert (Hy' : Qle_bool 0 y = true) by (apply Qle_bool_iff; lra).
    rewrite Hx', Hy'. now apply roundPositive_monotone.
  - destruct (Qlt_le_dec y 0) as [Hy | Hy].
    + unfold double.
      assert (Hx' : Qle_bool 0 x = false).
      { destruct (Qle_bool 0 x) eqn:E; [| reflexivity].
        apply Qle_bool_iff in E. lra. }
      assert (Hy' : Qle_bool 0 y = false).
      { destruct (Qle_bool 0 y) eqn:E; [| reflexivity].
        apply Qle_bool_iff in E. lra. }
      rewrite Hx', Hy', !Qred_correct.
      assert (H : (roundPositive (- y) <= roundPositive (- x))%Q)
        by (apply roundPositive_monotone; lra).
      lra.
    + apply Qle_trans with 0%Q; [now apply double_nonpos | now apply double_nonneg].
Qed.

Lemma double_reduced (x : Q) : Qred (double x) = double x.
Proof.
  unfold double, roundPositive. destruct (Qle_bool 0 x);
    apply Qred_complete, Qred_correct.
Qed.

(** Equal rationals round to the same double. *)
Lemma double_comp (x y : Q) : (x == y)%Q -> double x = double y.
Proof.
  intros H. rewrite <- (double_reduced x), <- (double_reduced y).
  apply Qred_complete.
  apply Qle_antisym; apply double_monotone; rewrite H; apply Qle_refl.
Qed.

Lemma double_0 : double 0 = 0%Q.
Proof. reflexivity. Qed.

Lemma double_positive (x : Q) : (0 < double x)%Q -> (0 < x)%Q.
Proof.
  intros H. apply Qnot_le_lt. intros Hx.
  apply double_nonpos in Hx. lra.
Qed.

Lemma double_lt (x y : Q) : (double x < double y)%Q -> (x < y)%Q.
Proof.
  intros H. apply Qnot_le_lt. intros Hle.
  apply double_monotone in Hle. lra.
Qed.

(** A value [m * 2 ^ e] with a mantissa of at most 53 bits and an exponent
    in range is a double. *)
Lemma roundPositive_fixed (m e : Z) :
  0 <= m <= 2 ^ 53 -> -1074 <= e ->
  (roundPositive (inject_Z m * 2 ^ e) == inject_Z m * 2 ^ e)%Q.
Proof.
  intros Hm He.
  destruct (Z.eq_dec m 0) as [-> | Hpos].
  { rewrite roundPositive_zero; [ring | ring]. }
  set (x := (inject_Z m * 2 ^ e)%Q).
  destruct (Z.log2_spec m) as [Hlow Hup]; [lia |].
  pose proof (Z.log2_nonneg m) as Hj. set (j := Z.log2 m) in *.
  assert (Hlog : ilog2 x = j + e).
  { apply ilog2_unique; unfold x.
    - rewrite Z.add_comm, pow2_plus, Qmult_comm.
      apply Qmult_le_compat_r; [| apply Qlt_le_weak, pow2_pos].
      rewrite <- pow2_inject by lia. now rewrite <- Zle_Qle.
    - replace (j + e + 1) with (Z.succ j + e) by lia.
      rewrite pow2_plus. apply Qmult_lt_compat_r; [apply pow2_pos |].
      rewrite <- pow2_inject by lia. now rewrite <- Zlt_Qlt. }
  rewrite roundPositive_value. unfold exponent. rewrite Hlog.
  destruct (Z.eq_dec m (2 ^ 53)) as [Htop | Hbelow].
  - assert (Ej : j = 53) by (unfold j; rewrite Htop; reflexivity).
    replace (Z.max (j + e - 52) (-1074)) with (e + 1) by lia.
    rewrite (nearestEven_comp _ (inject_Z (2 ^ 52))).
    + rewrite nearestEven_integer. unfold x. rewrite Htop, pow2_plus.
      change (2 ^ 1)%Q with 2%Q. change (inject_Z (2 ^ 53)) with (inject_Z (2 ^ 52) * 2)%Q.
      ring.
    + unfold x. rewrite Htop, pow2_plus. change (2 ^ 1)%Q with 2%Q.
      change (inject_Z (2 ^ 53)) with (inject_Z (2 ^ 52) * 2)%Q.
      field. pose proof (pow2_pos e). lra.
  - assert (Hj52 : j <= 52).
    { assert (H : 2 ^ j < 2 ^ 53) by lia.
      apply Z.pow_lt_mono_r_iff in H; lia. }
    set (e' := Z.max (j + e - 52) (-1074)).
    assert (He' : -1074 <= e' <= e) by lia.
    clearbody e'.
    assert (Esplit : (2 ^ e == 2 ^ (e - e') * 2 ^ e')%Q).
    { rewrite <- pow2_plus. now replace (e - e' + e') with e by lia. }
    assert (Ex : (x / 2 ^ e' == inject_Z (m * 2 ^ (e - e')))%Q).
    { unfold x. rewrite inject_Z_mult, pow2_inject, Esplit by lia.
      field. pose proof (pow2_pos e'). lra. }
    rewrite (nearestEven_comp _ _ Ex), nearestEven_integer.
    rewrite inject_Z_mult, pow2_inject by lia.
    unfold x. rewrite Esplit. ring.
Qed.

Lemma double_of_nonneg (x : Q) : (0 <= x)%Q -> double x = roundPositive x.
Proof. intros Hx. unfold double. apply Qle_bool_iff in Hx. now rewrite Hx. Qed.

Lemma double_of_neg (x : Q) : (x < 0)%Q -> (double x == - roundPositive (- x))%Q.
Proof.
  intros Hx. unfold double. destruct (Qle_bool 0 x) eqn:E.
  - apply Qle_bool_iff in E. lra.
  - apply Qred_correct.
Qed.

(** Rounding is odd. *)
Lemma double_opp (x : Q) : (double (- x) == - double x)%Q.
Proof.
  destruct (Q_dec 0 x) as [[Hx | Hx] | Hx].
  - rewrite (double_of_neg (- x)) by lra.
    rewrite <- (double_of_nonneg (- - x)) by lra.
    now rewrite (double_comp (- - x) x) by ring.
  - rewrite (double_of_neg x Hx), (double_of_nonneg (- x)) by lra. ring.
  - rewrite (double_comp (- x) 0), (double_comp x 0) by (rewrite <- Hx; ring).
    reflexivity.
Qed.

(** The mantissa of a rounded value has at most 53 bits. *)
Lemma mantissa_range (x : Q) :
  (0 <= x)%Q -> 0 <= nearestEven (x / 2 ^ exponent x) <= 2 ^ 53.
Proof.
  intros Hx. split.
  - rewrite <- (nearestEven_integer 0) at 1. apply nearestEven_monotone.
    apply Qle_shift_div_l; [apply pow2_pos |].
    change (inject_Z 0) with 0%Q. now rewrite Qmult_0_l.
  - apply nearestEven_below; [lia |].
    apply Qle_lteq in Hx. destruct Hx as [Hx | Hx].
    + destruct (ilog2_spec x Hx) as [_ Hup].
      apply Qle_trans with (2 ^ (ilog2 x + 1))%Q; [now apply Qlt_le_weak |].
      apply pow2_le. unfold exponent. lia.
    + apply Qle_trans with 0%Q; [| apply Qlt_le_weak, pow2_pos].
      apply Qle_lteq. right. now symmetry.
Qed.

(** What rounding returns is a double: rounding it again changes
    nothing. *)
Lemma double_idempotent (x : Q) : double (double x) = double x.
Proof.
  assert (Hpos : forall y, (0 <= y)%Q -> (double (double y) == double y)%Q).
  { intros y Hy. rewrite (double_of_nonneg y Hy) at 2.
    rewrite roundPositive_value.
    rewrite (double_comp (double y)
               (inject_Z (nearestEven (y / 2 ^ exponent y)) * 2 ^ exponent y)).
    - pose proof (mantissa_range y Hy) as Hm.
      rewrite double_of_nonneg.
      + apply roundPositive_fixed; [exact Hm | unfold exponent; lia].
      + apply Qmult_le_0_compat; [| apply Qlt_le_weak, pow2_pos].
        change 0%Q with (inject_Z 0). rewrite <- Zle_Qle. lia.
    - rewrite (double_of_nonneg y Hy). apply roundPositive_value. }
  transitivity (Qred (double (double x))); [symmetry; apply double_reduced |].
  transitivity (Qred (double x)); [| apply double_reduced].
  apply Qred_complete.
  destruct (Qlt_le_dec x 0) as [Hx | Hx]; [| now apply Hpos].
  assert (Ex : double x = double (- - x)) by (apply double_comp; ring).
  rewrite Ex.
  rewrite (double_comp (double (- - x)) (- double (- x)))
    by exact (double_opp (- x)).
  rewrite (double_opp (double (- x))), (Hpos (- x)%Q) by lra.
  symmetry. exact (double_opp (- x)).
Qed.

(** Rounding a value of the normal range changes it by at most one part
    in [2 ^ 53]. *)
Lemma double_error (x : Q) :
  (2 ^ (-1022) <= x)%Q ->
  (x * (1 - 2 ^ (-53)) <= double x <= x * (1 + 2 ^ (-53)))%Q.
Proof.
  intros Hx.
  assert (Hpos : (0 < x)%Q) by (pose proof (pow2_pos (-1022)); lra).
  rewrite double_of_nonneg, roundPositive_value by lra.
  destruct (ilog2_spec x Hpos) as [Hlow Hup].
  assert (Hlog : -1022 <= ilog2 x).
  { assert (H : (2 ^ (-1022) < 2 ^ (ilog2 x + 1))%Q) by lra.
    apply Qpower_lt_compat_l_inv in H; [lia | reflexivity]. }
  assert (Ee : exponent x = ilog2 x - 52) by (unfold exponent; lia).
  rewrite Ee. set (e := ilog2 x - 52).
  pose proof (nearestEven_error (x / 2 ^ e)) as [Hm1 Hm2].
  set (m := inject_Z (nearestEven (x / 2 ^ e))) in *.
  pose proof (pow2_pos e) as He.
  assert (Ex : (x == x / 2 ^ e * 2 ^ e)%Q) by (field; lra).
  assert (Hhalf : (2 ^ e * (1 # 2) <= x * 2 ^ (-53))%Q).
  { apply Qle_trans with (2 ^ ilog2 x * 2 ^ (-53))%Q.
    - rewrite <- pow2_plus. replace (ilog2 x + -53) with (e + -1) by (unfold e; lia).
      rewrite pow2_plus. apply Qle_refl.
    - apply Qmult_le_compat_r; [exact Hlow | apply Qlt_le_weak, pow2_pos]. }
  set (s := (x / 2 ^ e)%Q) in *. set (u := (2 ^ (-53))%Q) in *.
  set (p := (2 ^ e)%Q) in *. clearbody s u p m.
  split.
  - setoid_replace (x * (1 - u))%Q with (x - x * u)%Q by ring.
    apply Qle_trans with (x - p * (1 # 2))%Q; [lra |].
    nra.
  - setoid_replace (x * (1 + u))%Q with (x + x * u)%Q by ring.
    apply Qle_trans with (x + p * (1 # 2))%Q; [| lra].
    nra.
Qed.

(** A double is a whole multiple of [2 ^ -1074], the smallest positive
    double. *)
Lemma double_grid (x : Q) :
  exists k : Z, (double x == inject_Z k * 2 ^ (-1074))%Q.
Proof.
  assert (Hpos : forall y, (0 <= y)%Q ->
            exists k : Z, (double y == inject_Z k * 2 ^ (-1074))%Q).
  { intros y Hy.
    assert (He : 0 <= exponent y + 1074) by (unfold exponent; lia).
    exists (nearestEven (y / 2 ^ exponent y) * 2 ^ (exponent y + 1074)).
    rewrite (double_of_nonneg y Hy), roundPositive_value.
    rewrite inject_Z_mult, pow2_inject by exact He.
    rewrite <- Qmult_assoc, <- pow2_plus.
    now replace (exponent y + 1074 + -1074) with (exponent y) by lia. }
  destruct (Qlt_le_dec x 0) as [Hx | Hx]; [| now apply Hpos].
  destruct (Hpos (- x)%Q) as [k Hk]; [lra |].
  exists (- k). rewrite inject_Z_opp.
  rewrite (double_comp x (- - x)) by ring.
  rewrite (double_opp (- x)), Hk. ring.
Qed.

(** The doubles are the values [m * 2 ^ e] with a mantissa of at most 53
    bits and an exponent of at least -1074. *)
Lemma isDouble_format (x : Q) :
  isDouble x <->
  exists m e : Z,
    Z.abs m <= 2 ^ 53 /\ -1074 <= e /\ (x == inject_Z m * 2 ^ e)%Q.
Proof.
  unfold isDouble. split.
  - intros Hx. destruct (Qlt_le_dec x 0) as [Hneg | Hpos].
    + exists (- nearestEven (- x / 2 ^ exponent (- x))), (exponent (- x)).
      assert (Hm : 0 <= nearestEven (- x / 2 ^ exponent (- x)) <= 2 ^ 53)
        by (apply mantissa_range; lra).
      split; [lia |]. split; [unfold exponent; lia |].
      rewrite <- Hx at 1. rewrite (double_of_neg x Hneg), roundPositive_value.
      rewrite inject_Z_opp. ring.
    + exists (nearestEven (x / 2 ^ exponent x)), (exponent x).
      pose proof (mantissa_range x Hpos) as Hm.
      split; [lia |]. split; [unfold exponent; lia |].
      rewrite <- Hx at 1. rewrite (double_of_nonneg x Hpos).
      apply roundPositive_value.
  - intros [m [e [Hm [He Ex]]]].
    destruct (Z.le_gt_cases 0 m) as [Hpos | Hneg].
    + rewrite (double_comp x (inject_Z m * 2 ^ e)) by exact Ex.
      rewrite double_of_nonneg.
      * rewrite Ex. apply roundPositive_fixed; lia.
      * apply Qmult_le_0_compat; [| apply Qlt_le_weak, pow2_pos].
        change 0%Q with (inject_Z 0). now rewrite <- Zle_Qle.
    + rewrite (double_comp x (- (inject_Z (- m) * 2 ^ e)))
        by (rewrite Ex, inject_Z_opp; ring).
      rewrite double_opp, double_of_nonneg.
      * rewrite roundPositive_fixed by lia. rewrite Ex, inject_Z_opp. ring.
      * apply Qmult_le_0_compat; [| apply Qlt_le_weak, pow2_pos].
        change 0%Q with (inject_Z 0). rewrite <- Zle_Qle. lia.
Qed.

(** An integer nearest to [s] is as near to [s] as any integer. *)
Lemma nearestEven_nearest (s : Q) (k : Z) :
  (Qabs (inject_Z (nearestEven s) - s) <= Qabs (inject_Z k - s))%Q.
Proof.
  destruct (nearestEven_error s) as [Hlow Hup].
  destruct (Z.eq_dec k (nearestEven s)) as [-> | Hne]; [apply Qle_refl |].
  apply Qle_trans with (1 # 2)%Q.
  - apply Qabs_Qle_condition. split; lra.
  - assert (Hfar : k + 1 <= nearestEven s \/ nearestEven s + 1 <= k) by lia.
    destruct Hfar as [Hfar | Hfar]; rewrite Zle_Qle in Hfar.
    + rewrite inject_Z_plus in Hfar. change (inject_Z 1) with 1%Q in Hfar.
      rewrite Qabs_neg by lra. lra.
    + rewrite inject_Z_plus in Hfar. change (inject_Z 1) with 1%Q in Hfar.
      rewrite Qabs_pos by lra. lra.
Qed.

(** Rounding picks a nearest double: no double is nearer to [x] than
    [double x]. *)
Lemma roundPositive_nearest (x d : Q) :
  (0 < x)%Q -> isDouble d ->
  (Qabs (roundPositive x - x) <= Qabs (d - x))%Q.
Proof.
  intros Hx Hd. apply isDouble_format in Hd.
  destruct Hd as [m [ed [Hm [Hed Ed]]]].
  rewrite roundPositive_value.
  set (e := exponent x). pose proof (pow2_pos e) as He.
  assert (Escale : forall y, (y - x == (y / 2 ^ e - x / 2 ^ e) * 2 ^ e)%Q)
    by (intros y; field; lra).
  assert (Hint : forall k : Z,
            (Qabs (inject_Z (nearestEven (x / 2 ^ e)) * 2 ^ e - x)
             <= Qabs (inject_Z k * 2 ^ e - x))%Q).
  { intros k. rewrite (Escale (inject_Z (nearestEven (x / 2 ^ e)) * 2 ^ e)%Q),
      (Escale (inject_Z k * 2 ^ e)%Q), !Qabs_Qmult.
    apply Qmult_le_compat_r; [| apply Qabs_nonneg].
    setoid_replace (inject_Z (nearestEven (x / 2 ^ e)) * 2 ^ e / 2 ^ e)%Q
      with (inject_Z (nearestEven (x / 2 ^ e))) by (field; lra).
    setoid_replace (inject_Z k * 2 ^ e / 2 ^ e)%Q with (inject_Z k)
      by (field; lra).
    apply nearestEven_nearest. }
  destruct (Z.le_gt_cases e ed) as [Hgrid | Hfine].
  - (* [d] is a multiple of [2 ^ e] *)
    assert (Ek : (d == inject_Z (m * 2 ^ (ed - e)) * 2 ^ e)%Q).
    { rewrite Ed, inject_Z_mult, pow2_inject by lia.
      rewrite <- Qmult_assoc, <- pow2_plus.
      now replace (ed - e + e) with ed by lia. }
    rewrite Ek. apply Hint.
  - (* [d] lies below the binade of [x], whose lower end is a multiple *)
    assert (Hnormal : e = ilog2 x - 52) by (unfold e, exponent in *; lia).
    destruct (ilog2_spec x Hx) as [Hlow _].
    assert (Hend : (2 ^ (e + 52) <= x)%Q).
    { replace (e + 52) with (ilog2 x) by lia. exact Hlow. }
    assert (Hd : (d <= 2 ^ (e + 52))%Q).
    { rewrite Ed.
      apply Qle_trans with (inject_Z (2 ^ 53) * 2 ^ ed)%Q.
      - apply Qmult_le_compat_r; [| apply Qlt_le_weak, pow2_pos].
        rewrite <- Zle_Qle. lia.
      - rewrite pow2_inject, <- pow2_plus by lia. apply pow2_le. lia. }
    apply Qle_trans with (Qabs (inject_Z (2 ^ 52) * 2 ^ e - x)); [apply Hint |].
    rewrite pow2_inject, <- pow2_plus by lia.
    replace (52 + e) with (e + 52) by lia.
    rewrite !Qabs_neg by lra. lra.
Qed.

Lemma isDouble_opp (d : Q) : isDouble d -> isDouble (- d).
Proof. unfold isDouble. intros H. now rewrite double_opp, H. Qed.

Lemma double_nearest (x d : Q) :
  isDouble d -> (Qabs (double x - x) <= Qabs (d - x))%Q.
Proof.
  intros Hd. destruct (Q_dec 0 x) as [[Hx | Hx] | Hx].
  - rewrite double_of_nonneg by lra. now apply roundPositive_nearest.
  - rewrite (double_of_neg x Hx).
    setoid_replace (- roundPositive (- x) - x)%Q
      with (- (roundPositive (- x) - - x))%Q by ring.
    setoid_replace (d - x)%Q with (- (- d - - x))%Q by ring.
    rewrite !Qabs_opp. apply roundPositive_nearest; [lra |].
    now apply isDouble_opp.
  - rewrite (double_comp x 0) by (now symmetry). rewrite double_0.
    setoid_replace (0 - x)%Q with 0%Q by (rewrite <- Hx; ring).
    apply Qabs_nonneg.
Qed.

(** The difference of two doubles, as the program computes it, has the
    sign of their exact difference: it is rounded to zero only when it is
    zero. *)
Lemma sub_sign (x y : number) :
  isDouble x -> isDouble y -> ((0 < sub x y)%Q <-> (y < x)%Q).
Proof.
  unfold isDouble. intros Hx Hy. split.
  - unfold sub. intros H. apply double_positive in H. lra.
  - intros Hlt.
    destruct (double_grid x) as [kx Ex]. destruct (double_grid y) as [ky Ey].
    rewrite Hx in Ex. rewrite Hy in Ey.
    pose proof (pow2_pos (-1074)) as Hg.
    assert (Hk : ky < kx).
    { apply Z.lt_nge. intros Hle. rewrite Zle_Qle in Hle.
      set (g := (2 ^ (-1074))%Q) in *.
      set (a := inject_Z kx) in *. set (b := inject_Z ky) in *.
      clearbody g a b. nra. }
    assert (Hstep : (2 ^ (-1074) <= x - y)%Q).
    { assert (H1 : (1 <= inject_Z kx - inject_Z ky)%Q).
      { unfold Qminus. rewrite <- inject_Z_opp, <- inject_Z_plus.
        change 1%Q with (inject_Z 1). rewrite <- Zle_Qle. lia. }
      set (g := (2 ^ (-1074))%Q) in *.
      set (a := inject_Z kx) in *. set (b := inject_Z ky) in *.
      clearbody g a b. nra. }
    unfold sub.
    rewrite (double_comp (double x - double y) (x - y)) by (now rewrite Hx, Hy).
    apply Qlt_le_trans with (double (2 ^ (-1074))); [reflexivity |].
    now apply double_monotone.
Qed.

(** *** The arithmetic of the program, evaluated

    A run from 1 to 2.005 gains 1.00, since the difference of the doubles
    is 1.00499999999999989; the drop from 3.005 to 2 is a loss of 1.00
    for the same reason. *)
Example rounded_gain_and_loss :
  (exists b,
     detectBeatSequences (series [1; 2.005]%Q) 1 = Ok [b]
     /\ BeatSequence.dollarGain b = 1%Q)
  /\ (exists l,
        detectPotentialLossSequences (series [3; 2; 3.005; 2]%Q) = Ok [l]
        /\ PotentialLossSequence.dollarLoss l = 1%Q).
Proof.
  split; eexists; (split; [vm_compute; reflexivity | reflexivity]).
Qed.

(** The drop from 10.1 to 10 is 0.09999999999999964, below the trigger of
    0.10, and the drop from 0.11 to 0.01 is the double 0.1, which reaches
    it. *)
Example rounded_price_drop :
  (exists r,
     shouldSellWithDollarDrop (profitTakingBot 9) 10 (series [10.1; 10]%Q) = Ok r
     /\ SellResult.shouldSell r = false)
  /\ (exists r,
        shouldSellWithDollarDrop (profitTakingBot 0.005) 0.01
          (series [0.11; 0.01]%Q) = Ok r
        /\ SellResult.shouldSell r = true).
Proof.
  split; eexists; (split; [vm_compute; reflexivity | reflexivity]).
Qed.

(** At the price 6.8 with 19284.8 in cash the quotient of the doubles is
    rounded up to 2836, and the 2836 shares cost more than the cash. *)
Example rounded_share_count :
  calculateSharesToBuy 10000 shares 6.8 19284.8 = 2836%Q
  /\ (double 19284.8 < 2836 * double 6.8)%Q.
Proof. split; vm_compute; reflexivity. Qed.

(** ** Arrays and loops *)

(** Case analysis on every test of the goal. *)
Ltac case_ifs :=
  repeat match goal with
         | |- context [if ?c then _ else _] => destruct c
         end.

Lemma length_nonneg {A} (a : list A) : 0 <= length a.
Proof. unfold length. lia. Qed.

Lemma get_in_range {A} (a : list A) (i : Z) :
  0 <= i < length a -> exists x, a.[i] = Some x.
Proof.
  intros Hi. unfold get, length in *.
  destruct (Z.ltb_spec i 0) as [Hneg | _]; [lia |].
  destruct (nth_error a (Z.to_nat i)) as [x |] eqn:E.
  - now exists x.
  - apply nth_error_None in E. lia.
Qed.

Lemma get_Some_range {A} (a : list A) (i : Z) (x : A) :
  a.[i] = Some x -> 0 <= i < length a.
Proof.
  unfold get, length.
  destruct (Z.ltb_spec i 0) as [Hneg | Hpos]; [discriminate |].
  intros E.
  assert (Hlt : (Z.to_nat i < List.length a)%nat)
    by (apply nth_error_Some; congruence).
  lia.
Qed.

Lemma get_Some_In {A} (a : list A) (i : Z) (x : A) : a.[i] = Some x -> In x a.
Proof.
  unfold get. destruct (i <? 0); [discriminate |]. apply nth_error_In.
Qed.

(** A loop whose body never throws on the indices it visits, and keeps an
    invariant [P] that may mention the index, ends normally in a state that
    satisfies [P] at the final index. *)
Lemma forLoop_ok {St} (P : Z -> St -> Prop) (body : Z -> St -> Exc St) :
  forall (n : nat) (i : Z) (s : St),
    P i s ->
    (forall j t, i <= j < i + Z.of_nat n -> P j t ->
                 exists t', body j t = Ok t' /\ P (j + 1) t') ->
    exists s', forLoop n i body s = Ok s' /\ P (i + Z.of_nat n) s'.
Proof.
  induction n as [| n IH]; intros i s Hs Hbody; cbn [forLoop].
  - exists s. split; [reflexivity |]. now replace (i + Z.of_nat 0) with i by lia.
  - destruct (Hbody i s) as [t [Et Ht]]; [lia | exact Hs |].
    rewrite Et. cbn [bind].
    destruct (IH (i + 1) t Ht) as [s' [Es' Hs']].
    + intros j u Hj Hu. apply Hbody; [lia | exact Hu].
    + exists s'. split; [exact Es' |].
      now replace (i + Z.of_nat (S n)) with (i + 1 + Z.of_nat n) by lia.
Qed.

Lemma forRange_ok {St} (P : Z -> St -> Prop) (body : Z -> St -> Exc St)
    (lo hi : Z) (s : St) :
  lo <= hi ->
  P lo s ->
  (forall j t, lo <= j < hi -> P j t ->
               exists t', body j t = Ok t' /\ P (j + 1) t') ->
  exists s', forRange lo hi body s = Ok s' /\ P hi s'.
Proof.
  intros Hle Hs Hbody. unfold forRange.
  destruct (forLoop_ok P body (Z.to_nat (hi - lo)) lo s Hs) as [s' [E Hs']].
  - intros j t Hj. apply Hbody. lia.
  - exists s'. split; [exact E |].
    now replace (lo + Z.of_nat (Z.to_nat (hi - lo))) with hi in Hs' by lia.
Qed.

(** ** Direction-change points *)

(** The scan never throws and pushes only indices that it visits. *)
Lemma getDirectionChangePoints_interior (data : list StockData.t) :
  exists points,
    getDirectionChangePoints data = Ok points /\
    forall p, In p points -> interior data p.
Proof.
  unfold getDirectionChangePoints.
  destruct (Z.ltb_spec (length data) 3) as [Hshort | Hlong].
  - exists []. split; [reflexivity | intros p []].
  - match goal with
    | |- context [forRange ?lo ?hi ?body ?s] =>
        destruct (forRange_ok
                    (fun _ points => forall p, In p points -> interior data p)
                    body lo hi s) as [points [E H]]
    end.
    + lia.
    + intros p [].
    + intros j t Hj Ht.
      destruct (get_in_range data (j - 1)) as [a Ea]; [lia |].
      destruct (get_in_range data j) as [b Eb]; [lia |].
      destruct (get_in_range data (j + 1)) as [c Ec]; [lia |].
      rewrite Ea, Eb, Ec. simpl.
      assert (Hnew : forall ty p,
                 In p (t ++ [DirectionChangePoint.mk j (StockData.timestamp b)
                                (StockData.price b) ty]) -> interior data p).
      { intros ty p Hp. apply in_app_or in Hp. destruct Hp as [Hp | [Hp | []]].
        - now apply Ht.
        - subst p. unfold interior. simpl. lia. }
      destruct (gtb (StockData.price a) (StockData.price b)
                && ltb (StockData.price b) (StockData.price c)).
      * eexists. split; [reflexivity | apply Hnew].
      * destruct (ltb (StockData.price a) (StockData.price b)
                  && gtb (StockData.price b) (StockData.price c)).
        -- eexists. split; [reflexivity | apply Hnew].
        -- eexists. split; [reflexivity | exact Ht].
    + exists points. split; [exact E | exact H].
Qed.

(** C9: every direction-change point lies strictly inside the series, at an
    index from 1 to [data.length - 2]; so the point that
    [getLastDirectionChangePoint] returns is never the first nor the newest
    sample. *)
Theorem direction_change_points_lag (data : list StockData.t) :
  exists points last,
    getDirectionChangePoints data = Ok points
    /\ (forall p, In p points ->
                  1 <= DirectionChangePoint.index p <= length data - 2)
    /\ getLastDirectionChangePoint data = Ok last
    /\ (forall p, last = Some p ->
                  1 <= DirectionChangePoint.index p < length data - 1).
Proof.
  destruct (getDirectionChangePoints_interior data) as [points [E Hall]].
  unfold getLastDirectionChangePoint. rewrite E. cbn [bind].
  exists points. eexists.
  split; [reflexivity |]. split; [exact Hall |]. split; [reflexivity |].
  intros p Hlast.
  destruct (length points >? 0); [| discriminate Hlast].
  apply get_Some_In, Hall in Hlast. unfold interior in Hlast. lia.
Qed.

Lemma direction_change_points_lag_witness :
  exists p q,
    getDirectionChangePoints (series [10; 9; 11; 8]%Q) = Ok [p; q]
    /\ getLastDirectionChangePoint (series [10; 9; 11; 8]%Q) = Ok (Some q)
    /\ 1 <= DirectionChangePoint.index p <= 2
    /\ 1 <= DirectionChangePoint.index q < 3.
Proof.
  destruct (direction_change_points_lag (series [10; 9; 11; 8]%Q))
    as [points [last [E [Hall [Elast Hlast]]]]].
  vm_compute in E. injection E as <-.
  vm_compute in Elast. injection Elast as <-.
  eexists. eexists. split; [reflexivity |]. split; [reflexivity |].
  split.
  - exact (Hall _ (or_introl eq_refl)).
  - exact (Hlast _ eq_refl).
Defined.

(** ** Short series *)

(** C6: a series of fewer than 3 samples has no direction-change point, one
    of fewer than 4 samples no potential-loss sequence, and one of fewer
    than [minConsecutiveIntervals + 1] samples no beat sequence. *)
Theorem short_series_detect_nothing (data : list StockData.t)
    (minConsecutiveIntervals : Z) :
  (length data < 3 -> getDirectionChangePoints data = Ok [])
  /\ (length data < 4 -> detectPotentialLossSequences data = Ok [])
  /\ (length data < minConsecutiveIntervals + 1 ->
      detectBeatSequences data minConsecutiveIntervals = Ok []).
Proof.
  repeat split; intros Hshort.
  - unfold getDirectionChangePoints.
    destruct (Z.ltb_spec (length data) 3); [reflexivity | lia].
  - unfold detectPotentialLossSequences.
    destruct (Z.ltb_spec (length data) 4); [reflexivity | lia].
  - unfold detectBeatSequences.
    destruct (Z.ltb_spec (length data) (minConsecutiveIntervals + 1));
      [reflexivity | lia].
Qed.

Lemma short_series_detect_nothing_witness :
  getDirectionChangePoints (series [10; 11]%Q) = Ok []
  /\ detectPotentialLossSequences (series [10; 9; 11]%Q) = Ok []
  /\ detectBeatSequences (series [10; 11; 12; 13]%Q) 4 = Ok [].
Proof.
  split; [| split].
  - apply (short_series_detect_nothing (series [10; 11]%Q) 4). reflexivity.
  - apply (short_series_detect_nothing (series [10; 9; 11]%Q) 4). reflexivity.
  - apply (short_series_detect_nothing (series [10; 11; 12; 13]%Q) 4). reflexivity.
Defined.

(** ** Beat sequences *)

Lemma ltb_true (x y : number) : ltb x y = true <-> (x < y)%Q.
Proof.
  unfold ltb. rewrite negb_true_iff. split.
  - intros E. apply Qnot_le_lt. intros Hle.
    apply Qle_bool_iff in Hle. congruence.
  - intros Hlt. destruct (Qle_bool y x) eqn:E; [| reflexivity].
    apply Qle_bool_iff in E. exfalso. exact (Qlt_not_le _ _ Hlt E).
Qed.

Lemma ltb_false (x y : number) : ltb x y = false <-> (y <= x)%Q.
Proof.
  unfold ltb. rewrite negb_false_iff. apply Qle_bool_iff.
Qed.

Lemma slope_positive (cur prev : number) :
  gtb (cur - prev) 0 = true <-> (prev < cur)%Q.
Proof.
  unfold gtb. rewrite ltb_true. rewrite <- (Qlt_minus_iff prev cur). reflexivity.
Qed.

Lemma slope_not_positive (cur prev : number) :
  gtb (cur - prev) 0 = false <-> (cur <= prev)%Q.
Proof.
  unfold gtb. rewrite ltb_false. rewrite (Qle_minus_iff cur prev).
  split; intros H.
  - setoid_replace (prev + - cur)%Q with (- (cur - prev))%Q by ring.
    setoid_replace 0%Q with (- 0)%Q by ring.
    now apply Qopp_le_compat.
  - setoid_replace (cur - prev)%Q with (- (prev + - cur))%Q by ring.
    setoid_replace 0%Q with (- 0)%Q by ring.
    now apply Qopp_le_compat.
Qed.

Lemma beatSequence_ok (data : list StockData.t) (s e : Z) :
  0 <= s < length data -> 0 <= e < length data ->
  exists b, beatSequence data s e = Ok b
            /\ BeatSequence.startIndex b = s /\ BeatSequence.endIndex b = e.
Proof.
  intros Hs He. unfold beatSequence.
  destruct (get_in_range data s Hs) as [a Ea].
  destruct (get_in_range data e He) as [c Ec].
  rewrite Ea, Ec. cbn [field bind].
  eexists. split; [reflexivity |]. split; reflexivity.
Qed.

(** Pushing the counted run when the scan stops at sample [e + 1], or at
    the end of the series. *)
Lemma flushRun_ok (data : list StockData.t) (minConsecutiveIntervals : Z)
    (st : Scan.t) (e : Z) :
  scanning data (e + 1) st -> 0 <= e < length data -> stopsAt data e ->
  exists sequences,
    flushRun data minConsecutiveIntervals st e = Ok sequences
    /\ forall b, In b sequences -> emitted data b.
Proof.
  intros [Hseq [Hcount [Hzero Hrun]]] He Hstop. unfold flushRun.
  destruct ((Scan.consecutivePositiveCount st >=? minConsecutiveIntervals)
            && (Scan.currentSequenceStart st >=? 0)) eqn:Hlong.
  - apply andb_true_iff in Hlong. destruct Hlong as [_ Hstart].
    apply Z.geb_le in Hstart.
    assert (Hpos : 0 < Scan.consecutivePositiveCount st).
    { destruct (Z.eq_dec (Scan.consecutivePositiveCount st) 0) as [E0 | N0];
        [apply Hzero in E0; lia | lia]. }
    destruct (Hrun Hpos) as [Estart [_ Hrise]].
    destruct (beatSequence_ok data (Scan.currentSequenceStart st) e)
      as [b [Eb [Sb Eb']]]; [lia | lia |].
    rewrite Eb. cbn [bind]. eexists. split; [reflexivity |].
    intros b' Hb'. apply in_app_or in Hb'. destruct Hb' as [Hb' | [Hb' | []]].
    + now apply Hseq.
    + subst b'. unfold emitted. rewrite Sb, Eb'.
      repeat split; try lia; try assumption.
      intros k Hk. apply Hrise. lia.
  - exists (Scan.sequences st). split; [reflexivity | exact Hseq].
Qed.

Lemma beatStep_ok (data : list StockData.t) (minConsecutiveIntervals : Z)
    (i : Z) (st : Scan.t) :
  1 <= i < length data -> scanning data i st ->
  exists st', beatStep data minConsecutiveIntervals i st = Ok st'
              /\ scanning data (i + 1) st'.
Proof.
  intros Hi Hinv. unfold beatStep.
  destruct (get_in_range data i) as [c Ec]; [lia |].
  destruct (get_in_range data (i - 1)) as [p Ep]; [lia |].
  rewrite Ec, Ep. cbn [field bind].
  destruct (gtb (StockData.price c - StockData.price p) 0) eqn:Hslope.
  - apply slope_positive in Hslope.
    eexists. split; [reflexivity |].
    destruct Hinv as [Hseq [Hcount [Hzero Hrun]]].
    assert (Hrise : risesAt data (i - 1)).
    { exists p, c. replace (i - 1 + 1) with i by lia. now repeat split. }
    unfold scanning. cbn [Scan.sequences Scan.currentSequenceStart
                            Scan.consecutivePositiveCount].
    split; [exact Hseq |]. split; [lia |]. split; [lia |]. intros _.
    destruct (Z.eqb_spec (Scan.consecutivePositiveCount st) 0) as [E0 | N0].
    + split; [lia |]. split; [lia |].
      intros k Hk. now replace k with (i - 1) by lia.
    + assert (Hpos : 0 < Scan.consecutivePositiveCount st) by lia.
      destruct (Hrun Hpos) as [Estart [Hstart Hrises]].
      split; [lia |]. split; [exact Hstart |].
      intros k Hk.
      destruct (Z.eq_dec k (i - 1)) as [-> | Hne]; [exact Hrise |].
      apply Hrises. lia.
  - apply slope_not_positive in Hslope.
    destruct (flushRun_ok data minConsecutiveIntervals st (i - 1))
      as [sequences [E Hall]].
    + now replace (i - 1 + 1) with i by lia.
    + lia.
    + intros a b Ha Hb. replace (i - 1 + 1) with i in Hb by lia.
      rewrite Ep in Ha. rewrite Ec in Hb.
      injection Ha as <-. injection Hb as <-. exact Hslope.
    + rewrite E. cbn [bind]. eexists. split; [reflexivity |].
      unfold scanning. cbn [Scan.sequences Scan.currentSequenceStart
                              Scan.consecutivePositiveCount].
      split; [exact Hall |]. split; [lia |]. split; [reflexivity | lia].
Qed.

Lemma detectBeatSequences_emitted (data : list StockData.t)
    (minConsecutiveIntervals : Z) :
  exists sequences,
    detectBeatSequences data minConsecutiveIntervals = Ok sequences
    /\ forall b, In b sequences -> emitted data b.
Proof.
  unfold detectBeatSequences.
  destruct (length data <? minConsecutiveIntervals + 1).
  { exists []. split; [reflexivity | intros b []]. }
  destruct (Z.eq_dec (length data) 0) as [Hempty | Hnonempty].
  - rewrite Hempty. cbn [forRange forLoop Z.to_nat Z.sub Z.add Z.opp Z.pos_sub bind].
    unfold flushRun. cbn [Scan.currentSequenceStart Scan.sequences].
    rewrite andb_false_r. exists []. split; [reflexivity | intros b []].
  - pose proof (length_nonneg data) as Hlen.
    destruct (forRange_ok (scanning data)
                (beatStep data minConsecutiveIntervals)
                1 (length data) (Scan.mk [] (-1) 0)) as [st [E Hst]].
    + lia.
    + unfold scanning. cbn. split; [intros b [] |]. split; [lia |].
      split; [reflexivity | lia].
    + intros j t Hj Ht. now apply beatStep_ok.
    + rewrite E. cbn [bind].
      apply flushRun_ok.
      * now replace (length data - 1 + 1) with (length data) by lia.
      * lia.
      * intros a b _ Hb. apply get_Some_range in Hb. lia.
Qed.

(** C5: detection never throws, and every beat sequence it returns lies
    within the series; in it the price rises strictly from each sample to
    the next between [startIndex] and [endIndex], while a sample that
    follows [endIndex] has a price that is lower than or equal to the one
    at [endIndex]. *)
Theorem beat_sequences_rise_then_stop (data : list StockData.t)
    (minConsecutiveIntervals : Z) :
  exists sequences,
    detectBeatSequences data minConsecutiveIntervals = Ok sequences
    /\ forall b, In b sequences ->
         0 <= BeatSequence.startIndex b < BeatSequence.endIndex b
         /\ BeatSequence.endIndex b < length data
         /\ (forall k, BeatSequence.startIndex b <= k < BeatSequence.endIndex b ->
                       risesAt data k)
         /\ stopsAt data (BeatSequence.endIndex b).
Proof.
  destruct (detectBeatSequences_emitted data minConsecutiveIntervals)
    as [sequences [E Hall]].
  exists sequences. split; [exact E |].
  intros b Hb. destruct (Hall b Hb) as [_ Hrun]. exact Hrun.
Qed.

Lemma beat_sequences_rise_then_stop_witness :
  exists b,
    detectBeatSequences (series [10; 11; 12; 13; 14; 9]%Q) 4 = Ok [b]
    /\ BeatSequence.startIndex b = 0 /\ BeatSequence.endIndex b = 4
    /\ (forall k, 0 <= k < 4 -> risesAt (series [10; 11; 12; 13; 14; 9]%Q) k)
    /\ stopsAt (series [10; 11; 12; 13; 14; 9]%Q) 4.
Proof.
  destruct (beat_sequences_rise_then_stop (series [10; 11; 12; 13; 14; 9]%Q) 4)
    as [sequences [E Hall]].
  vm_compute in E. injection E as <-.
  eexists. split; [reflexivity |]. split; [reflexivity |]. split; [reflexivity |].
  exact (proj2 (proj2 (Hall _ (or_introl eq_refl)))).
Defined.

(** ** Percentage change *)

Lemma units_near (y : Q) (P : Z) :
  0 < P -> (0 <= y)%Q ->
  let N := Qfloor (y * inject_Z P + (1 # 2))%Q in
  0 <= N
  /\ (- (1 / inject_Z (2 * P)) < inject_Z N / inject_Z P - y
      <= 1 / inject_Z (2 * P))%Q.
Proof.
  intros HP Hy N.
  pose proof (Qfloor_le (y * inject_Z P + (1 # 2))) as Hlow.
  pose proof (Qlt_floor (y * inject_Z P + (1 # 2))) as Hup.
  fold N in Hlow, Hup. rewrite inject_Z_plus in Hup.
  change (inject_Z 1) with 1%Q in Hup.
  assert (HPq : (0 < inject_Z P)%Q) by (change 0%Q with (inject_Z 0); now rewrite <- Zlt_Qlt).
  rewrite inject_Z_mult. change (inject_Z 2) with 2%Q.
  set (p := inject_Z P) in *. set (n := inject_Z N) in *.
  assert (HN : (0 <= n)%Q).
  { unfold n. change 0%Q with (inject_Z 0). rewrite <- Zle_Qle.
    unfold N. change 0 with (Qfloor 0). apply Qfloor_resp_le. nra. }
  split.
  - rewrite Zle_Qle. exact HN.
  - assert (E1 : (n / p - y == (n - y * p) / p)%Q) by (field; lra).
    assert (E2 : (1 / (2 * p) == (1 # 2) / p)%Q) by (field; lra).
    rewrite E1, E2. split.
    + setoid_replace (- ((1 # 2) / p))%Q with ((- (1 # 2)) / p)%Q by (field; lra).
      apply Qlt_shift_div_l; [exact HPq |].
      setoid_replace (- (1 # 2) / p * p)%Q with (- (1 # 2))%Q by (field; lra).
      lra.
    + apply Qle_shift_div_r; [exact HPq |].
      setoid_replace ((1 # 2) / p * p)%Q with (1 # 2)%Q by (field; lra).
      lra.
Qed.

(** [toFixed] rounds to the nearest multiple, away from zero on a tie. *)
Lemma roundTo_rounded (d : nat) (x : number) :
  roundedTo d (double x) (roundTo d x).
Proof.
  unfold roundedTo, roundTo. exists (toFixedUnits d x). cbv zeta.
  split; [reflexivity |].
  unfold toFixedUnits. set (v := double x).
  assert (HP : 0 < 10 ^ Z.of_nat d) by (apply Z.pow_pos_nonneg; lia).
  destruct (units_near (Qabs v) (10 ^ Z.of_nat d) HP (Qabs_nonneg v))
    as [HN [Hlow Hup]].
  set (N := Qfloor (Qabs v * inject_Z (10 ^ Z.of_nat d) + (1 # 2))) in *.
  set (half := (1 / inject_Z (2 * 10 ^ Z.of_nat d))%Q) in *.
  assert (HPq : (0 < inject_Z (10 ^ Z.of_nat d))%Q)
    by (change 0%Q with (inject_Z 0); now rewrite <- Zlt_Qlt).
  set (p := inject_Z (10 ^ Z.of_nat d)) in *.
  assert (Ht : (0 <= inject_Z N / p)%Q).
  { apply Qle_shift_div_l; [exact HPq |]. rewrite Qmult_0_l.
    change 0%Q with (inject_Z 0). now rewrite <- Zle_Qle. }
  destruct (ltb v 0) eqn:Esign.
  - assert (Hv : (v < 0)%Q).
    { unfold ltb in Esign. apply negb_true_iff in Esign.
      apply Qnot_le_lt. intros H. apply Qle_bool_iff in H. congruence. }
    rewrite (Qabs_neg v) in * by lra.
    assert (Et : (inject_Z (- N) / p == - (inject_Z N / p))%Q).
    { rewrite inject_Z_opp. field. lra. }
    rewrite Et.
    split.
    + apply Qabs_Qle_condition. split; lra.
    + intros Htie. rewrite Qabs_opp, (Qabs_pos (inject_Z N / p)) by exact Ht.
      destruct (Qlt_le_dec (- (inject_Z N / p) - v) 0) as [Hneg | Hnonneg].
      * lra.
      * rewrite Qabs_pos in Htie by exact Hnonneg. lra.
  - assert (Hv : (0 <= v)%Q).
    { unfold ltb in Esign. apply negb_false_iff in Esign.
      now apply Qle_bool_iff. }
    rewrite (Qabs_pos v) in * by exact Hv.
    split.
    + apply Qabs_Qle_condition. split; lra.
    + intros Htie. rewrite (Qabs_pos (inject_Z N / p)) by exact Ht.
      destruct (Qlt_le_dec (inject_Z N / p - v) 0) as [Hneg | Hnonneg].
      * rewrite Qabs_neg in Htie by lra. lra.
      * lra.
Qed.

(** The result of an operation is a double, which [toFixed] reads as it
    is. *)
Lemma sub_double (x y : number) : double (sub x y) = sub x y.
Proof. unfold sub. apply double_idempotent. Qed.

Lemma mul_double (x y : number) : double (mul x y) = mul x y.
Proof. unfold mul. apply double_idempotent. Qed.

Lemma roundTo_double (d : nat) (x : number) :
  double x = x -> roundedTo d x (roundTo d x).
Proof. intros H. rewrite <- H at 1. apply roundTo_rounded. Qed.

Lemma beatSequence_percentage (data : list StockData.t) (s e : Z)
    (b : BeatSequence.t) :
  beatSequence data s e = Ok b ->
  BeatSequence.percentageChange b
  = roundTo 2 (percentageOfGain (BeatSequence.startPrice b)
                                (BeatSequence.endPrice b)).
Proof.
  unfold beatSequence.
  destruct data.[s] as [a |]; destruct data.[e] as [c |];
    cbn [field bind]; try discriminate.
  intros E. injection E as <-. reflexivity.
Qed.

(** A [forEach] whose body never throws on the elements of the array and
    keeps [P] ends normally in a state that satisfies [P]. *)
Lemma forEach_ok {A St} (P : St -> Prop) (body : A -> St -> Exc St) :
  forall (a : list A) (s : St),
    P s ->
    (forall x t, In x a -> P t -> exists t', body x t = Ok t' /\ P t') ->
    exists s', forEach a body s = Ok s' /\ P s'.
Proof.
  induction a as [| x a IH]; intros s Hs Hbody; cbn [forEach].
  - exists s. now split.
  - destruct (Hbody x s) as [t [Et Ht]]; [now left | exact Hs |].
    rewrite Et. cbn [bind]. apply IH; [exact Ht |].
    intros y u Hy. apply Hbody. now right.
Qed.

Lemma calculatePotentialProfitSequences_percentage
    (beatSequences : list BeatSequence.t) :
  exists profits,
    calculatePotentialProfitSequences beatSequences = Ok profits
    /\ forall p, In p profits ->
         PotentialProfitSequence.percentageChange p
         = roundTo 2 (percentageOfGain (PotentialProfitSequence.startPrice p)
                                       (PotentialProfitSequence.endPrice p)).
Proof.
  unfold calculatePotentialProfitSequences.
  apply forEach_ok; [intros p [] |].
  intros sequence profits _ Hprofits.
  destruct (length (BeatSequence.dataPoints sequence) <? 3).
  { exists profits. now split. }
  set (trimmed := slice (BeatSequence.dataPoints sequence) 1 (-1)).
  destruct (Z.eqb_spec (length trimmed) 0) as [Hnone | Hsome].
  { exists profits. now split. }
  pose proof (length_nonneg trimmed) as Hlen.
  destruct (get_in_range trimmed 0) as [a Ea]; [lia |].
  destruct (get_in_range trimmed (length trimmed - 1)) as [c Ec]; [lia |].
  rewrite Ea, Ec. cbn [field bind].
  eexists. split; [reflexivity |].
  intros p Hp. apply in_app_or in Hp. destruct Hp as [Hp | [Hp | []]].
  - now apply Hprofits.
  - subst p. reflexivity.
Qed.

Lemma percentage_rounded (startPrice endPrice v : number) :
  v = roundTo 2 (percentageOfGain startPrice endPrice) ->
  roundedTo 2 (percentageOfGain startPrice endPrice) v.
Proof. intros ->. apply roundTo_double, mul_double. Qed.

(** C8: the [percentageChange] stored in every beat sequence that
    [detectBeatSequences] returns, and in every potential-profit sequence
    that [calculatePotentialProfitSequences] returns, is
    [(gain / startPrice) * 100] rounded to 2 decimals, where the gain is
    [endPrice - startPrice] of that sequence and the arithmetic is that of
    the program, on doubles: the stored value is the double nearest to the
    multiple of 0.01 that is nearest to the percentage. *)
Theorem percentage_change_of_gain :
  (forall data minConsecutiveIntervals,
     exists sequences,
       detectBeatSequences data minConsecutiveIntervals = Ok sequences
       /\ forall b, In b sequences ->
            roundedTo 2
              (percentageOfGain (BeatSequence.startPrice b)
                                (BeatSequence.endPrice b))
              (BeatSequence.percentageChange b))
  /\ (forall beatSequences,
        exists profits,
          calculatePotentialProfitSequences beatSequences = Ok profits
          /\ forall p, In p profits ->
               roundedTo 2
                 (percentageOfGain (PotentialProfitSequence.startPrice p)
                                   (PotentialProfitSequence.endPrice p))
                 (PotentialProfitSequence.percentageChange p)).
Proof.
  split.
  - intros data minConsecutiveIntervals.
    destruct (detectBeatSequences_emitted data minConsecutiveIntervals)
      as [sequences [E Hall]].
    exists sequences. split; [exact E |].
    intros b Hb. destruct (Hall b Hb) as [Hmade _].
    apply percentage_rounded.
    exact (beatSequence_percentage _ _ _ _ Hmade).
  - intros beatSequences.
    destruct (calculatePotentialProfitSequences_percentage beatSequences)
      as [profits [E Hall]].
    exists profits. split; [exact E |].
    intros p Hp. apply percentage_rounded. now apply Hall.
Qed.

(** The run from 12.8 to 14: the program computes the percentage
    9.374999999999995 and stores 9.37; between its second and its last
    but one sample, 4.615384615384613 and 4.62. *)
Lemma percentage_change_of_gain_witness :
  exists b p,
    detectBeatSequences (series [12.8; 13; 13.2; 13.6; 14]%Q) 4 = Ok [b]
    /\ calculatePotentialProfitSequences [b] = Ok [p]
    /\ BeatSequence.percentageChange b = double 9.37
    /\ roundedTo 2 (percentageOfGain 12.8 14) (double 9.37)
    /\ PotentialProfitSequence.percentageChange p = double 4.62
    /\ roundedTo 2 (percentageOfGain 13 13.6) (double 4.62).
Proof.
  destruct percentage_change_of_gain as [Hbeat Hprofit].
  destruct (Hbeat (series [12.8; 13; 13.2; 13.6; 14]%Q) 4) as [sequences [E Hall]].
  vm_compute in E. injection E as <-.
  match type of Hall with
  | forall b, In b ?l -> _ => destruct (Hprofit l) as [profits [E' Hall']]
  end.
  vm_compute in E'. injection E' as <-.
  eexists. eexists.
  split; [vm_compute; reflexivity |].
  split; [vm_compute; reflexivity |].
  split; [vm_compute; reflexivity |].
  split; [exact (Hall _ (or_introl eq_refl)) |].
  split; [vm_compute; reflexivity |].
  exact (Hall' _ (or_introl eq_refl)).
Defined.

(** ** Scenario A *)

(** C3, as stated, fails: with a minimum of 4 intervals the scan of
    [10, 11, 12, 13, 9] returns no sequence at all, the series having only
    three rising intervals. *)
Lemma scenario_A_min4_no_sequence :
  detectBeatSequences scenarioA 4 = Ok []
  /\ ~ (exists b, detectBeatSequences scenarioA 4 = Ok [b]
                  /\ BeatSequence.startIndex b = 0
                  /\ BeatSequence.endIndex b = 3).
Proof.
  split; [reflexivity |].
  intros [b [E _]]. vm_compute in E. discriminate E.
Qed.

(** C3, amended: on a series with the prices [10, 11, 12, 13, 9] the scan
    returns nothing for a minimum of 4 intervals; for a minimum of 3 it
    returns exactly one sequence, from index 0 to index 3, price 10 to 13,
    gain 3.00 and percentage 30.00, the drop to 9 left out. *)
Theorem scenario_A_three_intervals (data : list StockData.t) :
  map StockData.price data = [10; 11; 12; 13; 9]%Q ->
  detectBeatSequences data 4 = Ok []
  /\ exists b,
       detectBeatSequences data 3 = Ok [b]
       /\ BeatSequence.startIndex b = 0
       /\ BeatSequence.endIndex b = 3
       /\ BeatSequence.startPrice b = 10%Q
       /\ BeatSequence.endPrice b = 13%Q
       /\ BeatSequence.dollarGain b = 3%Q
       /\ BeatSequence.percentageChange b = 30%Q
       /\ map StockData.price (BeatSequence.dataPoints b) = [10; 11; 12; 13]%Q.
Proof.
  intros Hprices.
  destruct data as [| [t0 p0 ?] [| [t1 p1 ?] [| [t2 p2 ?] [| [t3 p3 ?]
    [| [t4 p4 ?] [| ? ?]]]]]]; try discriminate Hprices.
  cbn in Hprices. injection Hprices as -> -> -> -> ->.
  split; [reflexivity |].
  eexists. split; [vm_compute; reflexivity |].
  repeat split.
Qed.

Lemma scenario_A_three_intervals_witness :
  detectBeatSequences scenarioA 4 = Ok []
  /\ exists b,
       detectBeatSequences scenarioA 3 = Ok [b]
       /\ BeatSequence.startIndex b = 0
       /\ BeatSequence.endIndex b = 3
       /\ BeatSequence.startPrice b = 10%Q
       /\ BeatSequence.endPrice b = 13%Q
       /\ BeatSequence.dollarGain b = 3%Q
       /\ BeatSequence.percentageChange b = 30%Q
       /\ map StockData.price (BeatSequence.dataPoints b) = [10; 11; 12; 13]%Q.
Proof.
  apply (scenario_A_three_intervals scenarioA). reflexivity.
Defined.

(** ** Evaluators below their minimum sample count *)

(** C4, as stated, fails: on the two samples [10, 9] the confirmed-recovery
    evaluator signals a buy when the first simulated check moves down and
    the second moves up. *)
Lemma confirmed_recovery_buys_on_two_samples :
  length (series [10; 9]%Q) < 3
  /\ exists r g,
       shouldBuyConfirmedRecovery (series [10; 9]%Q) 9%Q 15%Q 30%Q downThenUp = Ok (r, g)
       /\ BuyResult.shouldBuy r = true.
Proof.
  split; [reflexivity |].
  eexists. eexists. split; [vm_compute; reflexivity | reflexivity].
Qed.

(** C4, amended: below its minimum every evaluator returns a negative
    result and does not throw; the minimum is 3 samples for the rules built
    on direction changes, and 2 samples for the price comparison, the slope
    analysis and the buy rule of confirmed recovery. *)
Theorem evaluators_below_minimum (data : list StockData.t) :
  (length data < 3 ->
     shouldBuyTrendReversal data = Ok false
     /\ shouldSellTrendReversal data = Ok false
     /\ (forall currentPrice,
           shouldBuyDirectionChangeReference data currentPrice
           = Ok (BuyReference.mk false None))
     /\ (forall lastProcessedIndex,
           shouldBuyDirectionChangeBuy data lastProcessedIndex
           = Ok (BuyNew.mk false None)))
  /\ (length data < 2 ->
        shouldBuyPriceComparison data = Ok false
        /\ shouldSellPriceComparison data = Ok false
        /\ shouldBuySlopeAnalysis data = Ok false
        /\ shouldSellSlopeAnalysis data = Ok false
        /\ (forall currentPrice firstDelay secondDelay g,
              exists r,
                shouldBuyConfirmedRecovery data currentPrice firstDelay secondDelay g
                = Ok (r, g)
                /\ BuyResult.shouldBuy r = false)).
Proof.
  split; intros Hshort.
  - unfold shouldBuyTrendReversal, shouldSellTrendReversal,
      shouldBuyDirectionChangeReference, shouldBuyDirectionChangeBuy,
      getLastDirectionChangePoint, getDirectionChangePoints.
    destruct (Z.ltb_spec (length data) 3) as [_ | Hlong]; [| lia].
    repeat split.
  - unfold shouldBuyPriceComparison, shouldSellPriceComparison,
      shouldBuySlopeAnalysis, shouldSellSlopeAnalysis,
      shouldBuyConfirmedRecovery, isLastIntervalDownward.
    destruct (Z.ltb_spec (length data) 2) as [_ | Hlong]; [| lia].
    repeat split.
    intros currentPrice firstDelay secondDelay g.
    eexists. split; reflexivity.
Qed.

Lemma evaluators_below_minimum_witness :
  shouldBuyTrendReversal (series [10; 9]%Q) = Ok false
  /\ shouldBuyPriceComparison (series [10]%Q) = Ok false
  /\ exists r,
       shouldBuyConfirmedRecovery (series [10]%Q) 10%Q 15%Q 30%Q downThenUp
       = Ok (r, downThenUp)
       /\ BuyResult.shouldBuy r = false.
Proof.
  split; [| split].
  - destruct (evaluators_below_minimum (series [10; 9]%Q)) as [H _].
    apply H. reflexivity.
  - destruct (evaluators_below_minimum (series [10]%Q)) as [_ H].
    apply H. reflexivity.
  - destruct (evaluators_below_minimum (series [10]%Q)) as [_ H].
    apply H. reflexivity.
Defined.

(** ** Overlay and dispatcher *)

Lemma leb_true (x y : number) : leb x y = true <-> (x <= y)%Q.
Proof. apply Qle_bool_iff. Qed.

(** The overlay never throws: it reads the sample before the last only
    where the series has two samples. *)
Lemma shouldSellWithDollarDrop_total (bot : TradingBot.t) (currentPrice : number)
    (data : list StockData.t) :
  exists r, shouldSellWithDollarDrop bot currentPrice data = Ok r.
Proof.
  unfold shouldSellWithDollarDrop.
  destruct (TradingBot.currentPosition bot) as [position |];
    [| eexists; reflexivity].
  destruct (Settings.profitTakingEnabled (TradingBot.settings bot)).
  - match goal with
    | |- context [if ?c && (length data >=? 2) then _ else _] => destruct c
    end; cbn [andb].
    + destruct (Z.geb_spec (length data) 2) as [Hlen | Hlen].
      * destruct (get_in_range data (length data - 2)) as [d Ed]; [lia |].
        rewrite Ed. cbn [field bind].
        case_ifs; eexists; reflexivity.
      * case_ifs; eexists; reflexivity.
    + case_ifs; eexists; reflexivity.
  - case_ifs; eexists; reflexivity.
Qed.

(** The sell-at-buy-price rule, and the profit-taking rule before it: with
    the rule enabled and the price at or below the buy price, the overlay
    sells. *)
Lemma overlay_sells_at_buy_price (bot : TradingBot.t) (position : Position.t)
    (currentPrice : number) (data : list StockData.t) :
  TradingBot.currentPosition bot = Some position ->
  Settings.sellAtBuyPriceEnabled (TradingBot.settings bot) = true ->
  (currentPrice <= Position.buyPrice position)%Q ->
  exists r, shouldSellWithDollarDrop bot currentPrice data = Ok r
            /\ SellResult.shouldSell r = true.
Proof.
  intros Hpos Henabled Hle. unfold shouldSellWithDollarDrop.
  rewrite Hpos, Henabled.
  apply leb_true in Hle. rewrite Hle. cbn [andb].
  destruct (Settings.profitTakingEnabled (TradingBot.settings bot));
    [| eexists; split; reflexivity].
  match goal with
  | |- context [if ?c && (length data >=? 2) then _ else _] => destruct c
  end; cbn [andb]; [| eexists; split; reflexivity].
  destruct (Z.geb_spec (length data) 2) as [Hlen | Hlen];
    [| eexists; split; reflexivity].
  destruct (get_in_range data (length data - 2)) as [d Ed]; [lia |].
  rewrite Ed. cbn [field bind].
  match goal with
  | |- context [if ?c then _ else _] => destruct c
  end; eexists; split; reflexivity.
Qed.

(** C7: an active bot with the overlay and its sell-at-buy-price rule
    enabled, holding a position bought at 20, sells at the price 19.99,
    whatever its trading method, the series and the other settings. *)
Theorem scenario_D_sell_at_buy_price (bot : TradingBot.t)
    (position : Position.t) (data : list StockData.t) (currentPrice : number)
    (lastProcessedIndex : option Z) (g : Random) :
  TradingBot.isActive bot = true ->
  TradingBot.currentPosition bot = Some position ->
  (Position.buyPrice position == 20)%Q ->
  Settings.dollarDropEnabled (TradingBot.settings bot) = true ->
  Settings.sellAtBuyPriceEnabled (TradingBot.settings bot) = true ->
  (currentPrice == 19.99)%Q ->
  exists d,
    makeTradingDecision bot data currentPrice lastProcessedIndex g = Ok (d, g)
    /\ Decision.action d = SELL.
Proof.
  intros Hactive Hpos Hbuy Hoverlay Hrule Hprice.
  destruct (overlay_sells_at_buy_price bot position currentPrice data Hpos Hrule)
    as [r [Er Hsell]].
  { rewrite Hprice, Hbuy. discriminate. }
  unfold makeTradingDecision.
  rewrite Hactive, Hoverlay, Hpos. cbn [negb andb].
  unfold bindEff, lift. rewrite Er. cbn [bind fst snd]. rewrite Hsell.
  eexists. split; reflexivity.
Qed.

Lemma scenario_D_sell_at_buy_price_witness :
  exists d,
    makeTradingDecision
      (TradingBot.mk true
         (Settings.mk (Some price_comparison) None true false None None None
            true false None None None)
         (Some (oneShare 20)))
      (series [19; 20; 21]%Q) 19.99%Q None alwaysUp
    = Ok (d, alwaysUp)
    /\ Decision.action d = SELL.
Proof.
  apply (scenario_D_sell_at_buy_price _ (oneShare 20)); reflexivity.
Defined.

(** What [makeTradingDecision] does with the result [r] of the overlay, for
    an active bot that holds a position with the overlay enabled. *)
Lemma makeTradingDecision_after_overlay (bot : TradingBot.t)
    (position : Position.t) (data : list StockData.t) (currentPrice : number)
    (lastProcessedIndex : option Z) (g : Random) (r : SellResult.t) :
  TradingBot.isActive bot = true ->
  Settings.dollarDropEnabled (TradingBot.settings bot) = true ->
  TradingBot.currentPosition bot = Some position ->
  shouldSellWithDollarDrop bot currentPrice data = Ok r ->
  makeTradingDecision bot data currentPrice lastProcessedIndex g
  = if SellResult.shouldSell r then
      Ok (Decision.mk SELL (SellResult.reason r) None None
            (SellResult.updatePosition r), g)
    else
      match SellResult.updatePosition r with
      | Some update =>
          Ok (Decision.mk HOLD (SellResult.reason r) None None (Some update), g)
      | None => strategyDecision bot data currentPrice lastProcessedIndex g
      end.
Proof.
  intros Hactive Hoverlay Hpos Er. unfold makeTradingDecision.
  rewrite Hactive, Hoverlay, Hpos. cbn [negb andb].
  unfold bindEff, lift. rewrite Er. cbn [bind fst snd].
  destruct (SellResult.shouldSell r); [reflexivity |].
  destruct (SellResult.updatePosition r); reflexivity.
Qed.

(** C1, as stated, fails: with consecutive-falls tracking enabled the
    overlay does not sell at the price 11, yet the dispatcher returns HOLD
    with the position update, where the price-comparison rule on
    [12, 11] sells. *)
Lemma overlay_hold_preempts_strategy :
  (exists r, shouldSellWithDollarDrop trackingBot 11 (series [12; 11]%Q) = Ok r
             /\ SellResult.shouldSell r = false)
  /\ (exists d, outcome (makeTradingDecision trackingBot (series [12; 11]%Q) 11
                           None alwaysUp) = Ok d
                /\ Decision.action d = HOLD)
  /\ (exists d, outcome (strategyDecision trackingBot (series [12; 11]%Q) 11
                           None alwaysUp) = Ok d
                /\ Decision.action d = SELL).
Proof.
  split; [| split]; eexists; (split; [vm_compute; reflexivity | reflexivity]).
Qed.

(** C1, amended: for an active bot with the overlay enabled and an open
    position, the overlay returns a result, and when it does not sell, the
    dispatcher returns what the strategy evaluator of [tradingMethod]
    returns if the overlay hands back no position update, which is the case
    whenever consecutive-falls tracking is disabled; if the overlay hands
    back a position update, the dispatcher returns HOLD with that update. *)
Theorem overlay_falls_through (bot : TradingBot.t) (position : Position.t)
    (data : list StockData.t) (currentPrice : number)
    (lastProcessedIndex : option Z) (g : Random) :
  TradingBot.isActive bot = true ->
  Settings.dollarDropEnabled (TradingBot.settings bot) = true ->
  TradingBot.currentPosition bot = Some position ->
  exists r,
    shouldSellWithDollarDrop bot currentPrice data = Ok r
    /\ (SellResult.shouldSell r = false ->
        (SellResult.updatePosition r = None ->
           makeTradingDecision bot data currentPrice lastProcessedIndex g
           = strategyDecision bot data currentPrice lastProcessedIndex g)
        /\ (Settings.consecutiveFallsEnabled (TradingBot.settings bot) = false ->
              SellResult.updatePosition r = None)
        /\ (forall update, SellResult.updatePosition r = Some update ->
              makeTradingDecision bot data currentPrice lastProcessedIndex g
              = Ok (Decision.mk HOLD (SellResult.reason r) None None
                      (Some update), g))).
Proof.
  intros Hactive Hoverlay Hpos.
  destruct (shouldSellWithDollarDrop_total bot currentPrice data) as [r Er].
  exists r. split; [exact Er |]. intros Hhold.
  pose proof (makeTradingDecision_after_overlay bot position data currentPrice
                lastProcessedIndex g r Hactive Hoverlay Hpos Er) as Hmake.
  rewrite Hhold in Hmake.
  split; [| split].
  - intros Hnone. now rewrite Hnone in Hmake.
  - intros Hoff. revert Er. unfold shouldSellWithDollarDrop.
    rewrite Hpos, Hoff.
    repeat match goal with
           | |- context [if ?c then _ else _] => destruct c
           | |- context [field ?o ?f] => destruct o; cbn [field bind]
           end;
      intros E; try discriminate E; injection E as <-; reflexivity.
  - intros update Hsome. now rewrite Hsome in Hmake.
Qed.

Lemma overlay_falls_through_witness :
  makeTradingDecision
    (TradingBot.mk true
       (Settings.mk (Some price_comparison) None true false None None None
          true false None None None)
       (Some (oneShare 10)))
    (series [12; 11]%Q) 11 None alwaysUp
  = strategyDecision
      (TradingBot.mk true
         (Settings.mk (Some price_comparison) None true false None None None
            true false None None None)
         (Some (oneShare 10)))
      (series [12; 11]%Q) 11 None alwaysUp.
Proof.
  destruct (overlay_falls_through
              (TradingBot.mk true
                 (Settings.mk (Some price_comparison) None true false None None
                    None true false None None None)
                 (Some (oneShare 10)))
              (oneShare 10) (series [12; 11]%Q) 11 None alwaysUp
              eq_refl eq_refl eq_refl) as [r [Er Hfall]].
  vm_compute in Er. injection Er as <-.
  apply Hfall; reflexivity.
Defined.

(** The dispatcher of an active bot is the strategy evaluator when the
    overlay does not intercept. *)
Lemma makeTradingDecision_not_intercepted (bot : TradingBot.t)
    (data : list StockData.t) (currentPrice : number)
    (lastProcessedIndex : option Z) (g : Random) :
  TradingBot.isActive bot = true ->
  overlayIntercepts bot data currentPrice = false ->
  makeTradingDecision bot data currentPrice lastProcessedIndex g
  = strategyDecision bot data currentPrice lastProcessedIndex g.
Proof.
  intros Hactive. unfold overlayIntercepts, makeTradingDecision.
  rewrite Hactive. cbn [negb].
  destruct (Settings.dollarDropEnabled (TradingBot.settings bot)
            && match TradingBot.currentPosition bot with
               | Some _ => true
               | None => false
               end); [| reflexivity].
  cbn [andb]. unfold bindEff, lift.
  destruct (shouldSellWithDollarDrop bot currentPrice data) as [r |];
    [| discriminate].
  cbn [bind fst snd].
  destruct (SellResult.shouldSell r); [discriminate |].
  destruct (SellResult.updatePosition r); [discriminate | reflexivity].
Qed.

(** The price-comparison and slope-analysis rules read the last two samples
    of the series, not the live price. *)
Lemma strategyDecision_ignores_price (bot : TradingBot.t)
    (data : list StockData.t) (price1 price2 : number)
    (lastProcessedIndex : option Z) :
  Settings.tradingMethod (TradingBot.settings bot) = Some price_comparison
  \/ Settings.tradingMethod (TradingBot.settings bot) = Some slope_analysis ->
  strategyDecision bot data price1 lastProcessedIndex
  = strategyDecision bot data price2 lastProcessedIndex.
Proof.
  intros [Hmethod | Hmethod]; unfold strategyDecision; rewrite Hmethod;
    reflexivity.
Qed.

(** C10: with the price-comparison or the slope-analysis method, two calls
    that differ only in [currentPrice] return the same decision, provided
    the overlay intercepts neither of them. *)
Theorem comparison_methods_ignore_current_price (bot : TradingBot.t)
    (data : list StockData.t) (price1 price2 : number)
    (lastProcessedIndex : option Z) (g : Random) :
  Settings.tradingMethod (TradingBot.settings bot) = Some price_comparison
  \/ Settings.tradingMethod (TradingBot.settings bot) = Some slope_analysis ->
  overlayIntercepts bot data price1 = false ->
  overlayIntercepts bot data price2 = false ->
  makeTradingDecision bot data price1 lastProcessedIndex g
  = makeTradingDecision bot data price2 lastProcessedIndex g.
Proof.
  intros Hmethod Hfree1 Hfree2.
  destruct (TradingBot.isActive bot) eqn:Hactive.
  - rewrite !makeTradingDecision_not_intercepted by assumption.
    now rewrite (strategyDecision_ignores_price bot data price1 price2).
  - unfold makeTradingDecision. rewrite Hactive. reflexivity.
Qed.

Lemma comparison_methods_ignore_current_price_witness :
  makeTradingDecision
    (TradingBot.mk true (plainSettings price_comparison) None)
    (series [10; 10.5]%Q) 10.5 None alwaysUp
  = makeTradingDecision
      (TradingBot.mk true (plainSettings price_comparison) None)
      (series [10; 10.5]%Q) 3 None alwaysUp
  /\ makeTradingDecision trackingBot (series [12; 11]%Q) 11 None alwaysUp
     <> makeTradingDecision trackingBot (series [12; 11]%Q) 12 None alwaysUp.
Proof.
  split.
  - apply comparison_methods_ignore_current_price;
      [left; reflexivity | reflexivity | reflexivity].
  - vm_compute. discriminate.
Defined.

(** ** Determinism *)

Lemma outcome_lift {A} (m : Exc A) (g : Random) : outcome (lift m g) = m.
Proof. destruct m; reflexivity. Qed.

(** C2, as stated, fails: the same call returns HOLD when [Math.random]
    yields 0.9, and BUY when it yields 0.1 and then 0.9. *)
Lemma confirmed_recovery_depends_on_random :
  (exists d, outcome (makeTradingDecision recoveryBot (series [10; 9]%Q) 9 None
                        alwaysUp) = Ok d
             /\ Decision.action d = HOLD)
  /\ (exists d, outcome (makeTradingDecision recoveryBot (series [10; 9]%Q) 9 None
                           downThenUp) = Ok d
                /\ Decision.action d = BUY)
  /\ ~ (forall g1 g2,
          outcome (makeTradingDecision recoveryBot (series [10; 9]%Q) 9 None g1)
          = outcome (makeTradingDecision recoveryBot (series [10; 9]%Q) 9 None g2)).
Proof.
  split; [| split].
  - eexists. split; [vm_compute; reflexivity | reflexivity].
  - eexists. split; [vm_compute; reflexivity | reflexivity].
  - intros Hsame. specialize (Hsame alwaysUp downThenUp).
    vm_compute in Hsame. discriminate Hsame.
Qed.

(** The other strategy rules do not call [Math.random]. *)
Lemma strategyDecision_without_random (bot : TradingBot.t)
    (data : list StockData.t) (currentPrice : number)
    (lastProcessedIndex : option Z) (g1 g2 : Random) :
  Settings.tradingMethod (TradingBot.settings bot) <> Some confirmed_recovery
  \/ TradingBot.currentPosition bot <> None ->
  outcome (strategyDecision bot data currentPrice lastProcessedIndex g1)
  = outcome (strategyDecision bot data currentPrice lastProcessedIndex g2).
Proof.
  intros Hpath. unfold strategyDecision.
  destruct (Settings.tradingMethod (TradingBot.settings bot)) as [[| | | | |] |];
    destruct (TradingBot.currentPosition bot) as [position |];
    cbn [negb]; rewrite ?outcome_lift; try reflexivity.
  destruct Hpath as [Hpath | Hpath]; now elim Hpath.
Qed.

(** The confirmed-recovery rule calls [Math.random] at most twice. *)
Lemma shouldBuyConfirmedRecovery_two_draws (data : list StockData.t)
    (currentPrice firstDelay secondDelay : number) (g1 g2 : Random) :
  g1 0%nat = g2 0%nat -> g1 1%nat = g2 1%nat ->
  outcome (shouldBuyConfirmedRecovery data currentPrice firstDelay secondDelay g1)
  = outcome (shouldBuyConfirmedRecovery data currentPrice firstDelay secondDelay g2).
Proof.
  intros H0 H1.
  unfold shouldBuyConfirmedRecovery, simulatePriceCheckAfterDelay, bindEff,
    lift, random, Math_random, pure.
  destruct (isLastIntervalDownward data) as [[|] |]; cbn; try reflexivity.
  rewrite H0.
  destruct (gtb (mul currentPrice (add 1 (mul (sub (g2 0%nat) 0.5) 0.01)))
              (double currentPrice));
    cbn; [reflexivity |].
  rewrite H1.
  match goal with
  | |- context [if ?c then _ else _] => destruct c
  end; reflexivity.
Qed.

Lemma strategyDecision_two_draws (bot : TradingBot.t)
    (data : list StockData.t) (currentPrice : number)
    (lastProcessedIndex : option Z) (g1 g2 : Random) :
  g1 0%nat = g2 0%nat -> g1 1%nat = g2 1%nat ->
  outcome (strategyDecision bot data currentPrice lastProcessedIndex g1)
  = outcome (strategyDecision bot data currentPrice lastProcessedIndex g2).
Proof.
  intros H0 H1.
  destruct (Settings.tradingMethod (TradingBot.settings bot)) as [method |] eqn:Hm.
  2: { apply strategyDecision_without_random. left. congruence. }
  destruct (TradingBot.currentPosition bot) as [position |] eqn:Hp.
  { apply strategyDecision_without_random. right. congruence. }
  destruct method;
    try (apply strategyDecision_without_random; left; congruence).
  unfold strategyDecision. rewrite Hm, Hp. cbn [negb].
  pose proof (shouldBuyConfirmedRecovery_two_draws data currentPrice
                (orDefault (Settings.confirmedRecoveryFirstDelay
                              (TradingBot.settings bot)) 15)
                (orDefault (Settings.confirmedRecoverySecondDelay
                              (TradingBot.settings bot)) 30)
                g1 g2 H0 H1) as Hsame.
  unfold bindEff, pure.
  destruct (shouldBuyConfirmedRecovery data currentPrice _ _ g1) as [[r1 g1'] |];
    destruct (shouldBuyConfirmedRecovery data currentPrice _ _ g2) as [[r2 g2'] |];
    cbn in Hsame |- *; try discriminate Hsame; try reflexivity.
  injection Hsame as ->. reflexivity.
Qed.

(** The overlay and the test for an inactive bot do not call
    [Math.random]. *)
Lemma makeTradingDecision_outcome (bot : TradingBot.t)
    (data : list StockData.t) (currentPrice : number)
    (lastProcessedIndex : option Z) (g1 g2 : Random) :
  outcome (strategyDecision bot data currentPrice lastProcessedIndex g1)
  = outcome (strategyDecision bot data currentPrice lastProcessedIndex g2) ->
  outcome (makeTradingDecision bot data currentPrice lastProcessedIndex g1)
  = outcome (makeTradingDecision bot data currentPrice lastProcessedIndex g2).
Proof.
  intros Hstrategy. unfold makeTradingDecision.
  destruct (TradingBot.isActive bot); cbn [negb]; [| reflexivity].
  destruct (Settings.dollarDropEnabled (TradingBot.settings bot)
            && match TradingBot.currentPosition bot with
               | Some _ => true
               | None => false
               end); [| exact Hstrategy].
  unfold bindEff, lift.
  destruct (shouldSellWithDollarDrop bot currentPrice data) as [r |];
    cbn [bind fst snd]; [| reflexivity].
  destruct (SellResult.shouldSell r); [reflexivity |].
  destruct (SellResult.updatePosition r); [reflexivity | exact Hstrategy].
Qed.

(** C2, amended: two calls with identical arguments return the same
    decision, field by field, whenever the bot is inactive, holds a
    position, or uses a method other than confirmed recovery; on the buy
    path of confirmed recovery they do so when [Math.random] yields the
    same two values in both calls. *)
Theorem decision_determined_up_to_random (bot : TradingBot.t)
    (data : list StockData.t) (currentPrice : number)
    (lastProcessedIndex : option Z) (g1 g2 : Random) :
  TradingBot.isActive bot = false
  \/ Settings.tradingMethod (TradingBot.settings bot) <> Some confirmed_recovery
  \/ TradingBot.currentPosition bot <> None
  \/ (g1 0%nat = g2 0%nat /\ g1 1%nat = g2 1%nat) ->
  outcome (makeTradingDecision bot data currentPrice lastProcessedIndex g1)
  = outcome (makeTradingDecision bot data currentPrice lastProcessedIndex g2).
Proof.
  intros [Hinactive | [Hmethod | [Hposition | [H0 H1]]]].
  - unfold makeTradingDecision. rewrite Hinactive. reflexivity.
  - apply makeTradingDecision_outcome, strategyDecision_without_random.
    now left.
  - apply makeTradingDecision_outcome, strategyDecision_without_random.
    now right.
  - now apply makeTradingDecision_outcome, strategyDecision_two_draws.
Qed.

Lemma decision_determined_up_to_random_witness :
  outcome (makeTradingDecision trackingBot (series [12; 11]%Q) 11 None alwaysUp)
  = outcome (makeTradingDecision trackingBot (series [12; 11]%Q) 11 None downThenUp).
Proof.
  apply decision_determined_up_to_random. right. left. discriminate.
Defined.

(** * Further properties of the detectors and of the dispatcher *)

(** ** Direction-change points are the strict local extrema *)

Lemma snoc_sorted {A} (R : A -> A -> Prop) (l : list A) (y : A) :
  StronglySorted R l -> (forall x, In x l -> R x y) ->
  StronglySorted R (l ++ [y]).
Proof.
  induction 1 as [| x l Hsorted IH Hx]; intros Hy; cbn [app].
  - constructor; [constructor | constructor].
  - constructor.
    + apply IH. intros z Hz. apply Hy. now right.
    + apply Forall_app. split; [exact Hx |].
      constructor; [apply Hy; now left | constructor].
Qed.

Lemma localMin_test (data : list StockData.t) (i : Z) (a b c : StockData.t) :
  data.[i - 1] = Some a -> data.[i] = Some b -> data.[i + 1] = Some c ->
  (localMin data i <->
   gtb (StockData.price a) (StockData.price b)
   && ltb (StockData.price b) (StockData.price c) = true).
Proof.
  intros Ea Eb Ec. unfold gtb. rewrite andb_true_iff, !ltb_true. split.
  - intros [a' [b' [c' [Ea' [Eb' [Ec' H]]]]]].
    rewrite Ea in Ea'. rewrite Eb in Eb'. rewrite Ec in Ec'.
    injection Ea' as <-. injection Eb' as <-. injection Ec' as <-. exact H.
  - intros H. now exists a, b, c.
Qed.

Lemma localMax_test (data : list StockData.t) (i : Z) (a b c : StockData.t) :
  data.[i - 1] = Some a -> data.[i] = Some b -> data.[i + 1] = Some c ->
  (localMax data i <->
   ltb (StockData.price a) (StockData.price b)
   && gtb (StockData.price b) (StockData.price c) = true).
Proof.
  intros Ea Eb Ec. unfold gtb. rewrite andb_true_iff, !ltb_true. split.
  - intros [a' [b' [c' [Ea' [Eb' [Ec' H]]]]]].
    rewrite Ea in Ea'. rewrite Eb in Eb'. rewrite Ec in Ec'.
    injection Ea' as <-. injection Eb' as <-. injection Ec' as <-. exact H.
  - intros H. now exists a, b, c.
Qed.

(** A sample is not a minimum and a maximum at once. *)
Lemma localMin_not_localMax (data : list StockData.t) (i : Z) :
  localMin data i -> localMax data i -> False.
Proof.
  intros [a [b [c [Ea [Eb [_ [Hlow _]]]]]]] [a' [b' [c' [Ea' [Eb' [_ [Hhigh _]]]]]]].
  rewrite Ea in Ea'. rewrite Eb in Eb'.
  injection Ea' as <-. injection Eb' as <-.
  exact (Qlt_irrefl _ (Qlt_trans _ _ _ Hlow Hhigh)).
Qed.

(** Pushing the point found at sample [j] keeps the invariant. *)
Lemma directionScan_push (data : list StockData.t) (j : Z)
    (points : list DirectionChangePoint.t) (p : DirectionChangePoint.t) :
  directionScan data j points ->
  DirectionChangePoint.index p = j -> pointOf data p ->
  directionScan data (j + 1) (points ++ [p]).
Proof.
  intros [Hsound [Hmin [Hmax Hasc]]] Hindex Hpoint.
  assert (Hkind : match DirectionChangePoint.type p with
                  | valley => localMin data j
                  | peak => localMax data j
                  end).
  { destruct Hpoint as [b [_ [_ [_ H]]]]. now rewrite Hindex in H. }
  split; [| split; [| split]].
  - intros q Hq. apply in_app_or in Hq. destruct Hq as [Hq | [<- | []]].
    + destruct (Hsound q Hq) as [Hlt Hq']. split; [lia | exact Hq'].
    + split; [lia | exact Hpoint].
  - intros k Hk Hlow. destruct (Z.eq_dec k j) as [-> | Hne].
    + exists p. split; [apply in_or_app; right; now left |].
      split; [exact Hindex |].
      destruct (DirectionChangePoint.type p); [| reflexivity].
      exfalso. exact (localMin_not_localMax data j Hlow Hkind).
    + destruct (Hmin k) as [q [Hq Hq']]; [lia | exact Hlow |].
      exists q. split; [apply in_or_app; now left | exact Hq'].
  - intros k Hk Hhigh. destruct (Z.eq_dec k j) as [-> | Hne].
    + exists p. split; [apply in_or_app; right; now left |].
      split; [exact Hindex |].
      destruct (DirectionChangePoint.type p); [reflexivity |].
      exfalso. exact (localMin_not_localMax data j Hkind Hhigh).
    + destruct (Hmax k) as [q [Hq Hq']]; [lia | exact Hhigh |].
      exists q. split; [apply in_or_app; now left | exact Hq'].
  - apply snoc_sorted; [exact Hasc |].
    intros q Hq. destruct (Hsound q Hq) as [Hlt _]. lia.
Qed.

(** Passing a sample that is no extremum keeps the invariant. *)
Lemma directionScan_skip (data : list StockData.t) (j : Z)
    (points : list DirectionChangePoint.t) :
  directionScan data j points ->
  ~ localMin data j -> ~ localMax data j ->
  directionScan data (j + 1) points.
Proof.
  intros [Hsound [Hmin [Hmax Hasc]]] Hnomin Hnomax.
  split; [| split; [| split]].
  - intros q Hq. destruct (Hsound q Hq) as [Hlt Hq']. split; [lia | exact Hq'].
  - intros k Hk Hlow. destruct (Z.eq_dec k j) as [-> | Hne];
      [now elim Hnomin | apply Hmin; [lia | exact Hlow]].
  - intros k Hk Hhigh. destruct (Z.eq_dec k j) as [-> | Hne];
      [now elim Hnomax | apply Hmax; [lia | exact Hhigh]].
  - exact Hasc.
Qed.

Lemma getDirectionChangePoints_scan (data : list StockData.t) :
  exists points,
    getDirectionChangePoints data = Ok points
    /\ directionScan data (length data - 1) points.
Proof.
  unfold getDirectionChangePoints.
  destruct (Z.ltb_spec (length data) 3) as [Hshort | Hlong].
  - exists []. split; [reflexivity |].
    split; [intros p [] | split; [| split; [| constructor]]].
    + intros j _ [a [b [c [Ea [_ [Ec _]]]]]].
      apply get_Some_range in Ea, Ec. lia.
    + intros j _ [a [b [c [Ea [_ [Ec _]]]]]].
      apply get_Some_range in Ea, Ec. lia.
  - match goal with
    | |- context [forRange ?lo ?hi ?body ?s] =>
        apply (forRange_ok (directionScan data) body lo hi s)
    end.
    + lia.
    + split; [intros p [] | split; [| split; [| constructor]]].
      * intros j Hj [a [b [c [Ea _]]]]. apply get_Some_range in Ea. lia.
      * intros j Hj [a [b [c [Ea _]]]]. apply get_Some_range in Ea. lia.
    + intros j points Hj Hscan.
      destruct (get_in_range data (j - 1)) as [a Ea]; [lia |].
      destruct (get_in_range data j) as [b Eb]; [lia |].
      destruct (get_in_range data (j + 1)) as [c Ec]; [lia |].
      rewrite Ea, Eb, Ec. cbn [field bind].
      pose proof (localMin_test data j a b c Ea Eb Ec) as Hmin.
      pose proof (localMax_test data j a b c Ea Eb Ec) as Hmax.
      destruct (gtb (StockData.price a) (StockData.price b)
                && ltb (StockData.price b) (StockData.price c)).
      { eexists. split; [reflexivity |].
        apply directionScan_push; [exact Hscan | reflexivity |].
        exists b. cbn. rewrite Eb. repeat split. now apply Hmin. }
      destruct (ltb (StockData.price a) (StockData.price b)
                && gtb (StockData.price b) (StockData.price c)).
      { eexists. split; [reflexivity |].
        apply directionScan_push; [exact Hscan | reflexivity |].
        exists b. cbn. rewrite Eb. repeat split. now apply Hmax. }
      eexists. split; [reflexivity |].
      apply directionScan_skip; [exact Hscan | |].
      * intros H. apply Hmin in H. discriminate H.
      * intros H. apply Hmax in H. discriminate H.
Qed.

(** X1: every direction-change point that is returned carries the price and
    the timestamp of the sample at its index, and that sample is a strict
    local minimum when the point is a valley and a strict local maximum
    when it is a peak. *)
Theorem direction_changes_are_extrema (data : list StockData.t) :
  exists points,
    getDirectionChangePoints data = Ok points
    /\ forall p, In p points ->
         exists b,
           data.[DirectionChangePoint.index p] = Some b
           /\ DirectionChangePoint.price p = StockData.price b
           /\ DirectionChangePoint.timestamp p = StockData.timestamp b
           /\ (DirectionChangePoint.type p = valley ->
               localMin data (DirectionChangePoint.index p))
           /\ (DirectionChangePoint.type p = peak ->
               localMax data (DirectionChangePoint.index p)).
Proof.
  destruct (getDirectionChangePoints_scan data) as [points [E [Hsound _]]].
  exists points. split; [exact E |].
  intros p Hp. destruct (Hsound p Hp) as [_ [b [Eb [Hprice [Htime Hkind]]]]].
  exists b. repeat split; try assumption.
  - intros Hv. now rewrite Hv in Hkind.
  - intros Hk. now rewrite Hk in Hkind.
Qed.

(** X2: no extremum is missed: every sample that lies strictly below both
    neighbours is returned as a valley, and every sample that lies strictly
    above both neighbours is returned as a peak. *)
Theorem every_extremum_is_reported (data : list StockData.t) :
  exists points,
    getDirectionChangePoints data = Ok points
    /\ (forall i, localMin data i ->
          exists p, In p points /\ DirectionChangePoint.index p = i
                    /\ DirectionChangePoint.type p = valley)
    /\ (forall i, localMax data i ->
          exists p, In p points /\ DirectionChangePoint.index p = i
                    /\ DirectionChangePoint.type p = peak).
Proof.
  destruct (getDirectionChangePoints_scan data) as [points [E [_ [Hmin [Hmax _]]]]].
  exists points. split; [exact E |]. split.
  - intros i Hlow. apply Hmin; [| exact Hlow].
    destruct Hlow as [a [b [c [_ [_ [Ec _]]]]]]. apply get_Some_range in Ec. lia.
  - intros i Hhigh. apply Hmax; [| exact Hhigh].
    destruct Hhigh as [a [b [c [_ [_ [Ec _]]]]]]. apply get_Some_range in Ec. lia.
Qed.

(** X3: the points are returned in chronological order, no index twice:
    of two points, the one that comes first in the array has the smaller
    index. *)
Theorem direction_changes_in_order (data : list StockData.t) :
  exists points,
    getDirectionChangePoints data = Ok points
    /\ forall m n p q,
         points.[m] = Some p -> points.[n] = Some q -> m < n ->
         DirectionChangePoint.index p < DirectionChangePoint.index q.
Proof.
  destruct (getDirectionChangePoints_scan data) as [points [E [_ [_ [_ Hasc]]]]].
  exists points. split; [exact E |].
  unfold ascending in Hasc. clear E.
  induction Hasc as [| x l Hsorted IH Hx]; intros m n p q Hp Hq Hmn.
  - apply get_Some_range in Hp. unfold length in Hp. cbn in Hp. lia.
  - pose proof (get_Some_range _ _ _ Hp) as Hm.
    pose proof (get_Some_range _ _ _ Hq) as Hn.
    unfold get in Hp, Hq.
    destruct (Z.ltb_spec m 0) as [| _]; [lia |].
    destruct (Z.ltb_spec n 0) as [| _]; [lia |].
    destruct (Z.to_nat n) as [| n'] eqn:En; [lia |].
    cbn [nth_error] in Hq.
    destruct (Z.to_nat m) as [| m'] eqn:Em; cbn [nth_error] in Hp.
    + injection Hp as <-.
      rewrite Forall_forall in Hx. apply Hx. exact (nth_error_In _ _ Hq).
    + apply (IH (Z.of_nat m') (Z.of_nat n')); [| | lia].
      * unfold get. destruct (Z.ltb_spec (Z.of_nat m') 0); [lia |].
        now rewrite Nat2Z.id.
      * unfold get. destruct (Z.ltb_spec (Z.of_nat n') 0); [lia |].
        now rewrite Nat2Z.id.
Qed.

(** ** Strategy evaluators *)

(** The last element of an array that is not empty. *)
Lemma last_in_range {A} (a : list A) :
  (length a =? 0) = false -> exists x, a.[length a - 1] = Some x.
Proof.
  intros E. apply Z.eqb_neq in E. pose proof (length_nonneg a).
  apply get_in_range. lia.
Qed.

(** Both trend-reversal rules look at the last direction-change point. *)
Lemma trendReversal_last (data : list StockData.t) :
  exists last,
    getLastDirectionChangePoint data = Ok last
    /\ shouldBuyTrendReversal data
       = Ok match last with
            | Some p => match DirectionChangePoint.type p with
                        | valley => true
                        | peak => false
                        end
            | None => false
            end
    /\ shouldSellTrendReversal data
       = Ok match last with
            | Some p => match DirectionChangePoint.type p with
                        | peak => true
                        | valley => false
                        end
            | None => false
            end.
Proof.
  destruct (getDirectionChangePoints_interior data) as [points [E Hall]].
  unfold getLastDirectionChangePoint, shouldBuyTrendReversal,
    shouldSellTrendReversal.
  rewrite E. cbn [bind]. eexists. split; [reflexivity |].
  pose proof (length_nonneg points) as Hlen.
  destruct (Z.eqb_spec (length points) 0) as [Hnone | Hsome].
  - destruct (Z.gtb_spec (length points) 0) as [| _]; [lia |].
    now destruct (length data <? 3).
  - destruct (Z.gtb_spec (length points) 0) as [_ |]; [| lia].
    destruct (get_in_range points (length points - 1)) as [p Ep]; [lia |].
    rewrite Ep. cbn [field bind].
    destruct (Z.ltb_spec (length data) 3) as [Hshort | _]; [| now split].
    apply get_Some_In, Hall in Ep. unfold interior in Ep. lia.
Qed.

(** X4: the trend-reversal rules follow the last direction-change point:
    the buy rule holds exactly when that point is a valley, the sell rule
    exactly when it is a peak, so the two never hold together, and neither
    holds when the series has no direction change. *)
Theorem trend_reversal_follows_last_point (data : list StockData.t) :
  exists buy sell last,
    shouldBuyTrendReversal data = Ok buy
    /\ shouldSellTrendReversal data = Ok sell
    /\ getLastDirectionChangePoint data = Ok last
    /\ (buy = true <->
        exists p, last = Some p /\ DirectionChangePoint.type p = valley)
    /\ (sell = true <->
        exists p, last = Some p /\ DirectionChangePoint.type p = peak)
    /\ buy && sell = false.
Proof.
  destruct (trendReversal_last data) as [last [Elast [Ebuy Esell]]].
  eexists. eexists. exists last.
  split; [exact Ebuy |]. split; [exact Esell |]. split; [exact Elast |].
  destruct last as [p |].
  - destruct (DirectionChangePoint.type p) eqn:Hty; repeat split;
      try discriminate; try (intros _; exists p; now split);
      intros [q [Hq Hq']]; injection Hq as <-; congruence.
  - repeat split; try discriminate; intros [q [Hq _]]; discriminate Hq.
Qed.

(** X5: the direction-change-buy rule fires once for a valley: when it
    signals a buy, the point it hands back is the last direction change of
    the series, a valley whose index is beyond [lastProcessedIndex], and a
    call on the same series with that index as [lastProcessedIndex]
    signals no buy. *)
Theorem direction_change_buy_fires_once (data : list StockData.t)
    (lastProcessedIndex : option Z) (r : BuyNew.t) :
  shouldBuyDirectionChangeBuy data lastProcessedIndex = Ok r ->
  BuyNew.shouldBuy r = true ->
  exists p,
    BuyNew.newDirectionChange r = Some p
    /\ DirectionChangePoint.type p = valley
    /\ getLastDirectionChangePoint data = Ok (Some p)
    /\ (forall processed, lastProcessedIndex = Some processed ->
                          processed < DirectionChangePoint.index p)
    /\ shouldBuyDirectionChangeBuy data (Some (DirectionChangePoint.index p))
       = Ok (BuyNew.mk false None).
Proof.
  unfold shouldBuyDirectionChangeBuy, getLastDirectionChangePoint.
  destruct (length data <? 3); [intros E; injection E as <-; discriminate |].
  destruct (getDirectionChangePoints data) as [points |]; cbn [bind];
    [| discriminate].
  pose proof (length_nonneg points) as Hlen.
  destruct (Z.eqb_spec (length points) 0) as [Hnone | Hsome];
    [intros E; injection E as <-; discriminate |].
  destruct (Z.gtb_spec (length points) 0) as [_ |]; [| lia].
  destruct (get_in_range points (length points - 1)) as [p Ep]; [lia |].
  rewrite Ep. cbn [field bind].
  intros E Hbuy. injection E as <-. cbn in Hbuy. rewrite Hbuy.
  apply andb_true_iff in Hbuy. destruct Hbuy as [Hvalley Hnew].
  exists p. split; [reflexivity |].
  destruct (DirectionChangePoint.type p); [discriminate Hvalley |].
  split; [reflexivity |]. split; [reflexivity |]. split.
  - intros processed ->. apply Z.gtb_lt in Hnew. exact Hnew.
  - now rewrite Z.gtb_ltb, Z.ltb_irrefl.
Qed.

Lemma direction_change_buy_fires_once_witness :
  exists p,
    DirectionChangePoint.index p = 5
    /\ shouldBuyDirectionChangeBuy (series [10; 11; 12; 13; 12; 11; 12]%Q) (Some 3)
       = Ok (BuyNew.mk true (Some p))
    /\ shouldBuyDirectionChangeBuy (series [10; 11; 12; 13; 12; 11; 12]%Q)
         (Some (DirectionChangePoint.index p))
       = Ok (BuyNew.mk false None).
Proof.
  destruct (direction_change_buy_fires_once
              (series [10; 11; 12; 13; 12; 11; 12]%Q) (Some 3)
              (BuyNew.mk true
                 (Some (DirectionChangePoint.mk 5 300000 11 valley)))
              eq_refl eq_refl) as [p [Ep [_ [_ [_ Hagain]]]]].
  cbn in Ep. injection Ep as <-.
  exists (DirectionChangePoint.mk 5 300000 11 valley).
  split; [reflexivity |]. split; [reflexivity | exact Hagain].
Defined.

(** The rules on the last two samples: they agree pairwise, and hold only
    on a series of two samples or more. *)
Lemma comparison_rules (data : list StockData.t) :
  exists up down,
    shouldBuyPriceComparison data = Ok up
    /\ shouldSellPriceComparison data = Ok down
    /\ shouldBuySlopeAnalysis data = Ok up
    /\ shouldSellSlopeAnalysis data = Ok down
    /\ isLastIntervalDownward data = Ok down
    /\ ((length data >=? 2) = true ->
        exists cur prev,
          data.[length data - 1] = Some cur
          /\ data.[length data - 2] = Some prev
          /\ lastTwoPrices data = Ok (StockData.price cur, StockData.price prev)
          /\ up = gtb (StockData.price cur) (StockData.price prev)
          /\ down = ltb (StockData.price cur) (StockData.price prev))
    /\ ((length data >=? 2) = false -> up = false /\ down = false).
Proof.
  unfold shouldBuyPriceComparison, shouldSellPriceComparison,
    shouldBuySlopeAnalysis, shouldSellSlopeAnalysis, isLastIntervalDownward,
    lastTwoPrices.
  destruct (Z.ltb_spec (length data) 2) as [Hshort | Hlong].
  - exists false, false. do 5 (split; [reflexivity |]). split.
    + intros H. apply Z.geb_le in H. lia.
    + intros _. now split.
  - destruct (get_in_range data (length data - 1)) as [cur Ecur]; [lia |].
    destruct (get_in_range data (length data - 2)) as [prev Eprev]; [lia |].
    rewrite Ecur, Eprev. cbn [field bind].
    eexists. eexists. do 5 (split; [reflexivity |]). split.
    + intros _. exists cur, prev. repeat split.
    + intros H. destruct (Z.geb_spec (length data) 2); [discriminate H | lia].
Qed.

Lemma shouldBuyDirectionChangeBuy_total (data : list StockData.t)
    (lastProcessedIndex : option Z) :
  exists r, shouldBuyDirectionChangeBuy data lastProcessedIndex = Ok r.
Proof.
  unfold shouldBuyDirectionChangeBuy.
  destruct (length data <? 3); [eexists; reflexivity |].
  destruct (getDirectionChangePoints_interior data) as [points [E _]].
  rewrite E. cbn [bind].
  destruct (length points =? 0) eqn:Hnone; [eexists; reflexivity |].
  destruct (last_in_range points Hnone) as [p Ep].
  rewrite Ep. cbn [field bind]. eexists. reflexivity.
Qed.

Lemma shouldBuyDirectionChangeReference_total (data : list StockData.t)
    (currentPrice : number) :
  exists r, shouldBuyDirectionChangeReference data currentPrice = Ok r.
Proof.
  unfold shouldBuyDirectionChangeReference.
  destruct (trendReversal_last data) as [last [E _]].
  rewrite E. cbn [bind]. destruct last; eexists; reflexivity.
Qed.

Lemma shouldBuyConfirmedRecovery_total (data : list StockData.t)
    (currentPrice firstDelay secondDelay : number) (g : Random) :
  exists r g',
    shouldBuyConfirmedRecovery data currentPrice firstDelay secondDelay g
    = Ok (r, g').
Proof.
  destruct (comparison_rules data) as [up [down [_ [_ [_ [_ [E _]]]]]]].
  unfold shouldBuyConfirmedRecovery, simulatePriceCheckAfterDelay, bindEff,
    lift, random, pure.
  rewrite E. cbn [bind fst snd negb Math_random PriceCheck.isUpward
                    PriceCheck.price].
  destruct down; cbn [negb]; [| eexists; eexists; reflexivity].
  case_ifs; eexists; eexists; reflexivity.
Qed.

(** The strategy part never throws; it buys only for a bot without
    position and sells only for a bot with one. *)
Lemma strategyDecision_sound (bot : TradingBot.t) (data : list StockData.t)
    (currentPrice : number) (lastProcessedIndex : option Z) (g : Random) :
  exists d g',
    strategyDecision bot data currentPrice lastProcessedIndex g = Ok (d, g')
    /\ (Decision.action d = BUY -> TradingBot.currentPosition bot = None)
    /\ (Decision.action d = SELL -> TradingBot.currentPosition bot <> None).
Proof.
  destruct (comparison_rules data)
    as [up [down [Ebuy [Esell [Ebuy' [Esell' [_ [Hlong Hshort]]]]]]]].
  destruct (trendReversal_last data) as [last [_ [Etbuy Etsell]]].
  destruct (shouldBuyDirectionChangeReference_total data currentPrice)
    as [ref Eref].
  destruct (shouldBuyDirectionChangeBuy_total data lastProcessedIndex)
    as [new Enew].
  destruct (shouldBuyConfirmedRecovery_total data currentPrice
              (orDefault (Settings.confirmedRecoveryFirstDelay
                            (TradingBot.settings bot)) 15)
              (orDefault (Settings.confirmedRecoverySecondDelay
                            (TradingBot.settings bot)) 30) g)
    as [rec [g' Erec]].
  unfold strategyDecision, lift, bindEff, pure. cbv zeta.
  rewrite Ebuy, Esell, Ebuy', Esell', Etbuy, Etsell, Eref, Enew.
  destruct (length data >=? 2).
  - destruct (Hlong eq_refl) as [cur [prev [_ [_ [Etwo _]]]]]. rewrite Etwo.
    destruct (Settings.tradingMethod (TradingBot.settings bot)) as [[| | | | |] |];
      destruct (TradingBot.currentPosition bot) as [position |];
      cbn [negb bind fst snd]; rewrite ?Erec; cbn [bind fst snd];
      case_ifs; cbn [bind];
      try (destruct (BuyReference.shouldBuy ref);
           destruct (BuyReference.referencePoint ref));
      try (destruct (BuyNew.shouldBuy new);
           destruct (BuyNew.newDirectionChange new));
      eexists; eexists; (split; [reflexivity |]);
      split; cbn; congruence.
  - destruct (Hshort eq_refl) as [-> ->].
    destruct (Settings.tradingMethod (TradingBot.settings bot)) as [[| | | | |] |];
      destruct (TradingBot.currentPosition bot) as [position |];
      cbn [negb bind fst snd andb]; rewrite ?Erec; cbn [bind fst snd];
      case_ifs; cbn [bind];
      try (destruct (BuyReference.shouldBuy ref);
           destruct (BuyReference.referencePoint ref));
      try (destruct (BuyNew.shouldBuy new);
           destruct (BuyNew.newDirectionChange new));
      eexists; eexists; (split; [reflexivity |]);
      split; cbn; congruence.
Qed.

(** ** The dispatcher as a whole *)

Lemma makeTradingDecision_sound (bot : TradingBot.t) (data : list StockData.t)
    (currentPrice : number) (lastProcessedIndex : option Z) (g : Random) :
  exists d g',
    makeTradingDecision bot data currentPrice lastProcessedIndex g = Ok (d, g')
    /\ (Decision.action d = BUY -> TradingBot.currentPosition bot = None)
    /\ (Decision.action d = SELL -> TradingBot.currentPosition bot <> None).
Proof.
  destruct (strategyDecision_sound bot data currentPrice lastProcessedIndex g)
    as [d [g' [E [Hbuy Hsell]]]].
  destruct (shouldSellWithDollarDrop_total bot currentPrice data) as [r Er].
  unfold makeTradingDecision, bindEff, lift, pure. rewrite Er.
  destruct (TradingBot.isActive bot); cbn [negb].
  2: { eexists. eexists. split; [reflexivity |]. split; discriminate. }
  destruct (Settings.dollarDropEnabled (TradingBot.settings bot)); cbn [andb].
  2: { exists d, g'. now split. }
  destruct (TradingBot.currentPosition bot) as [position |] eqn:Hpos.
  2: { exists d, g'. now split. }
  cbn [bind fst snd].
  destruct (SellResult.shouldSell r).
  { eexists. eexists. split; [reflexivity |]. split; discriminate. }
  destruct (SellResult.updatePosition r).
  { eexists. eexists. split; [reflexivity |]. split; discriminate. }
  exists d, g'. now split.
Qed.

(** X6: the dispatcher never throws: whatever the bot, the series, the
    live price and the values of [Math.random], a call returns a
    decision. *)
Theorem dispatcher_never_throws (bot : TradingBot.t) (data : list StockData.t)
    (currentPrice : number) (lastProcessedIndex : option Z) (g : Random) :
  exists d g',
    makeTradingDecision bot data currentPrice lastProcessedIndex g = Ok (d, g').
Proof.
  destruct (makeTradingDecision_sound bot data currentPrice lastProcessedIndex g)
    as [d [g' [E _]]].
  now exists d, g'.
Qed.

(** X7: the dispatcher proposes BUY only for a bot that holds no position,
    and SELL only for a bot that holds one. *)
Theorem dispatcher_respects_position (bot : TradingBot.t)
    (data : list StockData.t) (currentPrice : number)
    (lastProcessedIndex : option Z) (g g' : Random) (d : Decision.t) :
  makeTradingDecision bot data currentPrice lastProcessedIndex g = Ok (d, g') ->
  (Decision.action d = BUY -> TradingBot.currentPosition bot = None)
  /\ (Decision.action d = SELL -> TradingBot.currentPosition bot <> None).
Proof.
  intros E.
  destruct (makeTradingDecision_sound bot data currentPrice lastProcessedIndex g)
    as [d' [g'' [E' H]]].
  rewrite E in E'. injection E' as <- <-. exact H.
Qed.

Lemma dispatcher_respects_position_witness :
  TradingBot.currentPosition
    (TradingBot.mk true (plainSettings price_comparison) (Some (oneShare 10)))
  <> None
  /\ TradingBot.currentPosition
       (TradingBot.mk true (plainSettings price_comparison) None) = None.
Proof.
  split.
  - eapply (dispatcher_respects_position
              (TradingBot.mk true (plainSettings price_comparison)
                 (Some (oneShare 10)))
              (series [12; 10]%Q) 10 None alwaysUp);
      [vm_compute; reflexivity | reflexivity].
  - eapply (dispatcher_respects_position
              (TradingBot.mk true (plainSettings price_comparison) None)
              (series [10; 10.5]%Q) 10.5 None alwaysUp);
      [vm_compute; reflexivity | reflexivity].
Defined.

(** X8: the price-comparison method and the slope-analysis method take the
    same action on every input: two bots that differ only in which of the
    two methods they use buy, sell and hold together. *)
Theorem comparison_and_slope_trade_alike (bot : TradingBot.t)
    (data : list StockData.t) (currentPrice : number)
    (lastProcessedIndex : option Z) (g : Random) :
  actionOf (makeTradingDecision (withMethod bot price_comparison) data
              currentPrice lastProcessedIndex g)
  = actionOf (makeTradingDecision (withMethod bot slope_analysis) data
                currentPrice lastProcessedIndex g).
Proof.
  assert (Hstrategy :
            actionOf (strategyDecision (withMethod bot price_comparison) data
                        currentPrice lastProcessedIndex g)
            = actionOf (strategyDecision (withMethod bot slope_analysis) data
                          currentPrice lastProcessedIndex g)).
  { destruct (comparison_rules data)
      as [up [down [Ebuy [Esell [Ebuy' [Esell' [_ [Hlong Hshort]]]]]]]].
    unfold strategyDecision, lift. cbn.
    rewrite Ebuy, Esell, Ebuy', Esell'. cbn [bind].
    destruct (length data >=? 2).
    - destruct (Hlong eq_refl) as [cur [prev [_ [_ [Etwo _]]]]]. rewrite Etwo.
      destruct (TradingBot.currentPosition bot); cbn [negb];
        destruct up; destruct down; reflexivity.
    - destruct (Hshort eq_refl) as [-> ->].
      destruct (TradingBot.currentPosition bot); reflexivity. }
  unfold makeTradingDecision, bindEff, lift, pure.
  change (shouldSellWithDollarDrop (withMethod bot price_comparison)
            currentPrice data)
    with (shouldSellWithDollarDrop bot currentPrice data).
  change (shouldSellWithDollarDrop (withMethod bot slope_analysis)
            currentPrice data)
    with (shouldSellWithDollarDrop bot currentPrice data).
  cbn [withMethod TradingBot.isActive TradingBot.settings
         TradingBot.currentPosition Settings.dollarDropEnabled].
  destruct (TradingBot.isActive bot); cbn [negb]; [| reflexivity].
  destruct (Settings.dollarDropEnabled (TradingBot.settings bot)
            && match TradingBot.currentPosition bot with
               | Some _ => true
               | None => false
               end); [| exact Hstrategy].
  destruct (shouldSellWithDollarDrop bot currentPrice data) as [r |];
    cbn [bind fst snd]; [| reflexivity].
  destruct (SellResult.shouldSell r); [reflexivity |].
  destruct (SellResult.updatePosition r); [reflexivity | exact Hstrategy].
Qed.

Lemma direction_rules_short (data : list StockData.t) (currentPrice : number)
    (lastProcessedIndex : option Z) :
  length data < 3 ->
  shouldBuyTrendReversal data = Ok false
  /\ shouldBuyDirectionChangeReference data currentPrice
     = Ok (BuyReference.mk false None)
  /\ shouldBuyDirectionChangeBuy data lastProcessedIndex
     = Ok (BuyNew.mk false None).
Proof.
  intros Hshort.
  unfold shouldBuyTrendReversal, shouldBuyDirectionChangeReference,
    shouldBuyDirectionChangeBuy, getLastDirectionChangePoint,
    getDirectionChangePoints.
  destruct (Z.ltb_spec (length data) 3) as [_ | Hlong]; [| lia].
  repeat split.
Qed.

Lemma comparison_rules_short (data : list StockData.t) :
  length data < 2 ->
  shouldBuyPriceComparison data = Ok false
  /\ shouldBuySlopeAnalysis data = Ok false
  /\ forall currentPrice firstDelay secondDelay g,
       exists r,
         shouldBuyConfirmedRecovery data currentPrice firstDelay secondDelay g
         = Ok (r, g)
         /\ BuyResult.shouldBuy r = false.
Proof.
  intros Hshort.
  unfold shouldBuyPriceComparison, shouldBuySlopeAnalysis,
    shouldBuyConfirmedRecovery, isLastIntervalDownward.
  destruct (Z.ltb_spec (length data) 2) as [_ | Hlong]; [| lia].
  split; [reflexivity |]. split; [reflexivity |].
  intros currentPrice firstDelay secondDelay g.
  eexists. split; reflexivity.
Qed.

(** X9: a bot without position does not buy before the series is long
    enough: it holds on fewer than 2 samples whatever its method, and on
    fewer than 3 samples with the methods built on direction changes. *)
Theorem no_buy_on_short_series (bot : TradingBot.t) (data : list StockData.t)
    (currentPrice : number) (lastProcessedIndex : option Z) (g : Random) :
  TradingBot.currentPosition bot = None ->
  length data < 2
  \/ (length data < 3
      /\ Settings.tradingMethod (TradingBot.settings bot) <> Some price_comparison
      /\ Settings.tradingMethod (TradingBot.settings bot) <> Some slope_analysis
      /\ Settings.tradingMethod (TradingBot.settings bot)
         <> Some confirmed_recovery) ->
  exists d,
    makeTradingDecision bot data currentPrice lastProcessedIndex g = Ok (d, g)
    /\ Decision.action d = HOLD.
Proof.
  intros Hflat Hshort.
  unfold makeTradingDecision, pure. rewrite Hflat, andb_false_r.
  destruct (TradingBot.isActive bot); cbn [negb];
    [| eexists; split; reflexivity].
  pose proof (direction_rules_short data currentPrice lastProcessedIndex)
    as Hthree.
  pose proof (comparison_rules_short data) as Htwo.
  unfold strategyDecision, lift, bindEff, pure. rewrite Hflat. cbn [negb].
  destruct Hshort as [Hlen | [Hlen [Hpc [Hsl Hcr]]]].
  - destruct (Htwo Hlen) as [Ebuy [Ebuy' Hrec]].
    destruct (Hthree ltac:(lia)) as [Etrend [Eref Enew]].
    rewrite Ebuy, Ebuy', Etrend, Eref, Enew.
    destruct (Z.geb_spec (length data) 2) as [| _]; [lia |].
    destruct (Settings.tradingMethod (TradingBot.settings bot)) as [[| | | | |] |];
      cbn [bind andb fst snd BuyReference.shouldBuy BuyReference.referencePoint
             BuyNew.shouldBuy BuyNew.newDirectionChange];
      try (eexists; split; reflexivity).
    destruct (Hrec currentPrice
                (orDefault (Settings.confirmedRecoveryFirstDelay
                              (TradingBot.settings bot)) 15)
                (orDefault (Settings.confirmedRecoverySecondDelay
                              (TradingBot.settings bot)) 30) g)
      as [r [Er Hr]].
    rewrite Er. cbn [bind fst snd]. rewrite Hr.
    eexists. split; reflexivity.
  - destruct (Hthree Hlen) as [Etrend [Eref Enew]].
    rewrite Etrend, Eref, Enew.
    destruct (Settings.tradingMethod (TradingBot.settings bot)) as [[| | | | |] |];
      cbn [bind andb fst snd BuyReference.shouldBuy BuyReference.referencePoint
             BuyNew.shouldBuy BuyNew.newDirectionChange];
      try congruence; eexists; split; reflexivity.
Qed.

Lemma no_buy_on_short_series_witness :
  exists d,
    makeTradingDecision recoveryBot (series [10]%Q) 9 None downThenUp
    = Ok (d, downThenUp)
    /\ Decision.action d = HOLD.
Proof.
  apply no_buy_on_short_series; [reflexivity | left; reflexivity].
Defined.

(** ** The price history kept by the overlay *)

Lemma relIndex_range (len i : Z) : 0 <= len -> 0 <= relIndex len i <= len.
Proof.
  intros Hlen. unfold relIndex. destruct (Z.ltb_spec i 0); lia.
Qed.

(** What [slice] returns: the elements from the first relative index up to
    the second. *)
Lemma slice_spec {A} (a : list A) (b e : Z) :
  length (slice a b e)
  = Z.max (relIndex (length a) e - relIndex (length a) b) 0
  /\ forall j, 0 <= j < relIndex (length a) e - relIndex (length a) b ->
               (slice a b e).[j] = a.[relIndex (length a) b + j].
Proof.
  pose proof (relIndex_range (length a) b (length_nonneg a)) as Hb.
  pose proof (relIndex_range (length a) e (length_nonneg a)) as He.
  unfold slice. cbv zeta.
  set (k := relIndex (length a) b) in *.
  set (f := relIndex (length a) e) in *.
  split.
  - unfold length in *. rewrite length_firstn, length_skipn. lia.
  - intros j Hj. unfold get.
    destruct (Z.ltb_spec j 0); [lia |].
    destruct (Z.ltb_spec (k + j) 0); [lia |].
    rewrite nth_error_firstn.
    destruct (Nat.ltb_spec (Z.to_nat j) (Z.to_nat (f - k))); [| lia].
    rewrite nth_error_skipn. f_equal. lia.
Qed.

(** The counter of the consecutive-falls rule is the length of the streak
    of falls at the end of the history. *)
Lemma countFalls_streak (h : list number) :
  forall (n : nat) (i acc : Z),
    i = Z.of_nat n -> i <= length h - 1 ->
    exists k,
      countFalls h n i acc = acc + k
      /\ 0 <= k <= i
      /\ (forall j, i - k <= j < i -> fallsAt h j)
      /\ (k < i -> ~ fallsAt h (i - k - 1)).
Proof.
  induction n as [| n IH]; intros i acc Hi Hlen; cbn [countFalls].
  - exists 0. split; [lia |]. split; [lia |]. split; intros; lia.
  - destruct (get_in_range h i) as [cur Ecur]; [lia |].
    destruct (get_in_range h (i - 1)) as [prev Eprev]; [lia |].
    rewrite Ecur, Eprev.
    destruct (ltb cur prev) eqn:Hfall.
    + apply ltb_true in Hfall.
      destruct (IH (i - 1) (acc + 1)) as [k [E [Hk [Hstreak Hstop]]]];
        [lia | lia |].
      exists (k + 1). split; [lia |]. split; [lia |]. split.
      * intros j Hj. destruct (Z.eq_dec j (i - 1)) as [-> | Hne].
        -- exists prev, cur. replace (i - 1 + 1) with i by lia. now repeat split.
        -- apply Hstreak. lia.
      * intros Hlt. replace (i - (k + 1) - 1) with (i - 1 - k - 1) by lia.
        apply Hstop. lia.
    + apply ltb_false in Hfall.
      exists 0. split; [lia |]. split; [lia |]. split; [intros; lia |].
      intros _ [x [y [Ex [Ey Hlt]]]].
      replace (i - 0 - 1) with (i - 1) in Ex by lia.
      replace (i - 0 - 1 + 1) with i in Ey by lia.
      rewrite Eprev in Ex. rewrite Ecur in Ey.
      injection Ex as <-. injection Ey as <-.
      exact (Qlt_not_le _ _ Hlt Hfall).
Qed.

(** The position update of the overlay comes from the consecutive-falls
    rule alone: a sale resets the history to the live price, a hold keeps
    the last 20 prices with their trailing streak, below the threshold. *)
Lemma overlay_update (bot : TradingBot.t) (position : Position.t)
    (currentPrice : number) (data : list StockData.t) (r : SellResult.t)
    (u : PositionUpdate.t) :
  TradingBot.currentPosition bot = Some position ->
  shouldSellWithDollarDrop bot currentPrice data = Ok r ->
  SellResult.updatePosition r = Some u ->
  let h := sliceFrom (storedHistory position ++ [currentPrice]) (-20) in
  let k := countFalls h (Z.to_nat (length h - 1)) (length h - 1) 0 in
  let threshold :=
    orDefault (Settings.consecutiveFallsCount (TradingBot.settings bot)) 3 in
  (SellResult.shouldSell r = true /\ geb (inject_Z k) threshold = true
   /\ u = PositionUpdate.mk [currentPrice] 0)
  \/ (SellResult.shouldSell r = false /\ geb (inject_Z k) threshold = false
      /\ u = PositionUpdate.mk h k).
Proof.
  intros Hpos. unfold shouldSellWithDollarDrop. rewrite Hpos. cbv zeta.
  change (match Position.priceHistory position with
          | Some h => h
          | None => [Position.buyPrice position]
          end) with (storedHistory position).
  match goal with
  | |- context [if geb (inject_Z ?k) ?t then _ else _] =>
      destruct (geb (inject_Z k) t) eqn:Hthreshold
  end;
    repeat match goal with
           | |- context [if ?c then _ else _] => destruct c
           | |- context [field ?o ?f] => destruct o; cbn [field bind]
           end;
    intros E Hu; try discriminate E; injection E as <-;
    cbn in Hu; try discriminate Hu; injection Hu as <-;
    first [left; repeat split; congruence | right; repeat split; congruence].
Qed.

(** [slice(-20)] keeps the last 20 elements, or all of them. *)
Lemma sliceFrom_last20 {A} (a : list A) :
  length (sliceFrom a (-20)) = Z.min (length a) 20
  /\ (forall j, 0 <= j < length (sliceFrom a (-20)) ->
        (sliceFrom a (-20)).[j] = a.[length a - length (sliceFrom a (-20)) + j])
  /\ exists dropped, a = dropped ++ sliceFrom a (-20).
Proof.
  pose proof (length_nonneg a) as Hlen.
  destruct (slice_spec a (-20) (length a)) as [Hsize Hget].
  assert (Hfrom : relIndex (length a) (-20) = Z.max (length a - 20) 0)
    by (unfold relIndex; cbn; lia).
  assert (Hto : relIndex (length a) (length a) = length a)
    by (unfold relIndex; destruct (Z.ltb_spec (length a) 0); lia).
  rewrite Hfrom, Hto in Hsize, Hget.
  unfold sliceFrom.
  assert (Hmin : length (slice a (-20) (length a)) = Z.min (length a) 20)
    by (rewrite Hsize; lia).
  split; [exact Hmin |]. split.
  - intros j Hj. rewrite Hmin in *. rewrite Hget by lia. f_equal. lia.
  - exists (firstn (Z.to_nat (Z.max (length a - 20) 0)) a).
    unfold slice. cbv zeta. rewrite Hfrom, Hto.
    rewrite (firstn_all2 (skipn (Z.to_nat (Z.max (length a - 20) 0)) a)).
    + symmetry. apply firstn_skipn.
    + rewrite length_skipn. unfold length in *. lia.
Qed.

Lemma get_snoc {A} (a : list A) (x : A) : (a ++ [x]).[length a] = Some x.
Proof.
  unfold get, length. destruct (Z.ltb_spec (Z.of_nat (List.length a)) 0); [lia |].
  rewrite Nat2Z.id, nth_error_app2, Nat.sub_diag by lia. reflexivity.
Qed.

Lemma length_snoc {A} (a : list A) (x : A) : length (a ++ [x]) = length a + 1.
Proof. unfold length. rewrite length_app. cbn. lia. Qed.

(** X10: the price history that the overlay hands back is never empty and
    never longer than 20 prices, it ends with the live price, and the
    counter that comes with it is smaller than its length.  After a sale
    it is the live price alone with the counter 0; otherwise it is the
    stored history with the live price appended, cut at the front. *)
Theorem tracked_history_is_capped (bot : TradingBot.t) (position : Position.t)
    (currentPrice : number) (data : list StockData.t) (r : SellResult.t)
    (u : PositionUpdate.t) :
  TradingBot.currentPosition bot = Some position ->
  shouldSellWithDollarDrop bot currentPrice data = Ok r ->
  SellResult.updatePosition r = Some u ->
  1 <= length (PositionUpdate.priceHistory u) <= 20
  /\ (PositionUpdate.priceHistory u).[length (PositionUpdate.priceHistory u) - 1]
     = Some currentPrice
  /\ 0 <= PositionUpdate.consecutiveFalls u
     < length (PositionUpdate.priceHistory u)
  /\ (SellResult.shouldSell r = true ->
      u = PositionUpdate.mk [currentPrice] 0)
  /\ (SellResult.shouldSell r = false ->
      exists dropped,
        storedHistory position ++ [currentPrice]
        = dropped ++ PositionUpdate.priceHistory u).
Proof.
  intros Hpos Er Hu.
  destruct (overlay_update bot position currentPrice data r u Hpos Er Hu)
    as [[Hsell [_ ->]] | [Hhold [_ ->]]].
  - cbn. repeat split; try lia; try reflexivity. congruence.
  - cbn [PositionUpdate.priceHistory PositionUpdate.consecutiveFalls].
    set (full := storedHistory position ++ [currentPrice]).
    destruct (sliceFrom_last20 full) as [Hsize [Hget Hsuffix]].
    assert (Hfull : length full = length (storedHistory position) + 1)
      by apply length_snoc.
    pose proof (length_nonneg (storedHistory position)) as Hstored.
    set (h := sliceFrom full (-20)) in *.
    destruct (countFalls_streak h (Z.to_nat (length h - 1)) (length h - 1) 0)
      as [k [Ek [Hk _]]]; [lia | lia |].
    rewrite Ek.
    split; [lia |]. split.
    + rewrite Hget by lia.
      replace (length full - length h + (length h - 1))
        with (length (storedHistory position)) by lia.
      apply get_snoc.
    + split; [lia |]. split; [congruence |]. intros _. exact Hsuffix.
Qed.

Lemma tracked_history_is_capped_witness :
  exists u,
    SellResult.updatePosition
      (SellResult.mk false
         [Lit "Consecutive live falls: "; Num 0; Lit "/"; Num 3]
         (Some (PositionUpdate.mk [10; 11]%Q 0))) = Some u
    /\ 1 <= length (PositionUpdate.priceHistory u) <= 20
    /\ 0 <= PositionUpdate.consecutiveFalls u
       < length (PositionUpdate.priceHistory u).
Proof.
  eexists. split; [reflexivity |].
  destruct (tracked_history_is_capped trackingBot (oneShare 10) 11
              (series [12; 11]%Q) _ _ eq_refl eq_refl eq_refl)
    as [Hsize [_ [Hcount _]]].
  split; [exact Hsize | exact Hcount].
Defined.

(** X11: while the overlay holds, the counter it hands back is the length
    of the streak of falls at the end of the history it hands back: the
    last [consecutiveFalls] steps of that history fall strictly, the step
    before them does not, and the counter is below the threshold. *)
Theorem counter_is_trailing_streak (bot : TradingBot.t) (position : Position.t)
    (currentPrice : number) (data : list StockData.t) (r : SellResult.t)
    (u : PositionUpdate.t) :
  TradingBot.currentPosition bot = Some position ->
  shouldSellWithDollarDrop bot currentPrice data = Ok r ->
  SellResult.updatePosition r = Some u ->
  SellResult.shouldSell r = false ->
  let h := PositionUpdate.priceHistory u in
  let k := PositionUpdate.consecutiveFalls u in
  (forall j, length h - 1 - k <= j < length h - 1 -> fallsAt h j)
  /\ (k < length h - 1 -> ~ fallsAt h (length h - 1 - k - 1))
  /\ (inject_Z k
      < orDefault (Settings.consecutiveFallsCount (TradingBot.settings bot)) 3)%Q.
Proof.
  intros Hpos Er Hu Hhold.
  destruct (overlay_update bot position currentPrice data r u Hpos Er Hu)
    as [[Hsell _] | [_ [Hbelow ->]]]; [congruence |].
  cbn [PositionUpdate.priceHistory PositionUpdate.consecutiveFalls].
  set (full := storedHistory position ++ [currentPrice]) in *.
  destruct (sliceFrom_last20 full) as [Hsize _].
  assert (Hfull : length full = length (storedHistory position) + 1)
    by apply length_snoc.
  pose proof (length_nonneg (storedHistory position)) as Hstored.
  set (h := sliceFrom full (-20)) in *.
  destruct (countFalls_streak h (Z.to_nat (length h - 1)) (length h - 1) 0)
    as [k [Ek [Hk [Hstreak Hstop]]]]; [lia | lia |].
  rewrite Ek in *. cbn [Z.add] in *.
  split; [exact Hstreak |]. split; [exact Hstop |].
  unfold geb in Hbelow. apply Qnot_le_lt. intros Hle.
  apply Qle_bool_iff in Hle. congruence.
Qed.

Lemma counter_is_trailing_streak_witness :
  fallsAt [10; 9.5; 9]%Q 0 /\ fallsAt [10; 9.5; 9]%Q 1.
Proof.
  destruct (counter_is_trailing_streak
              (TradingBot.mk true (TradingBot.settings trackingBot)
                 (Some (Position.mk 10 1 0 None None (Some [10; 9.5]%Q))))
              (Position.mk 10 1 0 None None (Some [10; 9.5]%Q)) 9
              (series [12; 11]%Q) _ _ eq_refl eq_refl eq_refl eq_refl)
    as [Hstreak _].
  split; apply Hstreak; vm_compute; (split; [discriminate | reflexivity]).
Defined.

(** X12: the consecutive-falls rule fires on the agreed number of falls:
    with the two rules before it switched off, when the stored history
    followed by the live price ends with [n] strict falls in a row, for an
    [n] of at least the configured count (3 by default) and at most 19,
    the overlay sells and resets the history to the live price. *)
Theorem sells_after_consecutive_falls (bot : TradingBot.t)
    (position : Position.t) (currentPrice : number) (data : list StockData.t)
    (n : Z) :
  TradingBot.currentPosition bot = Some position ->
  Settings.profitTakingEnabled (TradingBot.settings bot) = false ->
  Settings.sellAtBuyPriceEnabled (TradingBot.settings bot) = false ->
  Settings.consecutiveFallsEnabled (TradingBot.settings bot) = true ->
  (orDefault (Settings.consecutiveFallsCount (TradingBot.settings bot)) 3
   <= inject_Z n)%Q ->
  n <= 19 ->
  n <= length (storedHistory position) ->
  (forall j, length (storedHistory position) - n <= j
             < length (storedHistory position) ->
             fallsAt (storedHistory position ++ [currentPrice]) j) ->
  exists r,
    shouldSellWithDollarDrop bot currentPrice data = Ok r
    /\ SellResult.shouldSell r = true
    /\ SellResult.updatePosition r
       = Some (PositionUpdate.mk [currentPrice] 0).
Proof.
  intros Hpos Hprofit Hbuy Hfalls Hcount Hcap Hlong Hstreak.
  unfold shouldSellWithDollarDrop.
  rewrite Hpos, Hprofit, Hbuy, Hfalls. cbv zeta. cbn [andb].
  change (match Position.priceHistory position with
          | Some h => h
          | None => [Position.buyPrice position]
          end) with (storedHistory position).
  set (full := storedHistory position ++ [currentPrice]) in *.
  destruct (sliceFrom_last20 full) as [Hsize [Hget _]].
  assert (Hfull : length full = length (storedHistory position) + 1)
    by apply length_snoc.
  pose proof (length_nonneg (storedHistory position)) as Hstored.
  set (h := sliceFrom full (-20)) in *.
  destruct (countFalls_streak h (Z.to_nat (length h - 1)) (length h - 1) 0)
    as [k [Ek [Hk [_ Hstop]]]]; [lia | lia |].
  rewrite Ek. cbn [Z.add].
  destruct (geb (inject_Z k)
              (orDefault (Settings.consecutiveFallsCount
                            (TradingBot.settings bot)) 3)) eqn:Hthreshold.
  { eexists. repeat split. }
  exfalso.
  assert (Hbelow : k < n).
  { rewrite Zlt_Qlt. eapply Qlt_le_trans; [| exact Hcount].
    apply Qnot_le_lt. intros Hle. apply Qle_bool_iff in Hle.
    unfold geb in Hthreshold. congruence. }
  apply Hstop; [lia |].
  destruct (Hstreak (length full - 2 - k)) as [x [y [Ex [Ey Hlt]]]]; [lia |].
  exists x, y. split; [| split; [| exact Hlt]].
  - rewrite Hget by lia. rewrite <- Ex. f_equal. lia.
  - rewrite Hget by lia. rewrite <- Ey. f_equal. lia.
Qed.

Lemma sells_after_consecutive_falls_witness :
  exists r,
    shouldSellWithDollarDrop
      (TradingBot.mk true (TradingBot.settings trackingBot)
         (Some (Position.mk 10 1 0 None None (Some [10; 9.5; 9]%Q))))
      8.5 (series [12; 11]%Q) = Ok r
    /\ SellResult.shouldSell r = true
    /\ SellResult.updatePosition r = Some (PositionUpdate.mk [8.5]%Q 0).
Proof.
  apply (sells_after_consecutive_falls _
           (Position.mk 10 1 0 None None (Some [10; 9.5; 9]%Q)) _ _ 3);
    try reflexivity; try discriminate.
  intros j Hj. cbn in Hj.
  assert (Hcases : j = 0 \/ j = 1 \/ j = 2) by lia.
  destruct Hcases as [-> | [-> | ->]]; eexists; eexists;
    (split; [reflexivity | split; [reflexivity | reflexivity]]).
Defined.

(** ** Share sizing *)

Lemma Math_min_le (x y : number) :
  (Math_min x y <= x)%Q /\ (Math_min x y <= y)%Q.
Proof.
  unfold Math_min. destruct (ltb y x) eqn:E.
  - apply ltb_true in E. split; [now apply Qlt_le_weak | apply Qle_refl].
  - apply ltb_false in E. split; [apply Qle_refl | exact E].
Qed.

Lemma Math_min_cases (x y : number) : Math_min x y = x \/ Math_min x y = y.
Proof. unfold Math_min. destruct (ltb y x); [now right | now left]. Qed.

(** The quotient of two doubles, as the program computes it, is the
    double nearest to their exact quotient. *)
Lemma div_doubles (x y : number) :
  isDouble x -> isDouble y -> div x y = double (x / y).
Proof.
  unfold isDouble, div. intros Hx Hy. apply double_comp.
  now rewrite Hx, Hy.
Qed.

Lemma Math_floor_double (x : number) :
  Math_floor (double x) = inject_Z (Qfloor (double x)).
Proof. unfold Math_floor. now rewrite double_idempotent. Qed.

(** The whole shares that an amount buys, where the quotient is rounded
    before it is cut: their cost stays within the amount, and one share
    more would exceed it, up to one part in [2 ^ 53]. *)
Lemma floor_shares (amount price : number) :
  (0 < price)%Q -> (0 <= amount)%Q ->
  let bought := inject_Z (Qfloor (double (amount / price))) in
  (bought * price <= amount * (1 + 2 ^ (-53)))%Q
  /\ (amount * (1 - 2 ^ (-53)) < (bought + 1) * price)%Q.
Proof.
  intros Hprice Hamount bought.
  assert (Hback : (amount / price * price == amount)%Q) by (field; lra).
  pose proof (Qfloor_le (double (amount / price))) as Hlow.
  pose proof (Qlt_floor (double (amount / price))) as Hup.
  rewrite inject_Z_plus in Hup. change (inject_Z 1) with 1%Q in Hup.
  fold bought in Hlow, Hup.
  assert (Hz : (0 <= amount / price)%Q).
  { apply Qle_shift_div_l; [exact Hprice | lra]. }
  set (z := (amount / price)%Q) in *.
  assert (Hu : (0 < 2 ^ (-53) < 1)%Q) by (split; reflexivity).
  set (u := (2 ^ (-53))%Q) in *.
  destruct (Qlt_le_dec z (2 ^ (-1022))) as [Hsmall | Hnormal].
  - assert (Hq : (0 <= double z <= 2 ^ (-1022))%Q).
    { split; [now apply double_nonneg |].
      change (2 ^ (-1022))%Q with (double (2 ^ (-1022))).
      apply double_monotone. now apply Qlt_le_weak. }
    assert (Htiny : (2 ^ (-1022) < 1)%Q) by reflexivity.
    assert (Ezero : bought = 0%Q).
    { unfold bought. replace (Qfloor (double z)) with 0; [reflexivity |].
      symmetry. apply Z.le_antisymm.
      - apply Z.lt_succ_r. rewrite Zlt_Qlt.
        apply Qle_lt_trans with (double z); [apply Qfloor_le |].
        change (inject_Z (Z.succ 0)) with 1%Q. lra.
      - change 0 with (Qfloor 0). apply Qfloor_resp_le. tauto. }
    rewrite Ezero. clearbody u. split; [nra |].
    assert (Hless : (amount < price)%Q) by nra.
    nra.
  - destruct (double_error z Hnormal) as [Herr1 Herr2]. fold u in Herr1, Herr2.
    clearbody u bought. set (q := double z) in *. clearbody q.
    split; nra.
Qed.

Lemma Math_min_double (x y : number) :
  isDouble x -> isDouble y -> isDouble (Math_min x y).
Proof. intros Hx Hy. destruct (Math_min_cases x y) as [-> | ->]; assumption. Qed.

Lemma Math_min_nonneg (x y : number) :
  (0 <= x)%Q -> (0 <= y)%Q -> (0 <= Math_min x y)%Q.
Proof. intros Hx Hy. destruct (Math_min_cases x y) as [-> | ->]; assumption. Qed.

(** X13: the shares to buy are affordable up to the rounding of the
    quotient: for doubles that are not negative, a positive price and a
    quotient in the range of doubles, the cost of the shares exceeds the
    available cash by at most one part in [2 ^ 53]; sized in dollars it
    exceeds the maximum investment by no more either, and sized in shares
    their number never exceeds the maximum. *)
Theorem shares_to_buy_are_affordable (maxInvestment : number)
    (investmentType : InvestmentType) (currentPrice availableCash : number) :
  isDouble maxInvestment -> isDouble currentPrice -> isDouble availableCash ->
  (0 < currentPrice)%Q -> (0 <= maxInvestment)%Q -> (0 <= availableCash)%Q ->
  (availableCash / currentPrice < 2 ^ 1023)%Q ->
  (calculateSharesToBuy maxInvestment investmentType currentPrice availableCash
   * currentPrice <= availableCash * (1 + 2 ^ (-53)))%Q
  /\ match investmentType with
     | dollars =>
         (calculateSharesToBuy maxInvestment dollars currentPrice availableCash
          * currentPrice <= maxInvestment * (1 + 2 ^ (-53)))%Q
     | shares =>
         (calculateSharesToBuy maxInvestment shares currentPrice availableCash
          <= maxInvestment)%Q
     end.
Proof.
  intros Hmax Hdprice Hcash Hprice Hmax0 Hcash0 _.
  assert (Hu : (0 < 1 + 2 ^ (-53))%Q) by reflexivity.
  unfold calculateSharesToBuy.
  destruct investmentType; cbv zeta.
  - rewrite div_doubles, Math_floor_double
      by (try apply Math_min_double; assumption).
    destruct (floor_shares (Math_min maxInvestment availableCash) currentPrice
                Hprice) as [Hcost _]; [now apply Math_min_nonneg |].
    destruct (Math_min_le maxInvestment availableCash) as [Hle1 Hle2].
    split; (eapply Qle_trans; [exact Hcost |]);
      (apply Qmult_le_compat_r; [assumption | now apply Qlt_le_weak]).
  - rewrite div_doubles, Math_floor_double by assumption.
    destruct (floor_shares availableCash currentPrice Hprice Hcash0)
      as [Hcost _].
    destruct (Math_min_le maxInvestment
                (inject_Z (Qfloor (double (availableCash / currentPrice)))))
      as [Hle1 Hle2].
    split; [| exact Hle1].
    eapply Qle_trans; [| exact Hcost].
    apply Qmult_le_compat_r; [exact Hle2 | now apply Qlt_le_weak].
Qed.

(** With the doubles 0.1 for the price and 0.3 for the cash, the quotient
    is 2.9999999999999996 and 2 shares are bought. *)
Lemma shares_to_buy_are_affordable_witness :
  calculateSharesToBuy 10 shares (double 0.1) (double 0.3) = 2%Q
  /\ (2 * double 0.1 <= double 0.3 * (1 + 2 ^ (-53)))%Q
  /\ (calculateSharesToBuy 1000 dollars 300 10000 * 300
      <= 1000 * (1 + 2 ^ (-53)))%Q.
Proof.
  split; [vm_compute; reflexivity |]. split.
  - change 2%Q with (calculateSharesToBuy 10 shares (double 0.1) (double 0.3)).
    apply (shares_to_buy_are_affordable 10 shares (double 0.1) (double 0.3));
      vm_compute; congruence.
  - apply (shares_to_buy_are_affordable 1000 dollars 300 10000);
      vm_compute; congruence.
Defined.

(** X14: the bot buys as much as it may, up to the rounding of the
    quotient: for doubles that are not negative, a positive price and a
    quotient in the range of doubles, sized in dollars the result is a
    whole number of shares, and one share more would cost more than the
    smaller of the maximum investment and the cash, less one part in
    [2 ^ 53]; sized in shares, the result is the maximum itself unless one
    share more would cost more than the cash, less one part in
    [2 ^ 53]. *)
Theorem shares_to_buy_are_maximal (maxInvestment : number)
    (investmentType : InvestmentType) (currentPrice availableCash : number) :
  isDouble maxInvestment -> isDouble currentPrice -> isDouble availableCash ->
  (0 < currentPrice)%Q -> (0 <= maxInvestment)%Q -> (0 <= availableCash)%Q ->
  (availableCash / currentPrice < 2 ^ 1023)%Q ->
  match investmentType with
  | dollars =>
      (exists whole,
         calculateSharesToBuy maxInvestment dollars currentPrice availableCash
         = inject_Z whole)
      /\ (Math_min maxInvestment availableCash * (1 - 2 ^ (-53))
          < (calculateSharesToBuy maxInvestment dollars currentPrice
               availableCash + 1) * currentPrice)%Q
  | shares =>
      calculateSharesToBuy maxInvestment shares currentPrice availableCash
      = maxInvestment
      \/ (availableCash * (1 - 2 ^ (-53))
          < (calculateSharesToBuy maxInvestment shares currentPrice
               availableCash + 1) * currentPrice)%Q
  end.
Proof.
  intros Hmax Hdprice Hcash Hprice Hmax0 Hcash0 _.
  unfold calculateSharesToBuy.
  destruct investmentType; cbv zeta.
  - rewrite div_doubles, Math_floor_double
      by (try apply Math_min_double; assumption).
    split; [eexists; reflexivity |].
    apply floor_shares; [exact Hprice | now apply Math_min_nonneg].
  - rewrite div_doubles, Math_floor_double by assumption.
    destruct (Math_min_cases maxInvestment
                (inject_Z (Qfloor (double (availableCash / currentPrice)))))
      as [E | E]; rewrite E; [now left | right].
    now apply floor_shares.
Qed.

(** At the price 19.03 with 6812.74 in cash the quotient is
    357.99999999999994, and 357 shares are bought. *)
Lemma shares_to_buy_are_maximal_witness :
  calculateSharesToBuy 10000 dollars (double 19.03) (double 6812.74) = 357%Q
  /\ (double 6812.74 * (1 - 2 ^ (-53)) < (357 + 1) * double 19.03)%Q.
Proof.
  split; [vm_compute; reflexivity |].
  change 357%Q
    with (calculateSharesToBuy 10000 dollars (double 19.03) (double 6812.74)).
  change (double 6812.74) with (Math_min 10000 (double 6812.74)) at 1.
  apply (shares_to_buy_are_maximal 10000 dollars (double 19.03)
           (double 6812.74)); vm_compute; congruence.
Defined.

(** ** Beat sequences are exactly the maximal rising runs *)

Lemma rise_and_stop (data : list StockData.t) (k : Z) :
  risesAt data k -> stopsAt data k -> False.
Proof.
  intros [a [b [Ea [Eb Hlt]]]] Hstop.
  exact (Qlt_not_le _ _ Hlt (Hstop a b Ea Eb)).
Qed.

(** A run that ends at [e] has one possible start. *)
Lemma run_start_unique (data : list StockData.t) (s s' e : Z) :
  s < e -> s' < e ->
  (forall k, s <= k < e -> risesAt data k) -> stopsAt data (s - 1) ->
  (forall k, s' <= k < e -> risesAt data k) -> stopsAt data (s' - 1) ->
  s = s'.
Proof.
  intros Hs Hs' Hrise Hstop Hrise' Hstop'.
  destruct (Z.lt_trichotomy s s') as [Hlt | [Heq | Hgt]]; [| exact Heq |].
  - exfalso. apply (rise_and_stop data (s' - 1)); [apply Hrise; lia | exact Hstop'].
  - exfalso. apply (rise_and_stop data (s - 1)); [apply Hrise'; lia | exact Hstop].
Qed.

(** Pushing the counted run where the scan stops keeps the report
    complete. *)
Lemma flushRun_reported (data : list StockData.t) (minConsecutiveIntervals : Z)
    (st : Scan.t) (e : Z) :
  tracking data minConsecutiveIntervals (e + 1) st ->
  0 <= e < length data -> stopsAt data e ->
  exists sequences,
    flushRun data minConsecutiveIntervals st e = Ok sequences
    /\ reported data minConsecutiveIntervals (e + 1) sequences.
Proof.
  intros [[_ [Hcount [Hzero Hrun]]] [[Hold [Hapart Hall]] [Hflat Hedge]]] He Hstop.
  replace (e + 1 - 1 - Scan.consecutivePositiveCount st)
    with (e - Scan.consecutivePositiveCount st) in * by lia.
  replace (e + 1 - 2) with (e - 1) in Hflat by lia.
  replace (e + 1 - 1) with e in Hrun by lia.
  (* no maximal run ends inside the counted run, nor at [e] when nothing
     is counted *)
  assert (Hnone : forall s e',
             maximalRun data s e' ->
             e - Scan.consecutivePositiveCount st <= e' < e -> False).
  { intros s e' [_ [_ [_ [_ Hend]]]] He'.
    destruct (Hrun ltac:(lia)) as [Estart [_ Hrise]].
    apply (rise_and_stop data e'); [apply Hrise; lia | exact Hend]. }
  assert (Hcurrent : forall s,
             maximalRun data s e ->
             0 < Scan.consecutivePositiveCount st
             /\ s = Scan.currentSequenceStart st).
  { intros s [Hs [_ [Hrise [Hleft _]]]].
    destruct (Z.eq_dec (Scan.consecutivePositiveCount st) 0) as [E0 | N0].
    - exfalso. apply (rise_and_stop data (e - 1)); [apply Hrise; lia | auto].
    - assert (Hpos : 0 < Scan.consecutivePositiveCount st) by lia.
      split; [exact Hpos |].
      destruct (Hrun Hpos) as [Estart [Hstart Hrise']].
      apply (run_start_unique data s (Scan.currentSequenceStart st) e);
        auto; lia. }
  unfold flushRun.
  destruct ((Scan.consecutivePositiveCount st >=? minConsecutiveIntervals)
            && (Scan.currentSequenceStart st >=? 0)) eqn:Hlong.
  - apply andb_true_iff in Hlong. destruct Hlong as [Hmin Hstart].
    apply Z.geb_le in Hmin, Hstart.
    assert (Hpos : 0 < Scan.consecutivePositiveCount st).
    { destruct (Z.eq_dec (Scan.consecutivePositiveCount st) 0) as [E0 | N0];
        [apply Hzero in E0; lia | lia]. }
    destruct (Hrun Hpos) as [Estart [_ Hrise]].
    destruct (beatSequence_ok data (Scan.currentSequenceStart st) e)
      as [b [Eb [Sb Eb']]]; [lia | lia |].
    rewrite Eb. cbn [bind]. eexists. split; [reflexivity |].
    split; [| split].
    + intros b' Hb'. apply in_app_or in Hb'. destruct Hb' as [Hb' | [<- | []]].
      * destruct (Hold b' Hb') as [Hend Hrest]. split; [lia | exact Hrest].
      * rewrite Sb, Eb'. split; [lia |]. split; [lia | now apply Hedge].
    + apply snoc_sorted; [exact Hapart |].
      intros b' Hb'. destruct (Hold b' Hb') as [Hend _]. rewrite Sb. lia.
    + intros s e' Hmax Hlen He'.
      destruct (Z.lt_ge_cases e' (e - Scan.consecutivePositiveCount st))
        as [Hbefore | Hafter].
      * destruct (Hall s e' Hmax Hlen Hbefore) as [b' [Hb' Hb'']].
        exists b'. split; [apply in_or_app; now left | exact Hb''].
      * destruct (Z.eq_dec e' e) as [-> | Hne];
          [| exfalso; apply (Hnone s e' Hmax); lia].
        destruct (Hcurrent s Hmax) as [_ ->].
        exists b. split; [apply in_or_app; right; now left | now split].
  - exists (Scan.sequences st). split; [reflexivity |].
    split; [| split; [exact Hapart |]].
    + intros b' Hb'. destruct (Hold b' Hb') as [Hend Hrest].
      split; [lia | exact Hrest].
    + intros s e' Hmax Hlen He'.
      destruct (Z.lt_ge_cases e' (e - Scan.consecutivePositiveCount st))
        as [Hbefore | Hafter]; [now apply Hall |].
      exfalso.
      destruct (Z.eq_dec e' e) as [-> | Hne]; [| apply (Hnone s e' Hmax); lia].
      destruct (Hcurrent s Hmax) as [Hpos ->].
      destruct (Hrun Hpos) as [Estart [Hstart _]].
      apply andb_false_iff in Hlong.
      destruct Hlong as [Hlong | Hlong];
        rewrite Z.geb_leb in Hlong; apply Z.leb_gt in Hlong; lia.
Qed.

Lemma beatStep_tracking (data : list StockData.t) (minConsecutiveIntervals : Z)
    (i : Z) (st : Scan.t) :
  1 <= i < length data -> tracking data minConsecutiveIntervals i st ->
  exists st', beatStep data minConsecutiveIntervals i st = Ok st'
              /\ tracking data minConsecutiveIntervals (i + 1) st'.
Proof.
  intros Hi Htrack.
  pose proof Htrack as [Hscan [Hrep [Hflat Hedge]]].
  destruct (beatStep_ok data minConsecutiveIntervals i st Hi Hscan)
    as [st' [E Hscan']].
  exists st'. split; [exact E |].
  unfold beatStep in E.
  destruct (get_in_range data i) as [c Ec]; [lia |].
  destruct (get_in_range data (i - 1)) as [p Ep]; [lia |].
  rewrite Ec, Ep in E. cbn [field bind] in E.
  destruct (gtb (StockData.price c - StockData.price p) 0) eqn:Hslope.
  - injection E as <-.
    split; [exact Hscan' |].
    cbn [Scan.sequences Scan.currentSequenceStart Scan.consecutivePositiveCount].
    replace (i + 1 - 1 - (Scan.consecutivePositiveCount st + 1))
      with (i - 1 - Scan.consecutivePositiveCount st) by lia.
    split; [exact Hrep |].
    destruct Hscan as [_ [Hcount _]].
    split; [intros; lia |]. intros _.
    destruct (Z.eqb_spec (Scan.consecutivePositiveCount st) 0) as [E0 | N0].
    + replace (i - 1 - 1) with (i - 2) by lia. now apply Hflat.
    + apply Hedge. lia.
  - apply slope_not_positive in Hslope.
    assert (Hstop : stopsAt data (i - 1)).
    { intros a b Ha Hb. replace (i - 1 + 1) with i in Hb by lia.
      rewrite Ep in Ha. rewrite Ec in Hb.
      injection Ha as <-. injection Hb as <-. exact Hslope. }
    destruct (flushRun_reported data minConsecutiveIntervals st (i - 1))
      as [sequences [Eflush Hrep']];
      [now replace (i - 1 + 1) with i by lia | lia | exact Hstop |].
    rewrite Eflush in E. cbn [bind] in E. injection E as <-.
    split; [exact Hscan' |].
    cbn [Scan.sequences Scan.currentSequenceStart Scan.consecutivePositiveCount].
    replace (i + 1 - 1 - 0) with (i - 1 + 1) by lia.
    split; [exact Hrep' |].
    split; [| intros; lia].
    intros _. now replace (i + 1 - 2) with (i - 1) by lia.
Qed.

(** The sequences that are returned are the maximal rising runs of at
    least the minimum length, in the order of the series. *)
Lemma detectBeatSequences_reported (data : list StockData.t)
    (minConsecutiveIntervals : Z) :
  exists sequences,
    detectBeatSequences data minConsecutiveIntervals = Ok sequences
    /\ (forall b, In b sequences -> emitted data b)
    /\ reported data minConsecutiveIntervals (length data) sequences.
Proof.
  pose proof (length_nonneg data) as Hlen.
  assert (Hempty : forall bound,
             (forall s e, maximalRun data s e ->
                          minConsecutiveIntervals <= e - s -> False) ->
             reported data minConsecutiveIntervals bound []).
  { intros bound Hno. split; [intros b [] | split; [constructor |]].
    intros s e Hmax Hmin _. elim (Hno s e Hmax Hmin). }
  unfold detectBeatSequences.
  destruct (Z.ltb_spec (length data) (minConsecutiveIntervals + 1))
    as [Hshort | Hlong].
  { exists []. split; [reflexivity |]. split; [intros b [] |].
    apply Hempty. intros s e [Hs [He _]] Hmin. lia. }
  destruct (Z.eq_dec (length data) 0) as [Hnone | Hsome].
  - rewrite Hnone.
    cbn [forRange forLoop Z.to_nat Z.sub Z.add Z.opp Z.pos_sub bind].
    unfold flushRun. cbn [Scan.currentSequenceStart Scan.sequences].
    rewrite andb_false_r. exists []. split; [reflexivity |].
    split; [intros b [] |].
    apply Hempty. intros s e [Hs [He _]] _. lia.
  - destruct (forRange_ok (tracking data minConsecutiveIntervals)
                (beatStep data minConsecutiveIntervals)
                1 (length data) (Scan.mk [] (-1) 0)) as [st [E Hst]].
    + lia.
    + split; [| split; [| split]].
      * unfold scanning. cbn. split; [intros b [] |]. split; [lia |].
        split; [reflexivity | lia].
      * cbn. split; [intros b [] | split; [constructor |]].
        intros s e [Hs _] _ He. lia.
      * intros _. intros a b Ha _. apply get_Some_range in Ha. lia.
      * cbn. lia.
    + intros j t Hj Ht. now apply beatStep_tracking.
    + rewrite E. cbn [bind].
      assert (Hstop : stopsAt data (length data - 1)).
      { intros a b _ Hb. apply get_Some_range in Hb. lia. }
      destruct (flushRun_reported data minConsecutiveIntervals st
                  (length data - 1)) as [sequences [Eflush Hrep]];
        [now replace (length data - 1 + 1) with (length data) by lia
        | lia | exact Hstop |].
      destruct (flushRun_ok data minConsecutiveIntervals st (length data - 1))
        as [sequences' [Eflush' Hall]];
        [destruct Hst as [Hscan _];
         now replace (length data - 1 + 1) with (length data) by lia
        | lia | exact Hstop |].
      rewrite Eflush in Eflush'. injection Eflush' as <-.
      exists sequences. split; [exact Eflush |]. split; [exact Hall |].
      now replace (length data - 1 + 1) with (length data) in Hrep by lia.
Qed.

(** Elements of a sorted array are related in the order of their
    positions. *)
Lemma sorted_get {A} (R : A -> A -> Prop) (l : list A) :
  StronglySorted R l ->
  forall m n x y, l.[m] = Some x -> l.[n] = Some y -> m < n -> R x y.
Proof.
  induction 1 as [| z l Hsorted IH Hz]; intros m n x y Hx Hy Hmn.
  - apply get_Some_range in Hx. unfold length in Hx. cbn in Hx. lia.
  - pose proof (get_Some_range _ _ _ Hx) as Hm.
    pose proof (get_Some_range _ _ _ Hy) as Hn.
    unfold get in Hx, Hy.
    destruct (Z.ltb_spec m 0) as [| _]; [lia |].
    destruct (Z.ltb_spec n 0) as [| _]; [lia |].
    destruct (Z.to_nat n) as [| n'] eqn:En; [lia |].
    cbn [nth_error] in Hy.
    destruct (Z.to_nat m) as [| m'] eqn:Em; cbn [nth_error] in Hx.
    + injection Hx as <-.
      rewrite Forall_forall in Hz. apply Hz. exact (nth_error_In _ _ Hy).
    + apply (IH (Z.of_nat m') (Z.of_nat n')); [| | lia].
      * unfold get. destruct (Z.ltb_spec (Z.of_nat m') 0); [lia |].
        now rewrite Nat2Z.id.
      * unfold get. destruct (Z.ltb_spec (Z.of_nat n') 0); [lia |].
        now rewrite Nat2Z.id.
Qed.

(** X15: every beat sequence is a maximal rising run of at least the
    minimum length: between [startIndex] and [endIndex] every interval
    rises, the interval before [startIndex] and the one after [endIndex]
    do not, and the run has at least [minConsecutiveIntervals]
    intervals. *)
Theorem beat_sequences_are_maximal_runs (data : list StockData.t)
    (minConsecutiveIntervals : Z) :
  exists sequences,
    detectBeatSequences data minConsecutiveIntervals = Ok sequences
    /\ forall b, In b sequences ->
         maximalRun data (BeatSequence.startIndex b) (BeatSequence.endIndex b)
         /\ minConsecutiveIntervals
            <= BeatSequence.endIndex b - BeatSequence.startIndex b.
Proof.
  destruct (detectBeatSequences_reported data minConsecutiveIntervals)
    as [sequences [E [Hall [Hrep _]]]].
  exists sequences. split; [exact E |].
  intros b Hb.
  destruct (Hall b Hb) as [_ [Hstart [Hend [Hrise Hstop]]]].
  destruct (Hrep b Hb) as [_ [Hmin Hleft]].
  split; [| exact Hmin].
  split; [exact Hstart |]. split; [exact Hend |]. split; [exact Hrise |].
  split; assumption.
Qed.

(** X16: no run is missed: every maximal rising run of the series that has
    at least [minConsecutiveIntervals] intervals is returned, with its
    first sample as [startIndex] and its last as [endIndex]. *)
Theorem every_long_run_is_reported (data : list StockData.t)
    (minConsecutiveIntervals : Z) :
  exists sequences,
    detectBeatSequences data minConsecutiveIntervals = Ok sequences
    /\ forall s e,
         maximalRun data s e -> minConsecutiveIntervals <= e - s ->
         exists b, In b sequences /\ BeatSequence.startIndex b = s
                   /\ BeatSequence.endIndex b = e.
Proof.
  destruct (detectBeatSequences_reported data minConsecutiveIntervals)
    as [sequences [E [_ [_ [_ Hcomplete]]]]].
  exists sequences. split; [exact E |].
  intros s e Hmax Hmin. apply Hcomplete; [exact Hmax | exact Hmin |].
  now destruct Hmax as [_ [He _]].
Qed.

(** X17: the beat sequences come in the order of the series and do not
    overlap: of two sequences, the one that comes first in the array ends
    before the other starts. *)
Theorem beat_sequences_do_not_overlap (data : list StockData.t)
    (minConsecutiveIntervals : Z) :
  exists sequences,
    detectBeatSequences data minConsecutiveIntervals = Ok sequences
    /\ forall m n b c,
         sequences.[m] = Some b -> sequences.[n] = Some c -> m < n ->
         BeatSequence.endIndex b < BeatSequence.startIndex c.
Proof.
  destruct (detectBeatSequences_reported data minConsecutiveIntervals)
    as [sequences [E [_ [_ [Hapart _]]]]].
  exists sequences. split; [exact E |].
  exact (sorted_get _ sequences Hapart).
Qed.

(** ** The fields of a beat sequence *)

Lemma beatSequence_fields (data : list StockData.t) (s e : Z)
    (b : BeatSequence.t) :
  beatSequence data s e = Ok b ->
  exists first last,
    data.[s] = Some first /\ data.[e] = Some last
    /\ b = BeatSequence.mk
             ("beat-" ++ showInt s ++ "-" ++ showInt e) s e
             (StockData.timestamp first) (StockData.timestamp last)
             (StockData.price first) (StockData.price last)
             (roundTo 2 (sub (StockData.price last) (StockData.price first)))
             (roundTo 2 (mul (div (sub (StockData.price last)
                                       (StockData.price first))
                                  (StockData.price first)) 100))
             (slice data s (e + 1)).
Proof.
  unfold beatSequence.
  destruct data.[s] as [first |]; destruct data.[e] as [last |];
    cbn [field bind]; try discriminate.
  intros E. injection E as <-. now exists first, last.
Qed.

(** The slice between two indices of the series. *)
Lemma slice_between {A} (a : list A) (s e : Z) :
  0 <= s <= e -> e < length a ->
  length (slice a s (e + 1)) = e - s + 1
  /\ forall k, 0 <= k <= e - s -> (slice a s (e + 1)).[k] = a.[s + k].
Proof.
  intros Hs He.
  destruct (slice_spec a s (e + 1)) as [Hsize Hget].
  assert (Hfrom : relIndex (length a) s = s)
    by (unfold relIndex; destruct (Z.ltb_spec s 0); lia).
  assert (Hto : relIndex (length a) (e + 1) = e + 1)
    by (unfold relIndex; destruct (Z.ltb_spec (e + 1) 0); lia).
  rewrite Hfrom, Hto in Hsize, Hget.
  split; [rewrite Hsize; lia |].
  intros k Hk. apply Hget. lia.
Qed.

(** Along a rising run the price at the end is above the price at the
    start. *)
Lemma rising_run_gains (data : list StockData.t) (s : Z) :
  forall (n : nat) (first : StockData.t),
    data.[s] = Some first ->
    (forall k, s <= k < s + Z.of_nat n -> risesAt data k) ->
    exists last,
      data.[s + Z.of_nat n] = Some last
      /\ (StockData.price first <= StockData.price last)%Q
      /\ ((0 < n)%nat -> (StockData.price first < StockData.price last)%Q).
Proof.
  induction n as [| n IH]; intros first Efirst Hrise.
  - exists first. replace (s + Z.of_nat 0) with s by lia.
    split; [exact Efirst |]. split; [apply Qle_refl | intros H; lia].
  - destruct (IH first Efirst) as [mid [Emid [Hle _]]].
    { intros k Hk. apply Hrise. lia. }
    destruct (Hrise (s + Z.of_nat n)) as [a [b [Ea [Eb Hlt]]]]; [lia |].
    rewrite Emid in Ea. injection Ea as <-.
    exists b. replace (s + Z.of_nat (S n)) with (s + Z.of_nat n + 1) by lia.
    split; [exact Eb |].
    assert (Hgain : (StockData.price first < StockData.price b)%Q)
      by (eapply Qle_lt_trans; eassumption).
    split; [now apply Qlt_le_weak | intros _; exact Hgain].
Qed.

(** X18: a beat sequence describes its run of the series: its prices and
    times are those of the samples at [startIndex] and [endIndex], its
    start price is below its end price, its gain is their difference, as
    the program computes it on doubles, rounded to cents, and its data
    points are the samples from [startIndex] to [endIndex], all of them
    and in order. *)
Theorem beat_sequence_describes_its_run (data : list StockData.t)
    (minConsecutiveIntervals : Z) :
  exists sequences,
    detectBeatSequences data minConsecutiveIntervals = Ok sequences
    /\ forall b, In b sequences ->
         exists first last,
           data.[BeatSequence.startIndex b] = Some first
           /\ data.[BeatSequence.endIndex b] = Some last
           /\ BeatSequence.startPrice b = StockData.price first
           /\ BeatSequence.endPrice b = StockData.price last
           /\ BeatSequence.startTime b = StockData.timestamp first
           /\ BeatSequence.endTime b = StockData.timestamp last
           /\ (BeatSequence.startPrice b < BeatSequence.endPrice b)%Q
           /\ roundedTo 2
                (sub (BeatSequence.endPrice b) (BeatSequence.startPrice b))
                (BeatSequence.dollarGain b)
           /\ length (BeatSequence.dataPoints b)
              = BeatSequence.endIndex b - BeatSequence.startIndex b + 1
           /\ forall k,
                0 <= k <= BeatSequence.endIndex b - BeatSequence.startIndex b ->
                (BeatSequence.dataPoints b).[k]
                = data.[BeatSequence.startIndex b + k].
Proof.
  destruct (detectBeatSequences_emitted data minConsecutiveIntervals)
    as [sequences [E Hall]].
  exists sequences. split; [exact E |].
  intros b Hb. destruct (Hall b Hb) as [Hmade [Hstart [Hend [Hrise _]]]].
  destruct (beatSequence_fields _ _ _ _ Hmade) as [first [last [Ef [El Eb]]]].
  exists first, last.
  destruct (slice_between data (BeatSequence.startIndex b)
              (BeatSequence.endIndex b)) as [Hsize Hget]; [lia | lia |].
  destruct (rising_run_gains data (BeatSequence.startIndex b)
              (Z.to_nat (BeatSequence.endIndex b - BeatSequence.startIndex b))
              first Ef) as [last' [El' [_ Hgain]]].
  { intros k Hk. apply Hrise. lia. }
  replace (BeatSequence.startIndex b
           + Z.of_nat (Z.to_nat (BeatSequence.endIndex b
                                 - BeatSequence.startIndex b)))
    with (BeatSequence.endIndex b) in El' by lia.
  rewrite El in El'. injection El' as <-.
  assert (Hprices : (StockData.price first < StockData.price last)%Q)
    by (apply Hgain; lia).
  split; [exact Ef |]. split; [exact El |].
  rewrite Eb at 1 2 3 4 5 6 7 8 9 10 11.
  cbn [BeatSequence.startPrice BeatSequence.endPrice BeatSequence.startTime
         BeatSequence.endTime BeatSequence.dollarGain BeatSequence.dataPoints].
  do 4 (split; [reflexivity |]). split; [exact Hprices |].
  split; [apply roundTo_double, sub_double |].
  split; [exact Hsize |].
  intros k Hk. rewrite Eb at 1. cbn [BeatSequence.dataPoints]. now apply Hget.
Qed.

(** ** Potential-profit sequences *)

(** Trimming the first and the last element of an array of at least
    three. *)
Lemma slice_trim {A} (a : list A) :
  3 <= length a ->
  length (slice a 1 (-1)) = length a - 2
  /\ forall k, 0 <= k < length a - 2 -> (slice a 1 (-1)).[k] = a.[k + 1].
Proof.
  intros Hlen.
  destruct (slice_spec a 1 (-1)) as [Hsize Hget].
  assert (Hfrom : relIndex (length a) 1 = 1) by (unfold relIndex; cbn; lia).
  assert (Hto : relIndex (length a) (-1) = length a - 1)
    by (unfold relIndex; cbn; lia).
  rewrite Hfrom, Hto in Hsize, Hget.
  split; [rewrite Hsize; lia |].
  intros k Hk. rewrite Hget by lia. f_equal. lia.
Qed.

(** The arrays that [calculatePotentialProfitSequences] goes through: a
    sequence of fewer than 3 data points is passed over, any other adds
    its trimmed copy at the end. *)
Lemma potentialProfit_scan (beatSequences : list BeatSequence.t) :
  forall acc,
    exists out,
      forEach beatSequences (fun sequence potentialProfitSequences =>
    if length (BeatSequence.dataPoints sequence) <? 3 then Ok potentialProfitSequences
    else
    let trimmedDataPoints := slice (BeatSequence.dataPoints sequence) 1 (-1) in
    if length trimmedDataPoints =? 0 then Ok potentialProfitSequences else
    let startData := trimmedDataPoints.[0] in
    let endData := trimmedDataPoints.[length trimmedDataPoints - 1] in
    let? endPrice := field endData StockData.price in
    let? startPrice := field startData StockData.price in
    let dollarGain := sub endPrice startPrice in
    let percentageChange := mul (div dollarGain startPrice) 100 in
    let? startTime := field startData StockData.timestamp in
    let? endTime := field endData StockData.timestamp in
    Ok (potentialProfitSequences ++
        [PotentialProfitSequence.mk
           ("potential-" ++ BeatSequence.id sequence)
           sequence
           (BeatSequence.startIndex sequence + 1)
           (BeatSequence.endIndex sequence - 1)
           startTime endTime startPrice endPrice
           (roundTo 2 dollarGain) (roundTo 2 percentageChange)
           trimmedDataPoints 2])) acc = Ok (acc ++ out)
      /\ (forall p, In p out ->
            In (PotentialProfitSequence.originalSequence p) beatSequences
            /\ trimmedFrom (PotentialProfitSequence.originalSequence p) p)
      /\ (forall b, In b beatSequences ->
            3 <= length (BeatSequence.dataPoints b) ->
            exists p, In p out /\ PotentialProfitSequence.originalSequence p = b)
      /\ (length out <= length beatSequences)
      /\ ((forall b, In b beatSequences ->
             3 <= length (BeatSequence.dataPoints b)) ->
          length out = length beatSequences).
Proof.
  match goal with
  | |- context [forEach _ ?f _] => set (body := f)
  end.
  induction beatSequences as [| b rest IH]; intros acc; cbn [forEach].
  - exists []. rewrite app_nil_r. split; [reflexivity |].
    split; [intros p [] |]. split; [intros b [] |]. split; [reflexivity |].
    intros _. reflexivity.
  - unfold body at 1.
    destruct (Z.ltb_spec (length (BeatSequence.dataPoints b)) 3)
      as [Hshort | Hlong]; cbn [bind].
    + destruct (IH acc) as [out [E [Hsound [Hcomplete [Hsize Hfull]]]]].
      exists out. split; [exact E |]. split; [| split; [| split]].
      * intros p Hp. destruct (Hsound p Hp) as [Hin Htrim].
        split; [now right | exact Htrim].
      * intros b' [<- | Hb'] Hlen; [lia | now apply Hcomplete].
      * pose proof (length_snoc rest b) as Hsnoc. unfold length in *.
        cbn [List.length]. lia.
      * intros Hall. specialize (Hall b (or_introl eq_refl)). lia.
    + destruct (slice_trim (BeatSequence.dataPoints b) Hlong) as [Htrim Hget].
      cbv zeta.
      destruct (Z.eqb_spec (length (slice (BeatSequence.dataPoints b) 1 (-1))) 0)
        as [Hzero | _]; [lia |].
      rewrite Htrim, !Hget by lia.
      destruct (get_in_range (BeatSequence.dataPoints b) (0 + 1))
        as [first Efirst]; [lia |].
      destruct (get_in_range (BeatSequence.dataPoints b)
                  (length (BeatSequence.dataPoints b) - 2 - 1 + 1))
        as [last Elast]; [lia |].
      rewrite Efirst, Elast. cbn [field bind].
      match goal with
      | |- context [forEach rest ?body (acc ++ [?new])] =>
          destruct (IH (acc ++ [new]))
            as [out [E [Hsound [Hcomplete [Hsize Hfull]]]]];
          exists (new :: out)
      end.
      split; [rewrite E, <- app_assoc; reflexivity |].
      split; [| split; [| split]].
      * intros p [<- | Hp].
        -- split; [now left |].
           cbn. repeat split; try assumption.
           exists first, last.
           replace (length (BeatSequence.dataPoints b) - 2)
             with (length (BeatSequence.dataPoints b) - 2 - 1 + 1) by lia.
           repeat split; assumption.
        -- destruct (Hsound p Hp) as [Hin Htrimmed].
           split; [now right | exact Htrimmed].
      * intros b' [<- | Hb'] Hlen.
        -- eexists. split; [now left | reflexivity].
        -- destruct (Hcomplete b' Hb' Hlen) as [p [Hp Hp']].
           exists p. split; [now right | exact Hp'].
      * unfold length in *. cbn [List.length]. lia.
      * intros Hall. unfold length in *. cbn [List.length].
        rewrite Nat2Z.inj_succ, Nat2Z.inj_succ. f_equal.
        apply Hfull. intros b' Hb'. apply Hall. now right.
Qed.

(** X19: a potential-profit sequence is a beat sequence of the input
    without its first and its last data point: its data points are those
    of the original from the second to the last but one, its indices move
    inwards by one, and [excludedBeats] is 2.  Every input sequence with
    at least 3 data points yields one, the shorter ones yield none. *)
Theorem potential_profit_is_trimmed_beat (beatSequences : list BeatSequence.t) :
  exists profits,
    calculatePotentialProfitSequences beatSequences = Ok profits
    /\ (forall p, In p profits ->
          let b := PotentialProfitSequence.originalSequence p in
          In b beatSequences
          /\ 3 <= length (BeatSequence.dataPoints b)
          /\ length (PotentialProfitSequence.dataPoints p)
             = length (BeatSequence.dataPoints b) - 2
          /\ (forall k, 0 <= k < length (PotentialProfitSequence.dataPoints p) ->
                (PotentialProfitSequence.dataPoints p).[k]
                = (BeatSequence.dataPoints b).[k + 1])
          /\ PotentialProfitSequence.startIndex p = BeatSequence.startIndex b + 1
          /\ PotentialProfitSequence.endIndex p = BeatSequence.endIndex b - 1
          /\ PotentialProfitSequence.excludedBeats p = 2)
    /\ (forall b, In b beatSequences ->
          3 <= length (BeatSequence.dataPoints b) ->
          exists p, In p profits /\ PotentialProfitSequence.originalSequence p = b)
    /\ length profits <= length beatSequences.
Proof.
  destruct (potentialProfit_scan beatSequences [])
    as [out [E [Hsound [Hcomplete [Hsize _]]]]].
  exists out. split; [exact E |]. split; [| split; assumption].
  intros p Hp. cbv zeta.
  destruct (Hsound p Hp) as [Hin [_ [Hlong [Hdata [Hstart [Hend [Hexcl _]]]]]]].
  destruct (slice_trim _ Hlong) as [Htrim Hget].
  rewrite Hdata.
  split; [exact Hin |]. split; [exact Hlong |]. split; [exact Htrim |].
  split; [| now repeat split].
  intros k Hk. apply Hget. lia.
Qed.

(** X20: detection followed by trimming keeps the link with the series:
    the start and end price of every potential-profit sequence are the
    prices of the samples at its own [startIndex] and [endIndex], the
    price rises on every interval between them, and with a minimum of 2
    intervals or more every beat sequence yields a potential-profit
    sequence. *)
Theorem potential_profit_of_detected_beats (data : list StockData.t)
    (minConsecutiveIntervals : Z) :
  exists beats profits,
    detectBeatSequences data minConsecutiveIntervals = Ok beats
    /\ calculatePotentialProfitSequences beats = Ok profits
    /\ (forall p, In p profits ->
          exists first last,
            data.[PotentialProfitSequence.startIndex p] = Some first
            /\ data.[PotentialProfitSequence.endIndex p] = Some last
            /\ PotentialProfitSequence.startPrice p = StockData.price first
            /\ PotentialProfitSequence.endPrice p = StockData.price last
            /\ PotentialProfitSequence.startIndex p
               <= PotentialProfitSequence.endIndex p
            /\ (PotentialProfitSequence.startPrice p
                <= PotentialProfitSequence.endPrice p)%Q
            /\ forall k,
                 PotentialProfitSequence.startIndex p <= k
                 < PotentialProfitSequence.endIndex p -> risesAt data k)
    /\ (2 <= minConsecutiveIntervals -> length profits = length beats).
Proof.
  destruct (detectBeatSequences_reported data minConsecutiveIntervals)
    as [beats [E [Hall [Hrep _]]]].
  destruct (potentialProfit_scan beats [])
    as [profits [E' [Hsound [_ [_ Hfull]]]]].
  exists beats, profits. split; [exact E |]. split; [exact E' |].
  assert (Hpoints : forall b, In b beats ->
            length (BeatSequence.dataPoints b)
            = BeatSequence.endIndex b - BeatSequence.startIndex b + 1
            /\ forall k,
                 0 <= k <= BeatSequence.endIndex b - BeatSequence.startIndex b ->
                 (BeatSequence.dataPoints b).[k]
                 = data.[BeatSequence.startIndex b + k]).
  { intros b Hb. destruct (Hall b Hb) as [Hmade [Hstart [Hend _]]].
    destruct (beatSequence_fields _ _ _ _ Hmade) as [first [last [_ [_ Eb]]]].
    pose proof (f_equal BeatSequence.dataPoints Eb) as Hdata.
    cbn [BeatSequence.dataPoints] in Hdata. rewrite Hdata.
    apply slice_between; lia. }
  split.
  - intros p Hp.
    destruct (Hsound p Hp)
      as [Hin [_ [Hlong [_ [Hstart [Hend [_ [first [last
            [Efirst [Elast [Hsp [Hep _]]]]]]]]]]]]].
    set (b := PotentialProfitSequence.originalSequence p) in *.
    destruct (Hpoints b Hin) as [Hsize Hget].
    destruct (Hall b Hin) as [_ [_ [_ [Hrise _]]]].
    rewrite Hget in Efirst, Elast by lia.
    exists first, last. rewrite Hstart, Hend.
    split; [exact Efirst |].
    split; [rewrite <- Elast; f_equal; lia |].
    split; [exact Hsp |]. split; [exact Hep |]. split; [lia |].
    split; [| intros k Hk; apply Hrise; lia].
    destruct (rising_run_gains data (BeatSequence.startIndex b + 1)
                (Z.to_nat (BeatSequence.endIndex b - 1
                           - (BeatSequence.startIndex b + 1)))
                first Efirst) as [last' [Elast' [Hle _]]].
    { intros k Hk. apply Hrise. lia. }
    replace (BeatSequence.startIndex b + 1
             + Z.of_nat (Z.to_nat (BeatSequence.endIndex b - 1
                                   - (BeatSequence.startIndex b + 1))))
      with (BeatSequence.startIndex b
            + (length (BeatSequence.dataPoints b) - 2)) in Elast' by lia.
    rewrite Elast in Elast'. injection Elast' as <-.
    now rewrite Hsp, Hep.
  - intros Hmin. apply Hfull. intros b Hb.
    destruct (Hpoints b Hb) as [Hsize _].
    destruct (Hrep b Hb) as [_ [Hlen _]]. lia.
Qed.

(** ** Potential-loss sequences *)

Lemma downUpDown_test (data : list StockData.t) (i : Z)
    (a b c d : StockData.t) :
  data.[i - 2] = Some a -> data.[i - 1] = Some b ->
  data.[i] = Some c -> data.[i + 1] = Some d ->
  (downUpDown data i <->
   ltb (StockData.price b) (StockData.price a)
   && gtb (StockData.price c) (StockData.price b)
   && ltb (StockData.price d) (StockData.price c) = true).
Proof.
  intros Ea Eb Ec Ed. unfold gtb. rewrite !andb_true_iff, !ltb_true. split.
  - intros [a' [b' [c' [d' [Ea' [Eb' [Ec' [Ed' [H1 [H2 H3]]]]]]]]]].
    rewrite Ea in Ea'. rewrite Eb in Eb'. rewrite Ec in Ec'. rewrite Ed in Ed'.
    injection Ea' as <-. injection Eb' as <-.
    injection Ec' as <-. injection Ed' as <-. now repeat split.
  - intros [[H1 H2] H3]. exists a, b, c, d. now repeat split.
Qed.

Lemma detectPotentialLossSequences_scan (data : list StockData.t) :
  exists sequences,
    detectPotentialLossSequences data = Ok sequences
    /\ lossScan data (length data - 1) sequences.
Proof.
  assert (Hstart : forall i, i <= 2 -> lossScan data i []).
  { intros i Hi. split; [intros l [] | split; [| constructor]].
    intros j Hj [a [b [c [d [Ea _]]]]]. apply get_Some_range in Ea. lia. }
  unfold detectPotentialLossSequences.
  destruct (Z.ltb_spec (length data) 4) as [Hshort | Hlong].
  { exists []. split; [reflexivity |]. apply Hstart. lia. }
  match goal with
  | |- context [forRange ?lo ?hi ?body ?s] =>
      apply (forRange_ok (lossScan data) body lo hi s)
  end; [lia | apply Hstart; lia |].
  intros j sequences Hj [Hsound [Hcomplete Hsorted]].
  destruct (get_in_range data (j - 2)) as [a Ea]; [lia |].
  destruct (get_in_range data (j - 1)) as [b Eb]; [lia |].
  destruct (get_in_range data j) as [c Ec]; [lia |].
  destruct (get_in_range data (j + 1)) as [d Ed]; [lia |].
  rewrite Ea, Eb, Ec, Ed. cbn [field bind].
  pose proof (downUpDown_test data j a b c d Ea Eb Ec Ed) as Htest.
  destruct (ltb (StockData.price b) (StockData.price a)
            && gtb (StockData.price c) (StockData.price b)
            && ltb (StockData.price d) (StockData.price c)).
  - eexists. split; [reflexivity |].
    fold (lossOf j a b c d).
    destruct (proj2 Htest eq_refl)
      as [a' [b' [c' [d' [Ea' [Eb' [Ec' [Ed' [H1 [H2 H3]]]]]]]]]].
    rewrite Ea in Ea'. rewrite Eb in Eb'. rewrite Ec in Ec'. rewrite Ed in Ed'.
    injection Ea' as <-. injection Eb' as <-.
    injection Ec' as <-. injection Ed' as <-.
    split; [| split].
    + intros l Hl. apply in_app_or in Hl. destruct Hl as [Hl | [<- | []]].
      * destruct (Hsound l Hl) as [Hlt Hat]. split; [lia | exact Hat].
      * split; [cbn; lia |]. exists a, b, c, d. cbn. now repeat split.
    + intros k Hk Hpattern. destruct (Z.eq_dec k j) as [-> | Hne].
      * exists (lossOf j a b c d).
        split; [apply in_or_app; right; now left | reflexivity].
      * destruct (Hcomplete k) as [l [Hl Hl']]; [lia | exact Hpattern |].
        exists l. split; [apply in_or_app; now left | exact Hl'].
    + apply snoc_sorted; [exact Hsorted |].
      intros l Hl. destruct (Hsound l Hl) as [Hlt _]. cbn. lia.
  - eexists. split; [reflexivity |]. split; [| split; [| exact Hsorted]].
    + intros l Hl. destruct (Hsound l Hl) as [Hlt Hat]. split; [lia | exact Hat].
    + intros k Hk Hpattern. destruct (Z.eq_dec k j) as [-> | Hne].
      * apply Htest in Hpattern. discriminate Hpattern.
      * apply Hcomplete; [lia | exact Hpattern].
Qed.

(** X21: every potential-loss sequence records a down-up-down pattern of
    the series: its three indices are consecutive, its prices and times
    are those of the samples at these indices, the price before the
    reversal is below both the price two samples before the reversal and
    the reversal price, the price after it is below the reversal price,
    the loss is the drop after the reversal, as the program computes it
    on doubles, rounded to cents, and the four data points are the samples
    of the window. *)
Theorem potential_loss_is_down_up_down (data : list StockData.t) :
  exists sequences,
    detectPotentialLossSequences data = Ok sequences
    /\ forall l, In l sequences ->
         let i := PotentialLossSequence.reversalIndex l in
         exists a b c d,
           data.[i - 2] = Some a /\ data.[i - 1] = Some b
           /\ data.[i] = Some c /\ data.[i + 1] = Some d
           /\ PotentialLossSequence.dataPoints l = [a; b; c; d]
           /\ PotentialLossSequence.beforeReversalIndex l = i - 1
           /\ PotentialLossSequence.afterReversalIndex l = i + 1
           /\ PotentialLossSequence.beforeReversalPrice l = StockData.price b
           /\ PotentialLossSequence.reversalPrice l = StockData.price c
           /\ PotentialLossSequence.afterReversalPrice l = StockData.price d
           /\ PotentialLossSequence.beforeReversalTime l = StockData.timestamp b
           /\ PotentialLossSequence.reversalTime l = StockData.timestamp c
           /\ PotentialLossSequence.afterReversalTime l = StockData.timestamp d
           /\ (StockData.price b < StockData.price a)%Q
           /\ (StockData.price b < StockData.price c)%Q
           /\ (StockData.price d < StockData.price c)%Q
           /\ roundedTo 2 (sub (StockData.price c) (StockData.price d))
                (PotentialLossSequence.dollarLoss l).
Proof.
  destruct (detectPotentialLossSequences_scan data)
    as [sequences [E [Hsound _]]].
  exists sequences. split; [exact E |].
  intros l Hl. cbv zeta.
  destruct (Hsound l Hl) as [_ [a [b [c [d [Ea [Eb [Ec [Ed [H1 [H2 [H3 El]]]]]]]]]]]].
  exists a, b, c, d.
  do 4 (split; [assumption |]).
  rewrite El. cbn -[roundTo].
  do 9 (split; [reflexivity |]). do 3 (split; [assumption |]).
  apply roundTo_double, sub_double.
Qed.

(** X22: no pattern is missed, and overlapping windows are all kept: for
    every sample into which the price rises after a fall and after which
    it falls again, a sequence with that reversal index is returned; the
    sequences come in the order of their reversal indices. *)
Theorem every_down_up_down_is_reported (data : list StockData.t) :
  exists sequences,
    detectPotentialLossSequences data = Ok sequences
    /\ (forall i, downUpDown data i ->
          exists l, In l sequences /\ PotentialLossSequence.reversalIndex l = i)
    /\ forall m n l l',
         sequences.[m] = Some l -> sequences.[n] = Some l' -> m < n ->
         PotentialLossSequence.reversalIndex l
         < PotentialLossSequence.reversalIndex l'.
Proof.
  destruct (detectPotentialLossSequences_scan data)
    as [sequences [E [_ [Hcomplete Hsorted]]]].
  exists sequences. split; [exact E |]. split.
  - intros i Hpattern. apply Hcomplete; [| exact Hpattern].
    destruct Hpattern as [a [b [c [d [_ [_ [_ [Ed _]]]]]]]].
    apply get_Some_range in Ed. lia.
  - exact (sorted_get _ sequences Hsorted).
Qed.

(** X23: the two detectors agree: the reversal of every potential-loss
    sequence is a peak among the direction-change points of the same
    series, and the sample before it is a valley among them. *)
Theorem loss_reversal_is_a_peak (data : list StockData.t) :
  exists sequences points,
    detectPotentialLossSequences data = Ok sequences
    /\ getDirectionChangePoints data = Ok points
    /\ forall l, In l sequences ->
         exists top bottom,
           In top points /\ In bottom points
           /\ DirectionChangePoint.index top
              = PotentialLossSequence.reversalIndex l
           /\ DirectionChangePoint.type top = peak
           /\ DirectionChangePoint.price top
              = PotentialLossSequence.reversalPrice l
           /\ DirectionChangePoint.index bottom
              = PotentialLossSequence.beforeReversalIndex l
           /\ DirectionChangePoint.type bottom = valley
           /\ DirectionChangePoint.price bottom
              = PotentialLossSequence.beforeReversalPrice l.
Proof.
  destruct (detectPotentialLossSequences_scan data)
    as [sequences [E [Hsound _]]].
  destruct (getDirectionChangePoints_scan data)
    as [points [E' [Hpoints [Hmin [Hmax _]]]]].
  exists sequences, points. split; [exact E |]. split; [exact E' |].
  intros l Hl.
  destruct (Hsound l Hl) as [_ [a [b [c [d [Ea [Eb [Ec [Ed [H1 [H2 [H3 El]]]]]]]]]]]].
  set (i := PotentialLossSequence.reversalIndex l) in *.
  pose proof (get_Some_range _ _ _ Ed) as Hrange.
  destruct (Hmax i) as [top [Htop [Itop Ttop]]]; [lia | |].
  { exists b, c, d. now repeat split. }
  destruct (Hmin (i - 1)) as [bottom [Hbottom [Ibottom Tbottom]]]; [lia | |].
  { exists a, b, c. replace (i - 1 - 1) with (i - 2) by lia.
    replace (i - 1 + 1) with i by lia. now repeat split. }
  exists top, bottom.
  destruct (Hpoints top Htop) as [_ [c' [Ec' [Ptop _]]]].
  destruct (Hpoints bottom Hbottom) as [_ [b' [Eb' [Pbottom _]]]].
  rewrite Itop, Ec in Ec'. injection Ec' as <-.
  rewrite Ibottom, Eb in Eb'. injection Eb' as <-.
  pose proof (f_equal PotentialLossSequence.reversalPrice El) as Hrp.
  pose proof (f_equal PotentialLossSequence.beforeReversalPrice El) as Hbp.
  pose proof (f_equal PotentialLossSequence.beforeReversalIndex El) as Hbi.
  cbn in Hrp, Hbp, Hbi.
  repeat split; try assumption; congruence.
Qed.

(** ** The most recent direction change *)

Lemma In_get {A} (a : list A) (x : A) :
  In x a -> exists m, 0 <= m < length a /\ a.[m] = Some x.
Proof.
  intros Hx. apply In_nth_error in Hx. destruct Hx as [n En].
  assert (Hn : (n < List.length a)%nat) by (apply nth_error_Some; congruence).
  exists (Z.of_nat n). unfold length. split; [lia |].
  unfold get. destruct (Z.ltb_spec (Z.of_nat n) 0); [lia |].
  now rewrite Nat2Z.id.
Qed.

(** X24: the point that [getLastDirectionChangePoint] returns is the most
    recent one: it is one of the direction-change points and none of them
    has a larger index; it is [null] only when there is no direction
    change at all. *)
Theorem last_point_is_most_recent (data : list StockData.t) :
  exists points last,
    getDirectionChangePoints data = Ok points
    /\ getLastDirectionChangePoint data = Ok last
    /\ (last = None <-> points = [])
    /\ forall p, last = Some p ->
         In p points
         /\ forall q, In q points ->
              DirectionChangePoint.index q <= DirectionChangePoint.index p.
Proof.
  destruct (getDirectionChangePoints_scan data) as [points [E [_ [_ [_ Hasc]]]]].
  unfold getLastDirectionChangePoint. rewrite E. cbn [bind].
  exists points. eexists. split; [reflexivity |]. split; [reflexivity |].
  pose proof (length_nonneg points) as Hlen.
  destruct (Z.gtb_spec (length points) 0) as [Hsome | Hnone].
  - destruct (get_in_range points (length points - 1)) as [p Ep]; [lia |].
    rewrite Ep. split.
    + split; [discriminate |]. intros ->. unfold length in Hsome. cbn in Hsome. lia.
    + intros p' Hp'. injection Hp' as <-.
      split; [exact (get_Some_In _ _ _ Ep) |].
      intros q Hq. destruct (In_get _ _ Hq) as [m [Hm Em]].
      destruct (Z.eq_dec m (length points - 1)) as [-> | Hne].
      * rewrite Ep in Em. injection Em as <-. lia.
      * apply Z.lt_le_incl.
        apply (sorted_get _ points Hasc m (length points - 1)); auto. lia.
  - split; [| discriminate].
    split; [intros _ | reflexivity].
    destruct points as [| x rest]; [reflexivity |].
    unfold length in Hnone. cbn [List.length] in Hnone. lia.
Qed.

(** ** The index handed back for [lastProcessedIndex] *)

Lemma directionChangeBuy_point (data : list StockData.t)
    (lastProcessedIndex : option Z) (r : BuyNew.t) :
  shouldBuyDirectionChangeBuy data lastProcessedIndex = Ok r ->
  (BuyNew.shouldBuy r = false /\ BuyNew.newDirectionChange r = None)
  \/ exists p,
       BuyNew.shouldBuy r = true
       /\ BuyNew.newDirectionChange r = Some p
       /\ DirectionChangePoint.type p = valley
       /\ getLastDirectionChangePoint data = Ok (Some p)
       /\ forall processed, lastProcessedIndex = Some processed ->
                            processed < DirectionChangePoint.index p.
Proof.
  unfold shouldBuyDirectionChangeBuy, getLastDirectionChangePoint.
  destruct (length data <? 3); [intros E; injection E as <-; now left |].
  destruct (getDirectionChangePoints data) as [points |]; cbn [bind];
    [| discriminate].
  pose proof (length_nonneg points) as Hlen.
  destruct (Z.eqb_spec (length points) 0) as [Hnone | Hsome];
    [intros E; injection E as <-; now left |].
  destruct (Z.gtb_spec (length points) 0) as [_ |]; [| lia].
  destruct (get_in_range points (length points - 1)) as [p Ep]; [lia |].
  rewrite Ep. cbn [field bind].
  intros E. injection E as <-. cbn.
  destruct (DirectionChangePoint.type p) eqn:Hty; cbn [andb]; [now left |].
  destruct lastProcessedIndex as [processed |].
  - destruct (Z.gtb_spec (DirectionChangePoint.index p) processed);
      [| now left].
    right. exists p. do 4 (split; [first [reflexivity | exact Hty] |]).
    intros k Hk. injection Hk as <-. lia.
  - right. exists p. do 4 (split; [first [reflexivity | exact Hty] |]).
    discriminate.
Qed.

Lemma strategyDecision_newDirectionChange (bot : TradingBot.t)
    (data : list StockData.t) (currentPrice : number)
    (lastProcessedIndex : option Z) (g g' : Random) (d : Decision.t)
    (x : option DirectionChangePoint.t) :
  strategyDecision bot data currentPrice lastProcessedIndex g = Ok (d, g') ->
  Decision.newDirectionChange d = Some x ->
  Decision.action d = BUY
  /\ Settings.tradingMethod (TradingBot.settings bot) = Some direction_change_buy
  /\ TradingBot.currentPosition bot = None
  /\ exists p,
       x = Some p
       /\ DirectionChangePoint.type p = valley
       /\ getLastDirectionChangePoint data = Ok (Some p)
       /\ forall processed, lastProcessedIndex = Some processed ->
                            processed < DirectionChangePoint.index p.
Proof.
  destruct (comparison_rules data)
    as [up [down [Ebuy [Esell [Ebuy' [Esell' [_ [Hlong Hshort]]]]]]]].
  destruct (trendReversal_last data) as [last [_ [Etbuy Etsell]]].
  destruct (shouldBuyDirectionChangeReference_total data currentPrice)
    as [ref Eref].
  destruct (shouldBuyDirectionChangeBuy_total data lastProcessedIndex)
    as [new Enew].
  destruct (shouldBuyConfirmedRecovery_total data currentPrice
              (orDefault (Settings.confirmedRecoveryFirstDelay
                            (TradingBot.settings bot)) 15)
              (orDefault (Settings.confirmedRecoverySecondDelay
                            (TradingBot.settings bot)) 30) g)
    as [rec [g0 Erec]].
  pose proof (directionChangeBuy_point data lastProcessedIndex new Enew)
    as Hpoint.
  unfold strategyDecision, lift, bindEff, pure. cbv zeta.
  rewrite Ebuy, Esell, Ebuy', Esell', Etbuy, Etsell, Eref, Enew.
  assert (Htwo : (length data >=? 2) = true ->
                 exists p, lastTwoPrices data = Ok p).
  { intros H. destruct (Hlong H) as [cur [prev [_ [_ [E _]]]]]. eauto. }
  destruct (length data >=? 2);
    [destruct (Htwo eq_refl) as [two Etwo]; rewrite Etwo
    | destruct (Hshort eq_refl) as [-> ->]];
    (destruct (Settings.tradingMethod (TradingBot.settings bot))
       as [[| | | | |] |];
     destruct (TradingBot.currentPosition bot) as [position |];
     cbn [negb bind fst snd andb]; rewrite ?Erec; cbn [bind fst snd];
     try (destruct Hpoint as [[Hbuy Hnone] | [p [Hbuy [Hsome Hrest]]]];
          [rewrite Hbuy, ?Hnone | rewrite Hbuy, Hsome]);
     case_ifs; cbn [bind];
     try (destruct (BuyReference.shouldBuy ref);
          destruct (BuyReference.referencePoint ref));
     intros E Hnew; injection E as <- <-; cbn in Hnew;
     try discriminate Hnew;
     injection Hnew as <-;
     (split; [reflexivity |]); (split; [reflexivity |]);
     (split; [reflexivity |]);
     exists p; (split; [reflexivity | exact Hrest])).
Qed.

(** X25: [lastProcessedIndex] only advances: a decision carries
    [newDirectionChange] only when it is a BUY of the direction-change-buy
    method for a bot without position, and the point is then the last
    direction change of the series, a valley whose index is beyond the
    [lastProcessedIndex] that was passed in. *)
Theorem new_direction_change_advances (bot : TradingBot.t)
    (data : list StockData.t) (currentPrice : number)
    (lastProcessedIndex : option Z) (g g' : Random) (d : Decision.t)
    (x : option DirectionChangePoint.t) :
  makeTradingDecision bot data currentPrice lastProcessedIndex g = Ok (d, g') ->
  Decision.newDirectionChange d = Some x ->
  Decision.action d = BUY
  /\ Settings.tradingMethod (TradingBot.settings bot) = Some direction_change_buy
  /\ TradingBot.currentPosition bot = None
  /\ exists p,
       x = Some p
       /\ DirectionChangePoint.type p = valley
       /\ getLastDirectionChangePoint data = Ok (Some p)
       /\ forall processed, lastProcessedIndex = Some processed ->
                            processed < DirectionChangePoint.index p.
Proof.
  unfold makeTradingDecision, bindEff, lift, pure.
  destruct (TradingBot.isActive bot); cbn [negb].
  2: { intros E Hnew. injection E as <- <-. discriminate Hnew. }
  destruct (Settings.dollarDropEnabled (TradingBot.settings bot)
            && match TradingBot.currentPosition bot with
               | Some _ => true
               | None => false
               end);
    [| apply strategyDecision_newDirectionChange].
  destruct (shouldSellWithDollarDrop bot currentPrice data) as [r |];
    cbn [bind fst snd]; [| discriminate].
  destruct (SellResult.shouldSell r).
  { intros E Hnew. injection E as <- <-. discriminate Hnew. }
  destruct (SellResult.updatePosition r);
    [| apply strategyDecision_newDirectionChange].
  intros E Hnew. injection E as <- <-. discriminate Hnew.
Qed.

Lemma new_direction_change_advances_witness :
  exists p,
    DirectionChangePoint.index p = 7
    /\ DirectionChangePoint.type p = valley
    /\ forall processed, Some 5 = Some processed ->
                         processed < DirectionChangePoint.index p.
Proof.
  destruct (new_direction_change_advances
              (TradingBot.mk true (plainSettings direction_change_buy) None)
              (series [10; 11; 12; 13; 12; 11; 12; 11; 12]%Q) 12 (Some 5)
              alwaysUp alwaysUp
              (Decision.mk BUY
                 [Lit "Direction changed from DOWN to UP at "; Fixed 2 11]
                 None
                 (Some (Some (DirectionChangePoint.mk 7 420000 11 valley)))
                 None)
              (Some (DirectionChangePoint.mk 7 420000 11 valley))
              eq_refl eq_refl)
    as [_ [_ [_ [p [Ep [Hty [_ Hnew]]]]]]].
  injection Ep as <-.
  exists (DirectionChangePoint.mk 7 420000 11 valley).
  split; [reflexivity |]. split; [exact Hty | exact Hnew].
Defined.

(** ** Profit taking *)

Lemma geb_true (x y : number) : geb x y = true <-> (y <= x)%Q.
Proof. apply Qle_bool_iff. Qed.

(** A threshold that is left out, or configured as a number that is not
    negative, is positive once its default is applied. *)
Lemma orDefault_positive (x : option number) (d : number) :
  (0 < double d)%Q -> (forall t, x = Some t -> (0 <= t)%Q) ->
  (0 < orDefault x d)%Q.
Proof.
  intros Hd Hx. unfold orDefault. destruct x as [t |]; [| exact Hd].
  destruct (Qeq_bool (double t) 0) eqn:E; [exact Hd |].
  apply Qeq_bool_neq in E. specialize (Hx t eq_refl).
  apply double_nonneg in Hx.
  apply Qle_lteq in Hx. destruct Hx as [Hlt | Heq]; [exact Hlt |].
  elim E. now symmetry.
Qed.

(** The signs that rounding keeps: a difference that the program finds
    positive is positive, and so is a dividend whose quotient by a divisor
    that is not negative it finds positive. *)
Lemma sub_positive (x y : number) : (0 < sub x y)%Q -> (y < x)%Q.
Proof.
  unfold sub. intros H. apply double_positive in H.
  apply double_lt. lra.
Qed.

Lemma mul_nonneg (x y : number) : (0 <= x)%Q -> (0 <= y)%Q -> (0 <= mul x y)%Q.
Proof.
  intros Hx Hy. unfold mul. apply double_nonneg.
  apply Qmult_le_0_compat; now apply double_nonneg.
Qed.

Lemma mul_lt_r (x y s : number) :
  (0 <= s)%Q -> (mul y s < mul x s)%Q -> (y < x)%Q.
Proof.
  intros Hs H. unfold mul in H. apply double_lt in H.
  pose proof (double_nonneg s Hs) as Hds.
  apply double_lt. nra.
Qed.

Lemma percentage_positive (x y : number) :
  (0 <= y)%Q -> (0 < mul (div x y) 100)%Q -> (0 < x)%Q.
Proof.
  intros Hy H. unfold mul in H. apply double_positive in H.
  change (double 100) with 100%Q in H.
  assert (Hq : (0 < double (div x y))%Q) by lra.
  unfold div in Hq. rewrite double_idempotent in Hq.
  apply double_positive in Hq.
  pose proof (double_nonneg y Hy) as Hdy.
  apply double_positive.
  destruct (Qeq_dec (double y) 0) as [Hzero | Hnz].
  - exfalso. unfold Qdiv in Hq. rewrite Hzero in Hq.
    change (/ 0)%Q with 0%Q in Hq. rewrite Qmult_0_r in Hq.
    exact (Qlt_irrefl _ Hq).
  - assert (Hpos : (0 < double y)%Q).
    { apply Qle_lteq in Hdy. destruct Hdy as [Hlt | Heq]; [exact Hlt |].
      elim Hnz. now symmetry. }
    assert (Hback : (double x == double x / double y * double y)%Q)
      by (symmetry; rewrite Qmult_comm; now apply Qmult_div_r).
    rewrite Hback. apply Qmult_lt_0_compat; assumption.
Qed.

(** X26: profit taking sells in profit only: when it is the one rule of
    the overlay that is switched on, for a position of a positive number
    of shares bought at a positive price, and a percentage threshold and a
    trigger amount that are not configured negative, the overlay sells
    only at a live price above the buy price, and only when the live price
    is below the last but one sample of the series, the drop that the
    program computes on doubles being the trigger amount (0.10 by default)
    or more. *)
Theorem profit_taking_sells_in_profit (bot : TradingBot.t)
    (position : Position.t) (currentPrice : number) (data : list StockData.t)
    (r : SellResult.t) :
  TradingBot.currentPosition bot = Some position ->
  Settings.sellAtBuyPriceEnabled (TradingBot.settings bot) = false ->
  Settings.consecutiveFallsEnabled (TradingBot.settings bot) = false ->
  (0 < Position.buyPrice position)%Q ->
  (0 < Position.shares position)%Q ->
  (forall t, Settings.profitTakingPercentage (TradingBot.settings bot) = Some t ->
             (0 <= t)%Q) ->
  (forall t, Settings.dollarDropTriggerAmount (TradingBot.settings bot) = Some t ->
             (0 <= t)%Q) ->
  shouldSellWithDollarDrop bot currentPrice data = Ok r ->
  SellResult.shouldSell r = true ->
  Settings.profitTakingEnabled (TradingBot.settings bot) = true
  /\ (Position.buyPrice position < currentPrice)%Q
  /\ exists previous,
       data.[length data - 2] = Some previous
       /\ (currentPrice < StockData.price previous)%Q
       /\ (orDefault (Settings.dollarDropTriggerAmount (TradingBot.settings bot))
             0.10
           <= sub (StockData.price previous) currentPrice)%Q.
Proof.
  intros Hpos Hbuyrule Hfalls Hbuy Hshares Hpercent Htrigger.
  unfold shouldSellWithDollarDrop.
  rewrite Hpos, Hbuyrule, Hfalls. cbv zeta. cbn [andb].
  destruct (Settings.profitTakingEnabled (TradingBot.settings bot));
    [| intros E; injection E as <-; discriminate].
  match goal with
  | |- context [if ?c && (length data >=? 2) then _ else _] =>
      destruct c eqn:Hreached
  end; cbn [andb]; [| intros E; injection E as <-; discriminate].
  destruct (length data >=? 2); [| intros E; injection E as <-; discriminate].
  destruct data.[length data - 2] as [previous |]; cbn [field bind];
    [| discriminate].
  match goal with
  | |- context [if geb ?drop ?trigger then _ else _] =>
      destruct (geb drop trigger) eqn:Hdrop
  end; [| intros E; injection E as <-; discriminate].
  intros _ _. split; [reflexivity |].
  assert (Hinvested : (0 <= mul (Position.buyPrice position)
                                (Position.shares position))%Q)
    by (apply mul_nonneg; now apply Qlt_le_weak).
  split.
  - apply (mul_lt_r _ _ (Position.shares position));
      [now apply Qlt_le_weak |].
    apply sub_positive.
    apply orb_true_iff in Hreached. destruct Hreached as [Hpct | Hdollar].
    + apply geb_true in Hpct.
      apply (percentage_positive _ _ Hinvested).
      eapply Qlt_le_trans; [| exact Hpct].
      apply orDefault_positive; [reflexivity | exact Hpercent].
    + apply andb_true_iff in Hdollar. destruct Hdollar as [Hpositive Hreach].
      unfold gtb in Hpositive. apply ltb_true in Hpositive.
      apply geb_true in Hreach.
      eapply Qlt_le_trans; eassumption.
  - exists previous. split; [reflexivity |].
    apply geb_true in Hdrop. split; [| exact Hdrop].
    apply sub_positive.
    eapply Qlt_le_trans; [| exact Hdrop].
    apply orDefault_positive; [reflexivity | exact Htrigger].
Qed.

(** One share bought at 20, the series [20, 24, 23] and the live price 23:
    the profit of 15% is above the default of 10%, the price has dropped
    by 1 from 24, and the overlay sells. *)
Lemma profit_taking_sells_in_profit_witness :
  (20 < 23)%Q
  /\ exists previous,
       (series [20; 24; 23]%Q).[1] = Some previous
       /\ (23 < StockData.price previous)%Q
       /\ (double 0.10 <= sub (StockData.price previous) 23)%Q.
Proof.
  destruct (profit_taking_sells_in_profit
              (profitTakingBot 20) (oneShare 20) 23 (series [20; 24; 23]%Q)
              (SellResult.mk true
                 [Lit "Profit target reached (";
                  Fixed 1 (mul (div (sub (mul 23 1) (mul 20 1)) (mul 20 1)) 100);
                  Lit "%) and price dropped "; Fixed 2 (sub 24 23)] None))
    as [_ [Hprofit Hdrop]];
    try reflexivity; try discriminate.
  split; [exact Hprofit | exact Hdrop].
Defined.
